(** * kcov: code-coverage collection for fuzzing (kernel/kcov.c)

    A shallow embedding of kernel/kcov.c: the descriptor state machine, the
    trace sinks called from instrumented code, the remote-handle registry
    with its scratch areas, and the merge of a scratch area into the buffer
    shared with user space.

    Conventions of the embedding.
    - C integers are [Z] with the wrap-around of their type written out
      ([u64], [ulong], [uint], [sint]).
    - A coverage area is a region of bytes ([list Z], each byte in
      [0, 256)); [unsigned long] and [u64] accesses are little-endian loads
      and stores at a scaled index, and an access outside the region is a
      fault ([None]).
    - Pointers to heap objects (descriptors, tasks, vmalloc regions) are
      keys of finite maps; [NULL] is [None]; dereferencing a pointer to a
      freed object is a fault.
    - Spinlocks, barriers and READ_ONCE/WRITE_ONCE carry no sequential
      meaning; every entry point runs to completion on the state.
    - Results of the allocators (kzalloc, kmalloc, vmalloc, vmalloc_user)
      are inputs of the operation that calls them.
    - User space reaches the file through open, close, ioctl and mmap, and
      the mapped area through plain stores.
    - The nodes of the free list of scratch areas are kept beside the
      areas; the bytes a node occupies inside a free area in the source are
      not tracked. *)

From stdpp Require Import gmap list option.
From Stdlib Require Import ZArith Lia.

Open Scope Z_scope.

(** ** Build configuration *)

(** The data model of the target: [sizeof(unsigned long)] is 4 or 8. *)
Inductive abi := ILP32 | LP64.

Record config := {
  cfg_abi : abi;
  (** CONFIG_RANDOMIZE_BASE and the value of [kaslr_offset()] (arch code). *)
  CONFIG_RANDOMIZE_BASE : bool;
  kaslr_offset : Z;
  CONFIG_KCOV_ENABLE_COMPARISONS : bool;
  (** [hash_min(handle, HASH_BITS(kcov_remote_map))] of linux/hashtable.h. *)
  hash_min : Z → nat
}.

Definition sizeof_long (a : abi) : Z :=
  match a with ILP32 => 4 | LP64 => 8 end.

Definition sizeof_u64 : Z := 8.

(** Number of 64-bit words written per one comparison. *)
Definition KCOV_WORDS_PER_CMP : Z := 4.

Definition INT_MAX : Z := 2 ^ 31 - 1.

(** ** Machine integers *)

Definition wrap (bits : Z) (v : Z) : Z := v mod 2 ^ bits.

Definition u64 (v : Z) : Z := wrap 64 v.
Definition uint (v : Z) : Z := wrap 32 v.
Definition ulong (a : abi) (v : Z) : Z := wrap (8 * sizeof_long a) v.

(** [int] arithmetic wraps (the kernel is built with -fno-strict-overflow). *)
Definition sint (v : Z) : Z := (v + 2 ^ 31) mod 2 ^ 32 - 2 ^ 31.

(** ** Errno values and user-visible constants

    Modelled from the spec: the errno numbers and the uapi constants live in
    headers outside the sources; the spec names the errors (busy, invalid
    argument, no memory, exists, not supported, not a typewriter) and gives
    [PC=0], [CMP=1], [CMP_SIZE(k) = k << 1], [CMP_CONST = bit 0]. *)
Definition ENOMEM : Z := 12.
Definition EFAULT : Z := 14.
Definition EBUSY : Z := 16.
Definition EEXIST : Z := 17.
Definition EINVAL : Z := 22.
Definition ENOTTY : Z := 25.
Definition ENOTSUPP : Z := 524.

Definition KCOV_TRACE_PC : Z := 0.
Definition KCOV_TRACE_CMP : Z := 1.
Definition KCOV_CMP_CONST : Z := 1.
Definition KCOV_CMP_SIZE (n : Z) : Z := Z.shiftl n 1.
Definition KCOV_REMOTE_MAX_HANDLES : Z := 256.

(** Modelled from the spec: [enum kcov_mode] is declared in linux/kcov.h;
    the spec lists the modes as DISABLED, INIT, TRACE_PC, TRACE_CMP. *)
Inductive kcov_mode :=
  | KCOV_MODE_DISABLED
  | KCOV_MODE_INIT
  | KCOV_MODE_TRACE_PC
  | KCOV_MODE_TRACE_CMP.

Global Instance kcov_mode_eq_dec : EqDecision kcov_mode.
Proof. solve_decision. Defined.

Definition kcov_mode_val (m : kcov_mode) : Z :=
  match m with
  | KCOV_MODE_DISABLED => 0
  | KCOV_MODE_INIT => 1
  | KCOV_MODE_TRACE_PC => 2
  | KCOV_MODE_TRACE_CMP => 3
  end.

(** The conversion of an [int] holding an enumerator back to the enum. *)
Definition kcov_mode_of_val (v : Z) : kcov_mode :=
  if decide (v = 1) then KCOV_MODE_INIT
  else if decide (v = 2) then KCOV_MODE_TRACE_PC
  else if decide (v = 3) then KCOV_MODE_TRACE_CMP
  else KCOV_MODE_DISABLED.

(** ** Byte-addressed areas *)

Fixpoint le_encode (n : nat) (v : Z) : list Z :=
  match n with
  | O => []
  | S n' => v mod 256 :: le_encode n' (v / 256)
  end.

Fixpoint le_decode (bs : list Z) : Z :=
  match bs with
  | [] => 0
  | b :: bs' => b + 256 * le_decode bs'
  end.

(** [((T * )area)[idx]] for a type [T] of [width] bytes. *)
Definition load (width : Z) (buf : list Z) (idx : Z) : option Z :=
  if decide (0 ≤ idx ∧ (idx + 1) * width ≤ Z.of_nat (length buf)) then
    Some (le_decode (take (Z.to_nat width) (drop (Z.to_nat (idx * width)) buf)))
  else None.

(** The region [buf] with [bytes] written at byte offset [off]. *)
Definition splice (buf : list Z) (off : nat) (bytes : list Z) : list Z :=
  take off buf ++ bytes ++ drop (off + length bytes) buf.

(** [((T * )area)[idx] = v]. *)
Definition store (width : Z) (buf : list Z) (idx : Z) (v : Z) : option (list Z) :=
  if decide (0 ≤ idx ∧ (idx + 1) * width ≤ Z.of_nat (length buf)) then
    Some (splice buf (Z.to_nat (idx * width)) (le_encode (Z.to_nat width) v))
  else None.

(** [memcpy(dst + doff, src + soff, n)]. *)
Definition memcpy (dst : list Z) (doff : Z) (src : list Z) (soff : Z) (n : Z)
    : option (list Z) :=
  if decide (0 ≤ doff ∧ 0 ≤ soff ∧ 0 ≤ n
             ∧ doff + n ≤ Z.of_nat (length dst)
             ∧ soff + n ≤ Z.of_nat (length src)) then
    Some (splice dst (Z.to_nat doff)
                 (take (Z.to_nat n) (drop (Z.to_nat soff) src)))
  else None.

Definition bytes_ok (buf : list Z) : Prop := Forall (λ b, 0 ≤ b < 256) buf.

(** ** Kernel objects *)

(** [struct kcov]; the fields carry a [k_] prefix. [k_area] and [k_t] are
    the pointers [area] and [t]. The lock is not represented. *)
Record kcov := {
  k_refcount : Z;
  k_mode : kcov_mode;
  k_size : Z;
  k_area : option nat;
  k_t : option nat;
  k_remote : bool;
  k_remote_size : Z;
  k_sequence : Z
}.

(** The kcov fields of [struct task_struct], with a [ts_] prefix. *)
Record task_struct := {
  ts_kcov_mode : kcov_mode;
  ts_kcov_size : Z;
  ts_kcov_area : option nat;
  ts_kcov : option nat;
  ts_kcov_sequence : Z
}.

(** [struct kcov_remote]: an entry of the handle registry. *)
Record kcov_remote := {
  r_handle : Z;
  r_kcov : nat
}.

(** [struct kcov_remote_area]: a node of the free list of scratch areas.
    In the source the node (two list pointers and the size) overlays the
    first bytes of the area it describes. The embedding keeps the node
    beside the area and does not track the overlaid bytes: of an area that
    is or has been on the free list, the theorems below use the length, the
    count word once [kcov_remote_start] has reset it, and the words the
    sinks write after that. *)
Record kcov_remote_area := {
  ra_area : nat;
  ra_size : Z
}.

Global Instance kcov_eq_dec : EqDecision kcov.
Proof. solve_decision. Defined.
Global Instance task_struct_eq_dec : EqDecision task_struct.
Proof. solve_decision. Defined.
Global Instance kcov_remote_eq_dec : EqDecision kcov_remote.
Proof. solve_decision. Defined.
Global Instance kcov_remote_area_eq_dec : EqDecision kcov_remote_area.
Proof. solve_decision. Defined.

(** [HASH_SIZE(kcov_remote_map)] for [DEFINE_HASHTABLE(kcov_remote_map, 4)]. *)
Definition HASH_SIZE : nat := 16.

(** The kernel state the file works on. *)
Record state := {
  kcovs : gmap nat kcov;
  tasks : gmap nat task_struct;
  vmem : gmap nat (list Z);
  kcov_remote_map : list (list kcov_remote);
  kcov_remote_areas : list kcov_remote_area
}.

Definition set_kcovs (f : gmap nat kcov → gmap nat kcov) (s : state) : state :=
  {| kcovs := f (kcovs s); tasks := tasks s; vmem := vmem s;
     kcov_remote_map := kcov_remote_map s;
     kcov_remote_areas := kcov_remote_areas s |}.

Definition set_tasks (f : gmap nat task_struct → gmap nat task_struct)
    (s : state) : state :=
  {| kcovs := kcovs s; tasks := f (tasks s); vmem := vmem s;
     kcov_remote_map := kcov_remote_map s;
     kcov_remote_areas := kcov_remote_areas s |}.

Definition set_vmem (f : gmap nat (list Z) → gmap nat (list Z))
    (s : state) : state :=
  {| kcovs := kcovs s; tasks := tasks s; vmem := f (vmem s);
     kcov_remote_map := kcov_remote_map s;
     kcov_remote_areas := kcov_remote_areas s |}.

Definition set_remote_map (f : list (list kcov_remote) → list (list kcov_remote))
    (s : state) : state :=
  {| kcovs := kcovs s; tasks := tasks s; vmem := vmem s;
     kcov_remote_map := f (kcov_remote_map s);
     kcov_remote_areas := kcov_remote_areas s |}.

Definition set_remote_areas
    (f : list kcov_remote_area → list kcov_remote_area) (s : state) : state :=
  {| kcovs := kcovs s; tasks := tasks s; vmem := vmem s;
     kcov_remote_map := kcov_remote_map s;
     kcov_remote_areas := f (kcov_remote_areas s) |}.

(** The state at boot: no descriptor, no task, an empty hash table. *)
Definition boot : state :=
  {| kcovs := ∅; tasks := ∅; vmem := ∅;
     kcov_remote_map := replicate HASH_SIZE [];
     kcov_remote_areas := [] |}.

(** ** User-space arguments *)

Inductive ioctl_cmd :=
  | KCOV_INIT_TRACE
  | KCOV_ENABLE
  | KCOV_DISABLE
  | KCOV_REMOTE_ENABLE
  | KCOV_OTHER (nr : Z).

Global Instance ioctl_cmd_eq_dec : EqDecision ioctl_cmd.
Proof. solve_decision. Defined.

(** [struct kcov_remote_arg] as the handler uses it. [handles] is what user
    memory holds behind the header. *)
Record kcov_remote_arg := {
  trace_mode : Z;
  area_size : Z;
  num_handles : Z;
  unused : Z;
  handles : list Z
}.

(** A call into one of the trace sinks, with the caller's return address
    [_RET_IP_]. *)
Inductive sink_call :=
  | trace_pc (ret_ip : Z)
  | trace_cmp1 (arg1 arg2 ret_ip : Z)
  | trace_cmp2 (arg1 arg2 ret_ip : Z)
  | trace_cmp4 (arg1 arg2 ret_ip : Z)
  | trace_cmp8 (arg1 arg2 ret_ip : Z)
  | trace_const_cmp1 (arg1 arg2 ret_ip : Z)
  | trace_const_cmp2 (arg1 arg2 ret_ip : Z)
  | trace_const_cmp4 (arg1 arg2 ret_ip : Z)
  | trace_const_cmp8 (arg1 arg2 ret_ip : Z)
  | trace_switch (val : Z) (cases : list Z) (ret_ip : Z).

(** The mode a sink implements. *)
Definition sink_mode (c : sink_call) : kcov_mode :=
  match c with
  | trace_pc _ => KCOV_MODE_TRACE_PC
  | _ => KCOV_MODE_TRACE_CMP
  end.

(** Entry points of the file, with what the environment decides for them:
    the calling task [current], the [in_task()] predicate, and the results
    of the allocators. *)
Inductive event :=
  | ev_fork (t : nat)
  | ev_task_exit (t : nat)
  | ev_open (kzalloc_ok : bool)
  | ev_close (k : nat)
  | ev_mmap (k : nat) (vm_pgoff vm_len : Z) (vmalloc_ok : bool)
  | ev_ioctl (current k : nat) (cmd : ioctl_cmd) (arg : Z)
             (uarg : kcov_remote_arg) (kmalloc_ok : nat → bool)
  | ev_sink (in_task : bool) (current : nat) (c : sink_call)
  | ev_remote_start (in_task : bool) (current : nat) (handle : Z)
                    (vmalloc_res : option (list Z))
  | ev_remote_stop (current : nat)
  | ev_user_store (k : nat) (idx v : Z).

Section kcov.

Variable cfg : config.

Definition word_size : Z := sizeof_long (cfg_abi cfg).

Definition ul (v : Z) : Z := ulong (cfg_abi cfg) v.

(** *** The registry of remote handles *)

Definition bucket_of (handle : Z) : nat := (hash_min cfg handle mod HASH_SIZE)%nat.

Fixpoint hlist_find (handle : Z) (l : list kcov_remote) : option kcov_remote :=
  match l with
  | [] => None
  | r :: l' => if decide (r_handle r = handle) then Some r
               else hlist_find handle l'
  end.

Definition kcov_remote_find (s : state) (handle : Z) : option kcov_remote :=
  hlist_find handle (default [] (kcov_remote_map s !! bucket_of handle)).

(** [hash_add]: the new node becomes the head of its bucket. *)
Definition hash_add (r : kcov_remote) (key : Z)
    (map : list (list kcov_remote)) : list (list kcov_remote) :=
  <[bucket_of key := r :: default [] (map !! bucket_of key)]> map.

(** [kcov_remote_area_get]: the first node of the requested size, unlinked
    from the list. The pointers that [list_del] writes into the unlinked
    node and into its neighbours, all inside areas of the free list, are
    not tracked (see [kcov_remote_area]). *)
Fixpoint kcov_remote_area_get (size : Z) (l : list kcov_remote_area)
    : option (kcov_remote_area * list kcov_remote_area) :=
  match l with
  | [] => None
  | a :: l' =>
      if decide (ra_size a = size) then Some (a, l')
      else '(r, rest) ← kcov_remote_area_get size l'; Some (r, a :: rest)
  end.

(** [kcov_remote_area_put]: the node becomes the head of the list. The
    node that the source writes into the first bytes of [area], and the
    pointer that [list_add] writes into the old head, are not tracked (see
    [kcov_remote_area]). *)
Definition kcov_remote_area_put (area : nat) (size : Z)
    (l : list kcov_remote_area) : list kcov_remote_area :=
  {| ra_area := area; ra_size := size |} :: l.

(** *** Trace sinks *)

Definition check_kcov_mode (in_task : bool) (needed_mode : kcov_mode)
    (t : task_struct) : bool :=
  if negb in_task then false
  else bool_decide (ts_kcov_mode t = needed_mode).

Definition canonicalize_ip (ip : Z) : Z :=
  let ip := ul ip in
  if CONFIG_RANDOMIZE_BASE cfg then ul (ip - kaslr_offset cfg) else ip.

Definition __sanitizer_cov_trace_pc (in_task : bool) (current : nat)
    (ret_ip : Z) (s : state) : option state :=
  let ip := canonicalize_ip ret_ip in
  t ← tasks s !! current;
  if negb (check_kcov_mode in_task KCOV_MODE_TRACE_PC t) then Some s
  else
    area ← ts_kcov_area t;
    buf ← vmem s !! area;
    count ← load word_size buf 0;
    let pos := ul (count + 1) in
    if decide (pos < ts_kcov_size t) then
      buf1 ← store word_size buf pos ip;
      buf2 ← store word_size buf1 0 pos;
      Some (set_vmem <[area := buf2]> s)
    else Some s.

Definition write_comp_data (in_task : bool) (current : nat)
    (type arg1 arg2 ip : Z) (s : state) : option state :=
  t ← tasks s !! current;
  if negb (check_kcov_mode in_task KCOV_MODE_TRACE_CMP t) then Some s
  else
    let ip := canonicalize_ip ip in
    area ← ts_kcov_area t;
    buf ← vmem s !! area;
    let max_pos := ul (ts_kcov_size t * word_size) in
    count ← load sizeof_u64 buf 0;
    let start_index := u64 (1 + u64 (count * KCOV_WORDS_PER_CMP)) in
    let end_pos := u64 (u64 (start_index + KCOV_WORDS_PER_CMP) * sizeof_u64) in
    if decide (end_pos ≤ max_pos) then
      buf1 ← store sizeof_u64 buf start_index type;
      buf2 ← store sizeof_u64 buf1 (u64 (start_index + 1)) arg1;
      buf3 ← store sizeof_u64 buf2 (u64 (start_index + 2)) arg2;
      buf4 ← store sizeof_u64 buf3 (u64 (start_index + 3)) ip;
      buf5 ← store sizeof_u64 buf4 0 (u64 (count + 1));
      Some (set_vmem <[area := buf5]> s)
    else Some s.

Fixpoint trace_switch_loop (in_task : bool) (current : nat) (type val : Z)
    (cases : list Z) (ret_ip : Z) (n : nat) (i : Z) (s : state) : option state :=
  match n with
  | O => Some s
  | S n' =>
      c ← cases !! Z.to_nat (i + 2);
      s' ← write_comp_data in_task current type c val ret_ip s;
      trace_switch_loop in_task current type val cases ret_ip n' (i + 1) s'
  end.

Definition __sanitizer_cov_trace_switch (in_task : bool) (current : nat)
    (val : Z) (cases : list Z) (ret_ip : Z) (s : state) : option state :=
  count ← cases !! 0%nat;
  size ← cases !! 1%nat;
  let type := KCOV_CMP_CONST in
  let loop type :=
    trace_switch_loop in_task current type val cases ret_ip
                      (Z.to_nat count) 0 s in
  if decide (size = 8) then loop (Z.lor type (KCOV_CMP_SIZE 0))
  else if decide (size = 16) then loop (Z.lor type (KCOV_CMP_SIZE 1))
  else if decide (size = 32) then loop (Z.lor type (KCOV_CMP_SIZE 2))
  else if decide (size = 64) then loop (Z.lor type (KCOV_CMP_SIZE 3))
  else Some s.

(** The dispatch of a sink call to its entry point; the narrow operands
    arrive converted to their parameter type. *)
Definition run_sink (in_task : bool) (current : nat) (c : sink_call)
    (s : state) : option state :=
  match c with
  | trace_pc ret_ip => __sanitizer_cov_trace_pc in_task current ret_ip s
  | trace_cmp1 a b ip =>
      write_comp_data in_task current (KCOV_CMP_SIZE 0) (wrap 8 a) (wrap 8 b) ip s
  | trace_cmp2 a b ip =>
      write_comp_data in_task current (KCOV_CMP_SIZE 1) (wrap 16 a) (wrap 16 b) ip s
  | trace_cmp4 a b ip =>
      write_comp_data in_task current (KCOV_CMP_SIZE 2) (wrap 32 a) (wrap 32 b) ip s
  | trace_cmp8 a b ip =>
      write_comp_data in_task current (KCOV_CMP_SIZE 3) (wrap 64 a) (wrap 64 b) ip s
  | trace_const_cmp1 a b ip =>
      write_comp_data in_task current (Z.lor (KCOV_CMP_SIZE 0) KCOV_CMP_CONST)
                      (wrap 8 a) (wrap 8 b) ip s
  | trace_const_cmp2 a b ip =>
      write_comp_data in_task current (Z.lor (KCOV_CMP_SIZE 1) KCOV_CMP_CONST)
                      (wrap 16 a) (wrap 16 b) ip s
  | trace_const_cmp4 a b ip =>
      write_comp_data in_task current (Z.lor (KCOV_CMP_SIZE 2) KCOV_CMP_CONST)
                      (wrap 32 a) (wrap 32 b) ip s
  | trace_const_cmp8 a b ip =>
      write_comp_data in_task current (Z.lor (KCOV_CMP_SIZE 3) KCOV_CMP_CONST)
                      (wrap 64 a) (wrap 64 b) ip s
  | trace_switch val cases ip =>
      __sanitizer_cov_trace_switch in_task current val cases ip s
  end.

Fixpoint run_sinks (in_task : bool) (current : nat) (cs : list sink_call)
    (s : state) : option state :=
  match cs with
  | [] => Some s
  | c :: cs' => s' ← run_sink in_task current c s;
                run_sinks in_task current cs' s'
  end.

(** *** Per-task state *)

Definition kcov_start_ts (size : Z) (area : option nat) (mode : kcov_mode)
    (sequence : Z) (t : task_struct) : task_struct :=
  {| ts_kcov_size := size; ts_kcov_area := area; ts_kcov_mode := mode;
     ts_kcov_sequence := sequence; ts_kcov := ts_kcov t |}.

Definition kcov_stop_ts (t : task_struct) : task_struct :=
  {| ts_kcov_mode := KCOV_MODE_DISABLED; ts_kcov_size := 0;
     ts_kcov_area := None; ts_kcov := ts_kcov t;
     ts_kcov_sequence := ts_kcov_sequence t |}.

Definition set_ts_kcov (k : option nat) (t : task_struct) : task_struct :=
  {| ts_kcov_mode := ts_kcov_mode t; ts_kcov_size := ts_kcov_size t;
     ts_kcov_area := ts_kcov_area t; ts_kcov := k;
     ts_kcov_sequence := ts_kcov_sequence t |}.

Definition kcov_task_init_ts (t : task_struct) : task_struct :=
  let t := kcov_stop_ts t in
  {| ts_kcov_mode := ts_kcov_mode t; ts_kcov_size := ts_kcov_size t;
     ts_kcov_area := ts_kcov_area t; ts_kcov := None;
     ts_kcov_sequence := 0 |}.

Definition kcov_start (t : nat) (size : Z) (area : option nat)
    (mode : kcov_mode) (sequence : Z) (s : state) : option state :=
  ts ← tasks s !! t;
  Some (set_tasks <[t := kcov_start_ts size area mode sequence ts]> s).

Definition kcov_stop (t : nat) (s : state) : option state :=
  ts ← tasks s !! t;
  Some (set_tasks <[t := kcov_stop_ts ts]> s).

Definition kcov_task_init (t : nat) (s : state) : option state :=
  ts ← tasks s !! t;
  Some (set_tasks <[t := kcov_task_init_ts ts]> s).

(** The task fields as fork leaves them: [kcov_task_init] on the fresh
    [task_struct]. *)
Definition new_task : task_struct :=
  {| ts_kcov_mode := KCOV_MODE_DISABLED; ts_kcov_size := 0;
     ts_kcov_area := None; ts_kcov := None; ts_kcov_sequence := 0 |}.

(** *** Descriptor life cycle *)

Definition kcov_reset_k (kc : kcov) : kcov :=
  {| k_refcount := k_refcount kc; k_size := k_size kc; k_area := k_area kc;
     k_t := None; k_mode := KCOV_MODE_INIT; k_remote := false;
     k_remote_size := 0; k_sequence := sint (k_sequence kc + 1) |}.

Definition kcov_reset (k : nat) (s : state) : option state :=
  kc ← kcovs s !! k;
  Some (set_kcovs <[k := kcov_reset_k kc]> s).

(** [hash_for_each_safe] with [hash_del] of every node of [k]. *)
Definition purge (k : nat) (map : list (list kcov_remote))
    : list (list kcov_remote) :=
  filter (λ r, r_kcov r ≠ k) <$> map.

Definition kcov_remote_reset (k : nat) (s : state) : option state :=
  kcov_reset k (set_remote_map (purge k) s).

Definition set_k_refcount (n : Z) (kc : kcov) : kcov :=
  {| k_refcount := n; k_size := k_size kc; k_area := k_area kc;
     k_t := k_t kc; k_mode := k_mode kc; k_remote := k_remote kc;
     k_remote_size := k_remote_size kc; k_sequence := k_sequence kc |}.

Definition kcov_get (k : nat) (s : state) : option state :=
  kc ← kcovs s !! k;
  Some (set_kcovs <[k := set_k_refcount (sint (k_refcount kc + 1)) kc]> s).

Definition vfree (area : option nat) (s : state) : state :=
  match area with
  | None => s
  | Some a => set_vmem (delete a) s
  end.

Definition kcov_put (k : nat) (s : state) : option state :=
  kc ← kcovs s !! k;
  let n := sint (k_refcount kc - 1) in
  let s := set_kcovs <[k := set_k_refcount n kc]> s in
  if decide (n = 0) then
    s ← kcov_remote_reset k s;
    kc ← kcovs s !! k;
    let s := vfree (k_area kc) s in
    Some (set_kcovs (delete k) s)
  else Some s.

Definition kcov_task_exit (t : nat) (s : state) : option state :=
  ts ← tasks s !! t;
  match ts_kcov ts with
  | None => Some s
  | Some k =>
      kc ← kcovs s !! k;
      if decide (k_t kc ≠ Some t) then Some s
      else
        s ← kcov_task_init t s;
        s ← (if k_remote kc then kcov_remote_reset k s else kcov_reset k s);
        kcov_put k s
  end.

Definition set_k_area (a : option nat) (kc : kcov) : kcov :=
  {| k_refcount := k_refcount kc; k_size := k_size kc; k_area := a;
     k_t := k_t kc; k_mode := k_mode kc; k_remote := k_remote kc;
     k_remote_size := k_remote_size kc; k_sequence := k_sequence kc |}.

(** [kcov_mmap] on the file of descriptor [k], for a mapping of [vm_len =
    vm_end - vm_start] bytes at page offset [vm_pgoff]. The insertion of the
    pages into the caller's address space is outside the embedding. *)
Definition kcov_mmap (k : nat) (vm_pgoff vm_len : Z) (vmalloc_ok : bool)
    (s : state) : option (Z * state) :=
  if negb vmalloc_ok then Some (- ENOMEM, s)
  else
    let area := fresh (dom (vmem s)) in
    let s := set_vmem <[area := replicate (Z.to_nat vm_len) 0]> s in
    kc ← kcovs s !! k;
    let size := ul (k_size kc * word_size) in
    if decide (k_mode kc ≠ KCOV_MODE_INIT ∨ vm_pgoff ≠ 0 ∨ vm_len ≠ size) then
      Some (- EINVAL, vfree (Some area) s)
    else
      match k_area kc with
      | None => Some (0, set_kcovs <[k := set_k_area (Some area) kc]> s)
      | Some _ => Some (0, vfree (Some area) s)
      end.

(** The descriptor as [kcov_open] sets it up on zeroed memory. *)
Definition new_kcov : kcov :=
  {| k_refcount := 1; k_mode := KCOV_MODE_DISABLED; k_size := 0;
     k_area := None; k_t := None; k_remote := false; k_remote_size := 0;
     k_sequence := 1 |}.

(** [kcov_open]; the new file refers to descriptor [fresh (dom (kcovs s))]. *)
Definition kcov_open (kzalloc_ok : bool) (s : state) : option (Z * state) :=
  if negb kzalloc_ok then Some (- ENOMEM, s)
  else
    let k := fresh (dom (kcovs s)) in
    Some (0, set_kcovs <[k := new_kcov]> s).

Definition kcov_close (k : nat) (s : state) : option (Z * state) :=
  s ← kcov_put k s; Some (0, s).

Definition kcov_get_mode (arg : Z) : Z :=
  if decide (arg = KCOV_TRACE_PC) then kcov_mode_val KCOV_MODE_TRACE_PC
  else if decide (arg = KCOV_TRACE_CMP) then
    if CONFIG_KCOV_ENABLE_COMPARISONS cfg then kcov_mode_val KCOV_MODE_TRACE_CMP
    else - ENOTSUPP
  else - EINVAL.

(** *** The ioctl handler *)

Definition set_k_size_mode (size : Z) (m : kcov_mode) (kc : kcov) : kcov :=
  {| k_refcount := k_refcount kc; k_size := size; k_area := k_area kc;
     k_t := k_t kc; k_mode := m; k_remote := k_remote kc;
     k_remote_size := k_remote_size kc; k_sequence := k_sequence kc |}.

Definition set_k_t (t : option nat) (kc : kcov) : kcov :=
  {| k_refcount := k_refcount kc; k_size := k_size kc; k_area := k_area kc;
     k_t := t; k_mode := k_mode kc; k_remote := k_remote kc;
     k_remote_size := k_remote_size kc; k_sequence := k_sequence kc |}.

Definition set_k_remote (r : bool) (rsize : Z) (kc : kcov) : kcov :=
  {| k_refcount := k_refcount kc; k_size := k_size kc; k_area := k_area kc;
     k_t := k_t kc; k_mode := k_mode kc; k_remote := r;
     k_remote_size := rsize; k_sequence := k_sequence kc |}.

(** The loop of KCOV_REMOTE_ENABLE over [handles[i]], [i < num_handles],
    with [n] iterations left, followed by the code after the loop.
    [kmalloc_ok i] tells whether the allocation of iteration [i] succeeds. *)
Fixpoint remote_enable_loop (k : nat) (remote_arg : kcov_remote_arg)
    (kmalloc_ok : nat → bool) (n i : nat) (s : state) : option (Z * state) :=
  match n with
  | O => s ← kcov_get k s; Some (0, s)
  | S n' =>
      h ← handles remote_arg !! i;
      match kcov_remote_find s h with
      | Some _ => s ← kcov_remote_reset k s; Some (- EEXIST, s)
      | None =>
          if negb (kmalloc_ok i) then
            s ← kcov_remote_reset k s; Some (- ENOMEM, s)
          else
            let remote := {| r_handle := h; r_kcov := k |} in
            remote_enable_loop k remote_arg kmalloc_ok n' (S i)
              (set_remote_map (hash_add remote h) s)
      end
  end.

Definition kcov_ioctl_locked (current k : nat) (cmd : ioctl_cmd) (arg : Z)
    (remote_arg : kcov_remote_arg) (kmalloc_ok : nat → bool) (s : state)
    : option (Z * state) :=
  kc ← kcovs s !! k;
  match cmd with
  | KCOV_INIT_TRACE =>
      if decide (k_mode kc ≠ KCOV_MODE_DISABLED) then Some (- EBUSY, s)
      else
        let size := arg in
        if decide (size < 2 ∨ size > INT_MAX / word_size) then Some (- EINVAL, s)
        else
          Some (0, set_kcovs
                     <[k := set_k_size_mode (uint size) KCOV_MODE_INIT kc]> s)
  | KCOV_ENABLE =>
      if decide (k_mode kc ≠ KCOV_MODE_INIT ∨ k_area kc = None) then
        Some (- EINVAL, s)
      else
        t ← tasks s !! current;
        if decide (k_t kc ≠ None ∨ ts_kcov t ≠ None) then Some (- EBUSY, s)
        else
          let mode := kcov_get_mode arg in
          if decide (mode < 0) then Some (mode, s)
          else
            let kc := set_k_size_mode (k_size kc) (kcov_mode_of_val mode) kc in
            let s := set_kcovs <[k := kc]> s in
            s ← kcov_start current (k_size kc) (k_area kc) (k_mode kc)
                           (k_sequence kc) s;
            t ← tasks s !! current;
            let s := set_tasks <[current := set_ts_kcov (Some k) t]> s in
            let s := set_kcovs <[k := set_k_t (Some current) kc]> s in
            s ← kcov_get k s;
            Some (0, s)
  | KCOV_DISABLE =>
      t ← tasks s !! current;
      if decide (arg ≠ 0 ∨ ts_kcov t ≠ Some k) then Some (- EINVAL, s)
      else if decide (k_t kc ≠ Some current) then Some (- EINVAL, s)
      else
        s ← kcov_task_init current s;
        s ← (if k_remote kc then kcov_remote_reset k s else kcov_reset k s);
        s ← kcov_put k s;
        Some (0, s)
  | KCOV_REMOTE_ENABLE =>
      if decide (k_mode kc ≠ KCOV_MODE_INIT ∨ k_area kc = None) then
        Some (- EINVAL, s)
      else
        t ← tasks s !! current;
        if decide (k_t kc ≠ None ∨ ts_kcov t ≠ None) then Some (- EBUSY, s)
        else
          let mode := kcov_get_mode (trace_mode remote_arg) in
          if decide (mode < 0) then Some (mode, s)
          else
            let kc := set_k_size_mode (k_size kc) (kcov_mode_of_val mode) kc in
            let s := set_tasks <[current := set_ts_kcov (Some k) t]> s in
            let kc := set_k_t (Some current) kc in
            let kc := set_k_remote true (uint (area_size remote_arg)) kc in
            let s := set_kcovs <[k := kc]> s in
            remote_enable_loop k remote_arg kmalloc_ok
              (Z.to_nat (num_handles remote_arg)) 0 s
  | KCOV_OTHER _ => Some (- ENOTTY, s)
  end.

(** [kcov_ioctl]: for KCOV_REMOTE_ENABLE the argument structure [uarg] is
    copied from user memory first; a [handles] array shorter than
    [num_handles] stands for an unreadable tail. *)
Definition kcov_ioctl (current k : nat) (cmd : ioctl_cmd) (arg : Z)
    (uarg : kcov_remote_arg) (kmalloc_ok : nat → bool) (s : state)
    : option (Z * state) :=
  if decide (cmd = KCOV_REMOTE_ENABLE) then
    let remote_num_handles := uint (num_handles uarg) in
    if decide (remote_num_handles > KCOV_REMOTE_MAX_HANDLES) then
      Some (- EINVAL, s)
    else if decide (Z.of_nat (length (handles uarg)) < remote_num_handles) then
      Some (- EFAULT, s)
    else
      let remote_arg :=
        {| trace_mode := trace_mode uarg; area_size := area_size uarg;
           num_handles := num_handles uarg; unused := unused uarg;
           handles := take (Z.to_nat remote_num_handles) (handles uarg) |} in
      if decide (num_handles remote_arg ≠ remote_num_handles
                 ∨ unused remote_arg ≠ 0) then Some (- EINVAL, s)
      else kcov_ioctl_locked current k cmd arg remote_arg kmalloc_ok s
  else kcov_ioctl_locked current k cmd arg uarg kmalloc_ok s.

(** *** Remote collection windows *)

(** [vmalloc_res] is the outcome of [vmalloc], should the free list hold no
    area of the requested size: [None] for a failed allocation, otherwise
    the bytes the uninitialised region happens to hold. *)
Definition kcov_remote_start (in_task : bool) (current : nat) (handle : Z)
    (vmalloc_res : option (list Z)) (s : state) : option state :=
  if negb in_task then Some s
  else
    t ← tasks s !! current;
    if decide (ts_kcov t ≠ None) then Some s
    else
      match kcov_remote_find s handle with
      | None => Some s
      | Some remote =>
          let k := r_kcov remote in
          s ← kcov_get k s;
          let s := set_tasks <[current := set_ts_kcov (Some k) t]> s in
          kc ← kcovs s !! k;
          let size := k_remote_size kc in
          let mode := k_mode kc in
          let sequence := k_sequence kc in
          let publish (area : nat) (s : state) : option state :=
            buf ← vmem s !! area;
            buf ← store sizeof_u64 buf 0 0;
            kcov_start current size (Some area) mode sequence
                       (set_vmem <[area := buf]> s) in
          match kcov_remote_area_get size (kcov_remote_areas s) with
          | Some (a, rest) =>
              publish (ra_area a) (set_remote_areas (λ _, rest) s)
          | None =>
              match vmalloc_res with
              | None => kcov_put k s
              | Some bytes =>
                  let area := fresh (dom (vmem s)) in
                  let len := Z.to_nat (ul (size * word_size)) in
                  publish area (set_vmem <[area := resize len 0 bytes]> s)
              end
          end
      end.

(** [kcov_move_area] once its first switch has fixed the type of the two
    counts ([width] bytes), [count_size] and [entry_size]; the final switch
    stores the new count with that same type. *)
Definition move_entries (width count_size entry_size : Z) (dst_area : list Z)
    (dst_area_size : Z) (src_area : list Z) : option (list Z) :=
  dst_len ← load width dst_area 0;
  src_len ← load width src_area 0;
  if decide (dst_len >
             u64 (u64 (dst_area_size * word_size) - count_size) / entry_size)
  then Some dst_area
  else
    let dst_occupied := u64 (count_size + u64 (dst_len * entry_size)) in
    let dst_free := u64 (u64 (dst_area_size * word_size) - dst_occupied) in
    let bytes_to_move := Z.min dst_free (u64 (src_len * entry_size)) in
    dst_area ← memcpy dst_area dst_occupied src_area count_size bytes_to_move;
    let entries_moved := bytes_to_move / entry_size in
    store width dst_area 0 (u64 (dst_len + entries_moved)).

Definition kcov_move_area (mode : kcov_mode) (dst_area : list Z)
    (dst_area_size : Z) (src_area : list Z) : option (list Z) :=
  match mode with
  | KCOV_MODE_TRACE_PC =>
      move_entries word_size word_size word_size
                   dst_area dst_area_size src_area
  | KCOV_MODE_TRACE_CMP =>
      move_entries sizeof_u64 sizeof_u64 (sizeof_u64 * KCOV_WORDS_PER_CMP)
                   dst_area dst_area_size src_area
  | _ => Some dst_area
  end.

(** [kcov_move_area] on the areas two pointers refer to. *)
Definition kcov_move_area_at (mode : kcov_mode) (dst_area : option nat)
    (dst_area_size : Z) (src_area : option nat) (s : state) : option state :=
  match mode with
  | KCOV_MODE_TRACE_PC | KCOV_MODE_TRACE_CMP =>
      d ← dst_area;
      dst ← vmem s !! d;
      src ← src_area ≫= (vmem s !!.);
      dst ← kcov_move_area mode dst dst_area_size src;
      Some (set_vmem <[d := dst]> s)
  | _ => Some s
  end.

Definition kcov_remote_stop (current : nat) (s : state) : option state :=
  t ← tasks s !! current;
  match ts_kcov t with
  | None => Some s
  | Some k =>
      let area := ts_kcov_area t in
      let size := ts_kcov_size t in
      let sequence := ts_kcov_sequence t in
      s ← kcov_stop current s;
      t ← tasks s !! current;
      let s := set_tasks <[current := set_ts_kcov None t]> s in
      kc ← kcovs s !! k;
      s ← (if decide (sequence = k_sequence kc) then
             if k_remote kc then
               kcov_move_area_at (k_mode kc) (k_area kc) (k_size kc) area s
             else Some s
           else Some s);
      a ← area;
      let s := set_remote_areas (kcov_remote_area_put a size) s in
      kcov_put k s
  end.

(** *** Runs *)

(** A store of a 64-bit word by user space into the area it has mapped from
    descriptor [k]. *)
Definition user_store (k : nat) (idx v : Z) (s : state) : option state :=
  kc ← kcovs s !! k;
  area ← k_area kc;
  buf ← vmem s !! area;
  buf ← store sizeof_u64 buf idx v;
  Some (set_vmem <[area := buf]> s).

Definition step (e : event) (s : state) : option state :=
  match e with
  | ev_fork t =>
      match tasks s !! t with
      | None => Some (set_tasks <[t := new_task]> s)
      | Some _ => None
      end
  | ev_task_exit t => kcov_task_exit t s
  | ev_open ok => snd <$> kcov_open ok s
  | ev_close k => snd <$> kcov_close k s
  | ev_mmap k pgoff len ok => snd <$> kcov_mmap k pgoff len ok s
  | ev_ioctl cur k cmd arg uarg ok => snd <$> kcov_ioctl cur k cmd arg uarg ok s
  | ev_sink in_task cur c => run_sink in_task cur c s
  | ev_remote_start in_task cur h res => kcov_remote_start in_task cur h res s
  | ev_remote_stop cur => kcov_remote_stop cur s
  | ev_user_store k idx v => user_store k idx v s
  end.

Fixpoint run (es : list event) (s : state) : option state :=
  match es with
  | [] => Some s
  | e :: es' => s' ← step e s; run es' s'
  end.

(** The states the entry points can produce from boot. *)
Definition reachable (s : state) : Prop :=
  ∃ es, run es boot = Some s.

End kcov.

(** ** Invariants of the descriptors and the registry *)

Definition traces (m : kcov_mode) : Prop :=
  m = KCOV_MODE_TRACE_PC ∨ m = KCOV_MODE_TRACE_CMP.

(** [r] is a node of some bucket of the hash table. *)
Definition registered (s : state) (r : kcov_remote) : Prop :=
  ∃ b l, kcov_remote_map s !! b = Some l ∧ r ∈ l.

(** A descriptor has an owner only while it traces, collects remotely only
    while it has an owner, and once sized keeps a size within the bounds
    KCOV_INIT_TRACE checks. *)
Definition kcov_ok (cfg : config) (kc : kcov) : Prop :=
  (k_t kc ≠ None → traces (k_mode kc))
  ∧ (k_remote kc = true → k_t kc ≠ None)
  ∧ (k_mode kc ≠ KCOV_MODE_DISABLED →
     2 ≤ k_size kc ≤ INT_MAX / sizeof_long (cfg_abi cfg)).

Record state_ok (cfg : config) (s : state) : Prop := {
  ok_kcovs : ∀ k kc, kcovs s !! k = Some kc → kcov_ok cfg kc;
  ok_registry : ∀ r, registered s r →
    ∃ kc, kcovs s !! r_kcov r = Some kc ∧ k_remote kc = true;
  ok_buckets : length (kcov_remote_map s) = HASH_SIZE
}.

(** No node of the hash table belongs to descriptor [k]. *)
Definition no_entries (k : nat) (s : state) : Prop :=
  ∀ r, registered s r → r_kcov r ≠ k.

(** ** Well-formed inputs and sample configurations *)

(** A case table as the compiler emits it for a switch: the number of
    labels, their width in bits, then that many labels. *)
Definition switch_table_ok (cases : list Z) : Prop :=
  match cases with
  | count :: _ :: labels => count ≤ Z.of_nat (length labels)
  | _ => False
  end.

Definition sink_call_ok (c : sink_call) : Prop :=
  match c with
  | trace_switch _ cases _ => switch_table_ok cases
  | _ => True
  end.

(** A 64-bit build with a randomised base and comparison tracing. *)
Definition lp64_config : config :=
  {| cfg_abi := LP64; CONFIG_RANDOMIZE_BASE := true; kaslr_offset := 4096;
     CONFIG_KCOV_ENABLE_COMPARISONS := true;
     hash_min := λ h, Z.to_nat (h mod 16) |}.

(** A 32-bit build without either option. *)
Definition ilp32_config : config :=
  {| cfg_abi := ILP32; CONFIG_RANDOMIZE_BASE := false; kaslr_offset := 0;
     CONFIG_KCOV_ENABLE_COMPARISONS := false;
     hash_min := λ h, Z.to_nat (h mod 16) |}.

Definition no_remote_arg : kcov_remote_arg :=
  {| trace_mode := 0; area_size := 0; num_handles := 0; unused := 0;
     handles := [] |}.

Definition remote_arg_of (mode size : Z) (hs : list Z) : kcov_remote_arg :=
  {| trace_mode := mode; area_size := size;
     num_handles := Z.of_nat (length hs); unused := 0; handles := hs |}.

Definition always_ok : nat → bool := λ _, true.

(** Task 1 opens a descriptor, sizes it to [n] words and maps it; task 2
    exists beside it. *)
Definition mapped_run (cfg : config) (n : Z) : list event :=
  [ ev_fork 1; ev_fork 2; ev_open true;
    ev_ioctl 1 0 KCOV_INIT_TRACE n no_remote_arg always_ok;
    ev_mmap 0 0 (n * sizeof_long (cfg_abi cfg)) true ].

(** ... and enables it for itself in the mode [m] asks for. *)
Definition enabled_run (cfg : config) (n m : Z) : list event :=
  mapped_run cfg n ++ [ ev_ioctl 1 0 KCOV_ENABLE m no_remote_arg always_ok ].

(** ... or enables it for remote collection under handles [hs], with
    scratch areas of [rs] words. *)
Definition remote_run (cfg : config) (n m rs : Z) (hs : list Z) : list event :=
  mapped_run cfg n
  ++ [ ev_ioctl 1 0 KCOV_REMOTE_ENABLE 0 (remote_arg_of m rs hs) always_ok ].

Definition state_after (cfg : config) (es : list event) : state :=
  default boot (run cfg es boot).

(** Task 1 traces on descriptor 0; a second descriptor, 1, is sized and
    mapped but has no owner. *)
Definition two_descriptors_run (cfg : config) : list event :=
  enabled_run cfg 4 0
  ++ [ ev_open true;
       ev_ioctl 2 1 KCOV_INIT_TRACE 4 no_remote_arg always_ok;
       ev_mmap 1 0 (4 * sizeof_long (cfg_abi cfg)) true ].

Definition mapped_state (cfg : config) (n : Z) : state :=
  state_after cfg (mapped_run cfg n).

Definition enabled_state (cfg : config) (n m : Z) : state :=
  state_after cfg (enabled_run cfg n m).

Definition remote_state (cfg : config) (n m rs : Z) (hs : list Z) : state :=
  state_after cfg (remote_run cfg n m rs hs).

Definition two_descriptors_state (cfg : config) : state :=
  state_after cfg (two_descriptors_run cfg).

(** Descriptor 0 of [mapped_state cfg n]. *)
Definition mapped_kcov (n : Z) : kcov :=
  {| k_refcount := 1; k_mode := KCOV_MODE_INIT; k_size := n;
     k_area := Some 0%nat; k_t := None; k_remote := false;
     k_remote_size := 0; k_sequence := 1 |}.

(** The record [(type, arg1, arg2, ip)] a comparison sink hands to
    [write_comp_data]. *)
Definition cmp_record (c : sink_call) : option (Z * Z * Z * Z) :=
  match c with
  | trace_cmp1 a b ip => Some (KCOV_CMP_SIZE 0, wrap 8 a, wrap 8 b, ip)
  | trace_cmp2 a b ip => Some (KCOV_CMP_SIZE 1, wrap 16 a, wrap 16 b, ip)
  | trace_cmp4 a b ip => Some (KCOV_CMP_SIZE 2, wrap 32 a, wrap 32 b, ip)
  | trace_cmp8 a b ip => Some (KCOV_CMP_SIZE 3, wrap 64 a, wrap 64 b, ip)
  | trace_const_cmp1 a b ip =>
      Some (Z.lor (KCOV_CMP_SIZE 0) KCOV_CMP_CONST, wrap 8 a, wrap 8 b, ip)
  | trace_const_cmp2 a b ip =>
      Some (Z.lor (KCOV_CMP_SIZE 1) KCOV_CMP_CONST, wrap 16 a, wrap 16 b, ip)
  | trace_const_cmp4 a b ip =>
      Some (Z.lor (KCOV_CMP_SIZE 2) KCOV_CMP_CONST, wrap 32 a, wrap 32 b, ip)
  | trace_const_cmp8 a b ip =>
      Some (Z.lor (KCOV_CMP_SIZE 3) KCOV_CMP_CONST, wrap 64 a, wrap 64 b, ip)
  | _ => None
  end.

(** Task 1 traces comparisons into the 4-word area of descriptor 0, and
    user space has set the count word to [2^61 - 1]. *)
Definition huge_count_run : list event :=
  enabled_run lp64_config 4 1 ++ [ ev_user_store 0 0 (2 ^ 61 - 1) ].

Definition huge_count_state : state :=
  state_after lp64_config huge_count_run.

(** ** Layout of an area by mode *)

(** The width of the count word, which is also the width of the words a
    record is made of: [unsigned long] in PC mode, [u64] in CMP mode. *)
Definition count_size (cfg : config) (mode : kcov_mode) : Z :=
  match mode with
  | KCOV_MODE_TRACE_CMP => sizeof_u64
  | _ => sizeof_long (cfg_abi cfg)
  end.

Definition words_per_entry (mode : kcov_mode) : Z :=
  match mode with
  | KCOV_MODE_TRACE_CMP => KCOV_WORDS_PER_CMP
  | _ => 1
  end.

Definition entry_size (cfg : config) (mode : kcov_mode) : Z :=
  count_size cfg mode * words_per_entry mode.

(** The number of records an area of [c] words can hold behind its count. *)
Definition capacity (cfg : config) (mode : kcov_mode) (c : Z) : Z :=
  (c * sizeof_long (cfg_abi cfg) - count_size cfg mode) / entry_size cfg mode.

(** A 4-word PC area holding the count [n] and the words [ws]. *)
Definition pc_area (n : Z) (ws : list Z) : list Z :=
  resize 32 0 (le_encode 8 n ++ mjoin (le_encode 8 <$> ws)).

(** ** Further invariants and inputs *)

(** Every node hangs in the bucket of its handle, and no bucket holds a
    handle twice. *)
Definition registry_ok (cfg : config) (s : state) : Prop :=
  ∀ b l, kcov_remote_map s !! b = Some l →
    NoDup (r_handle <$> l) ∧ Forall (λ r, bucket_of cfg (r_handle r) = b) l.

(** The handles a KCOV_REMOTE_ENABLE request carries: the first
    [num_handles] words behind the header. *)
Definition requested_handles (a : kcov_remote_arg) : list Z :=
  take (Z.to_nat (num_handles a)) (handles a).

(** The call the compiler would emit for one label of a switch over a value
    of [size] bits: a comparison of the label, a constant, with the value. *)
Definition switch_case_sink (size : Z) (val ret_ip label : Z) : sink_call :=
  if decide (size = 8) then trace_const_cmp1 label val ret_ip
  else if decide (size = 16) then trace_const_cmp2 label val ret_ip
  else if decide (size = 32) then trace_const_cmp4 label val ret_ip
  else trace_const_cmp8 label val ret_ip.


(** What KCOV_INIT_TRACE and the first mapping fix for good: a sized
    descriptor stays sized, with the same size, and keeps the area it has. *)
Definition kcov_settled (kc kc' : kcov) : Prop :=
  k_mode kc ≠ KCOV_MODE_DISABLED →
  k_mode kc' ≠ KCOV_MODE_DISABLED ∧ k_size kc' = k_size kc
  ∧ (k_area kc ≠ None → k_area kc' = k_area kc).

(** No descriptor of [m'] is new, and each has evolved from the one [m]
    holds under its key. *)
Definition kcovs_settled (m m' : gmap nat kcov) : Prop :=
  ∀ k kc', m' !! k = Some kc' → ∃ kc, m !! k = Some kc ∧ kcov_settled kc kc'.

(** Descriptor [k] exists in every state the run goes through. *)
Fixpoint stays_open (cfg : config) (k : nat) (es : list event) (s : state)
    : Prop :=
  is_Some (kcovs s !! k)
  ∧ match es with
    | [] => True
    | e :: es' =>
        match step cfg e s with
        | Some s' => stays_open cfg k es' s'
        | None => False
        end
    end.

(** Task 1 traces PCs into the 4-word area of descriptor 0, and user space
    has set the count word to [2^64 - 1]. *)
Definition scribbled_pc_state : state :=
  state_after lp64_config
    (enabled_run lp64_config 4 0 ++ [ ev_user_store 0 0 (2 ^ 64 - 1) ]).

(** Descriptor 0 collects remotely under handle 7; task 2 has opened a
    window on it, recorded two PCs and closed the window. *)
Definition closed_window_state : state :=
  state_after lp64_config
    (remote_run lp64_config 4 0 4 [7]
     ++ [ ev_remote_start true 2 7 (Some []);
          ev_sink true 2 (trace_pc 5000); ev_sink true 2 (trace_pc 6000);
          ev_remote_stop 2 ]).

(** The area of every descriptor is allocated with [size] words, belongs to
    a descriptor that has left DISABLED, and to no other descriptor. *)
Definition areas_ok (cfg : config) (s : state) : Prop :=
  ∀ k kc a, kcovs s !! k = Some kc → k_area kc = Some a →
    k_mode kc ≠ KCOV_MODE_DISABLED
    ∧ (∃ buf, vmem s !! a = Some buf
              ∧ Z.of_nat (length buf) = k_size kc * word_size cfg)
    ∧ ∀ k' kc', kcovs s !! k' = Some kc' → k_area kc' = Some a → k' = k.

(** Descriptor [kc] and the kcov fields of the task once KCOV_ENABLE by
    task [cur] on descriptor [k], for mode [m], has returned 0. *)
Definition enabled_kcov (cur : nat) (m : kcov_mode) (kc : kcov) : kcov :=
  set_k_refcount (sint (k_refcount kc + 1))
    (set_k_t (Some cur) (set_k_size_mode (k_size kc) m kc)).

Definition enabled_task (k : nat) (m : kcov_mode) (kc : kcov) : task_struct :=
  {| ts_kcov_mode := m; ts_kcov_size := k_size kc;
     ts_kcov_area := k_area kc; ts_kcov := Some k;
     ts_kcov_sequence := k_sequence kc |}.









(** Task 1 enables a descriptor for itself and calls [kcov_remote_stop],
    which puts the mapped area on the free list; the descriptor is closed
    and its area freed; the next descriptor is given the same region and is
    enabled for remote collection under handle 7 with scratch areas of the
    same size. *)
Definition aliased_run : list event :=
  [ ev_fork 1; ev_fork 2; ev_open true;
    ev_ioctl 1 0 KCOV_INIT_TRACE 4 no_remote_arg always_ok;
    ev_mmap 0 0 32 true;
    ev_ioctl 1 0 KCOV_ENABLE 0 no_remote_arg always_ok;
    ev_remote_stop 1;
    ev_close 0;
    ev_open true;
    ev_ioctl 1 0 KCOV_INIT_TRACE 4 no_remote_arg always_ok;
    ev_mmap 0 0 32 true;
    ev_ioctl 1 0 KCOV_REMOTE_ENABLE 0 (remote_arg_of 0 4 [7]) always_ok ].

Definition aliased_state : state := state_after lp64_config aliased_run.

(** * Properties *)

(** ** Loads and stores on byte regions *)

Lemma length_le_encode n v : length (le_encode n v) = n.
Proof. revert v. induction n as [|n IH]; intros v; simpl; auto. Qed.

Lemma le_decode_encode n v :
  le_decode (le_encode n v) = v mod 256 ^ Z.of_nat n.
Proof.
  revert v. induction n as [|n IH]; intros v.
  - simpl. rewrite Z.mod_1_r. reflexivity.
  - cbn [le_encode le_decode]. rewrite IH.
    replace (Z.of_nat (S n)) with (1 + Z.of_nat n) by lia.
    rewrite Z.pow_add_r by lia. change (256 ^ 1) with 256.
    rewrite Z.rem_mul_r by lia. lia.
Qed.

Lemma le_encode_bytes_ok n v : bytes_ok (le_encode n v).
Proof.
  revert v. induction n as [|n IH]; intros v; simpl.
  - constructor.
  - constructor; [apply Z.mod_pos_bound; lia | apply IH].
Qed.

Lemma le_decode_bound bs :
  bytes_ok bs → 0 ≤ le_decode bs < 256 ^ Z.of_nat (length bs).
Proof.
  induction 1 as [|b bs Hb _ IH]; simpl length.
  - simpl. lia.
  - cbn [le_decode].
    replace (Z.of_nat (S (length bs))) with (1 + Z.of_nat (length bs)) by lia.
    rewrite Z.pow_add_r by lia. change (256 ^ 1) with 256. nia.
Qed.

Lemma length_splice buf off bytes :
  (off + length bytes ≤ length buf)%nat →
  length (splice buf off bytes) = length buf.
Proof.
  intros H. unfold splice.
  rewrite !length_app, length_take, length_drop. lia.
Qed.

Lemma lookup_splice_lt buf off bytes (p : nat) :
  (off ≤ length buf)%nat → (p < off)%nat →
  splice buf off bytes !! p = buf !! p.
Proof.
  intros Hoff Hp. unfold splice.
  rewrite lookup_app_l by (rewrite length_take; lia).
  apply lookup_take_lt. lia.
Qed.

Lemma lookup_splice_mid buf off bytes (p : nat) :
  (off ≤ length buf)%nat → (off ≤ p < off + length bytes)%nat →
  splice buf off bytes !! p = bytes !! (p - off)%nat.
Proof.
  intros Hoff Hp. unfold splice.
  rewrite lookup_app_r by (rewrite length_take; lia).
  rewrite length_take, Nat.min_l by lia.
  rewrite lookup_app_l by lia. reflexivity.
Qed.

Lemma lookup_splice_ge buf off bytes (p : nat) :
  (off ≤ length buf)%nat → (off + length bytes ≤ p)%nat →
  splice buf off bytes !! p = buf !! p.
Proof.
  intros Hoff Hp. unfold splice.
  rewrite lookup_app_r by (rewrite length_take; lia).
  rewrite length_take, Nat.min_l by lia.
  rewrite lookup_app_r by lia.
  rewrite lookup_drop. f_equal. lia.
Qed.

Lemma drop_splice buf off bytes :
  (off ≤ length buf)%nat →
  drop off (splice buf off bytes) = bytes ++ drop (off + length bytes) buf.
Proof.
  intros Hoff. unfold splice.
  rewrite drop_app_length'; [reflexivity|].
  rewrite length_take. lia.
Qed.

Lemma splice_bytes_ok buf off bytes :
  bytes_ok buf → bytes_ok bytes → bytes_ok (splice buf off bytes).
Proof.
  intros Hb Hm. unfold splice, bytes_ok in *.
  rewrite !Forall_app. split_and!; auto using Forall_take, Forall_drop.
Qed.

(** Two regions that agree on the bytes of a slot load the same value. *)
Lemma load_ext width buf1 buf2 idx :
  0 < width → length buf1 = length buf2 →
  (∀ p : nat, idx * width ≤ Z.of_nat p < (idx + 1) * width →
              buf1 !! p = buf2 !! p) →
  load width buf1 idx = load width buf2 idx.
Proof.
  intros Hw Hlen Hag. unfold load. rewrite Hlen.
  case_decide as Hr; [|reflexivity].
  f_equal. f_equal. apply list_eq. intros i.
  destruct (decide (i < Z.to_nat width)%nat) as [Hi|Hi].
  - rewrite !lookup_take_lt by lia. rewrite !lookup_drop. apply Hag. nia.
  - rewrite !lookup_take_ge by lia. reflexivity.
Qed.

Lemma store_Some width buf idx v :
  0 ≤ idx → (idx + 1) * width ≤ Z.of_nat (length buf) →
  store width buf idx v =
    Some (splice buf (Z.to_nat (idx * width)) (le_encode (Z.to_nat width) v)).
Proof. intros ??. unfold store. rewrite decide_True; auto. Qed.

Lemma store_inv width buf idx v buf' :
  store width buf idx v = Some buf' →
  0 ≤ idx ∧ (idx + 1) * width ≤ Z.of_nat (length buf) ∧
  buf' = splice buf (Z.to_nat (idx * width)) (le_encode (Z.to_nat width) v).
Proof. unfold store. case_decide; intros [= <-]; intuition. Qed.

Lemma length_store width buf idx v buf' :
  0 < width → store width buf idx v = Some buf' → length buf' = length buf.
Proof.
  intros Hw (Hi & Hr & ->)%store_inv.
  apply length_splice. rewrite length_le_encode. nia.
Qed.

Lemma load_store_eq width buf idx v buf' :
  0 < width → store width buf idx v = Some buf' →
  load width buf' idx = Some (v mod 256 ^ width).
Proof.
  intros Hw Hst. pose proof (length_store _ _ _ _ _ Hw Hst) as Hlen.
  apply store_inv in Hst as (Hi & Hr & ->).
  unfold load. rewrite Hlen, decide_True by auto.
  rewrite drop_splice by nia.
  rewrite take_app_length' by (rewrite length_le_encode; lia).
  rewrite le_decode_encode. do 3 f_equal. lia.
Qed.

Lemma load_store_ne width buf idx idx' v buf' :
  0 < width → store width buf idx v = Some buf' → idx' ≠ idx →
  load width buf' idx' = load width buf idx'.
Proof.
  intros Hw Hst Hne. pose proof (length_store _ _ _ _ _ Hw Hst) as Hlen.
  apply store_inv in Hst as (Hi & Hr & ->).
  apply load_ext; auto. intros p Hp.
  destruct (decide (idx' < idx)) as [Hlt|Hge].
  - apply lookup_splice_lt; nia.
  - apply lookup_splice_ge; [nia|]. rewrite length_le_encode. nia.
Qed.

Lemma store_bytes_ok width buf idx v buf' :
  bytes_ok buf → store width buf idx v = Some buf' → bytes_ok buf'.
Proof.
  intros Hb (_ & _ & ->)%store_inv.
  apply splice_bytes_ok; auto using le_encode_bytes_ok.
Qed.

Lemma load_bound width buf idx v :
  0 < width → bytes_ok buf → load width buf idx = Some v →
  0 ≤ v < 256 ^ width.
Proof.
  intros Hw Hb. unfold load. case_decide as Hr; [|discriminate].
  intros [= <-].
  set (bs := take _ _).
  assert (length bs = Z.to_nat width) as Hl.
  { unfold bs. rewrite length_take, length_drop. nia. }
  assert (bytes_ok bs) as Hbs by (apply Forall_take, Forall_drop, Hb).
  pose proof (le_decode_bound bs Hbs) as Hd. rewrite Hl in Hd.
  rewrite Z2Nat.id in Hd by lia. exact Hd.
Qed.

(** ** Sinks that do not record *)

Implicit Types (cfg : config) (s : state) (kc : kcov).

Lemma check_kcov_mode_false in_task needed t :
  in_task = false ∨ ts_kcov_mode t ≠ needed →
  check_kcov_mode in_task needed t = false.
Proof.
  unfold check_kcov_mode. intros [-> | Hne]; [reflexivity|].
  destruct in_task; simpl; [|reflexivity]. by rewrite bool_decide_eq_false.
Qed.

Lemma trace_pc_off cfg in_task cur ip s t :
  tasks s !! cur = Some t →
  check_kcov_mode in_task KCOV_MODE_TRACE_PC t = false →
  __sanitizer_cov_trace_pc cfg in_task cur ip s = Some s.
Proof.
  intros Ht Hoff. unfold __sanitizer_cov_trace_pc.
  rewrite Ht. simpl. rewrite Hoff. reflexivity.
Qed.

Lemma write_comp_data_off cfg in_task cur type arg1 arg2 ip s t :
  tasks s !! cur = Some t →
  check_kcov_mode in_task KCOV_MODE_TRACE_CMP t = false →
  write_comp_data cfg in_task cur type arg1 arg2 ip s = Some s.
Proof.
  intros Ht Hoff. unfold write_comp_data.
  rewrite Ht. simpl. rewrite Hoff. reflexivity.
Qed.

Lemma trace_switch_loop_off cfg in_task cur type val cases ip s t n i :
  tasks s !! cur = Some t →
  check_kcov_mode in_task KCOV_MODE_TRACE_CMP t = false →
  0 ≤ i → i + Z.of_nat n + 2 ≤ Z.of_nat (length cases) →
  trace_switch_loop cfg in_task cur type val cases ip n i s = Some s.
Proof.
  intros Ht Hoff. revert i. induction n as [|n IH]; intros i Hi Hlen.
  - reflexivity.
  - cbn [trace_switch_loop].
    destruct (lookup_lt_is_Some_2 cases (Z.to_nat (i + 2))) as [c ->]; [lia|].
    simpl. rewrite (write_comp_data_off _ _ _ _ _ _ _ _ _ Ht Hoff). simpl.
    apply IH; lia.
Qed.

Lemma trace_switch_off cfg in_task cur val cases ip s t :
  tasks s !! cur = Some t →
  check_kcov_mode in_task KCOV_MODE_TRACE_CMP t = false →
  switch_table_ok cases →
  __sanitizer_cov_trace_switch cfg in_task cur val cases ip s = Some s.
Proof.
  intros Ht Hoff Hok.
  destruct cases as [|count [|size labels]]; try contradiction.
  unfold __sanitizer_cov_trace_switch. simpl in *.
  repeat case_decide; try reflexivity;
    apply (trace_switch_loop_off _ _ _ _ _ _ _ _ _ _ _ Ht Hoff);
    simpl; lia.
Qed.

(** C9. A sink called outside task context, or on a task whose mode word
    is not the mode the sink implements, returns with the whole state as it
    was: no area is written, and none is read either, since the call
    succeeds whatever the task's area pointer refers to. *)
Theorem sink_without_mode_is_noop cfg in_task cur c s t :
  tasks s !! cur = Some t →
  sink_call_ok c →
  in_task = false ∨ ts_kcov_mode t ≠ sink_mode c →
  run_sink cfg in_task cur c s = Some s.
Proof.
  intros Ht Hok Hoff.
  destruct c; simpl in *;
    pose proof (check_kcov_mode_false _ _ _ Hoff) as Hc;
    eauto using trace_pc_off, write_comp_data_off, trace_switch_off.
Qed.

Lemma sink_without_mode_is_noop_witness :
  run_sink lp64_config false 1 (trace_pc 5000) (enabled_state lp64_config 4 0)
    = Some (enabled_state lp64_config 4 0)
  ∧ run_sink lp64_config true 1 (trace_switch 3 [2; 32; 10; 11] 5000)
      (enabled_state lp64_config 4 0)
    = Some (enabled_state lp64_config 4 0).
Proof.
  split.
  - eapply sink_without_mode_is_noop;
      [vm_compute; reflexivity | exact I | left; reflexivity].
  - eapply sink_without_mode_is_noop;
      [vm_compute; reflexivity | simpl; lia | right; simpl; discriminate].
Defined.

(** ** The control plane: argument checks *)

Lemma vfree_fresh s bytes :
  vfree (Some (fresh (dom (vmem s))))
        (set_vmem <[fresh (dom (vmem s)) := bytes]> s) = s.
Proof.
  destruct s as [ks ts vm rm ra]. unfold vfree, set_vmem. simpl. f_equal.
  apply delete_insert_id, not_elem_of_dom, is_fresh.
Qed.

Lemma kcov_get_mode_cases cfg arg :
  (arg = KCOV_TRACE_PC ∧ kcov_get_mode cfg arg = kcov_mode_val KCOV_MODE_TRACE_PC)
  ∨ (arg = KCOV_TRACE_CMP ∧ CONFIG_KCOV_ENABLE_COMPARISONS cfg = true
     ∧ kcov_get_mode cfg arg = kcov_mode_val KCOV_MODE_TRACE_CMP)
  ∨ (arg = KCOV_TRACE_CMP ∧ CONFIG_KCOV_ENABLE_COMPARISONS cfg = false
     ∧ kcov_get_mode cfg arg = - ENOTSUPP)
  ∨ (arg ≠ KCOV_TRACE_PC ∧ arg ≠ KCOV_TRACE_CMP
     ∧ kcov_get_mode cfg arg = - EINVAL).
Proof.
  unfold kcov_get_mode. repeat case_decide; subst; auto 10.
  destruct (CONFIG_KCOV_ENABLE_COMPARISONS cfg); auto 10.
Qed.

(** C10, as amended. ENABLE and REMOTE_ENABLE on a descriptor in INIT with
    an area and no owner, called by a task that is itself attached to no
    descriptor, with a trace mode other than PC: the call returns -EINVAL
    when the mode is not CMP either, and -ENOTSUPP when it is CMP and
    comparison tracing is compiled out; in both cases the state (descriptor,
    registry, task) is the state before the call. *)
Theorem enable_rejects_bad_mode cfg cur k cmd arg rarg ok s kc t m :
  kcovs s !! k = Some kc → tasks s !! cur = Some t →
  k_mode kc = KCOV_MODE_INIT → k_area kc ≠ None → k_t kc = None →
  ts_kcov t = None →
  (cmd = KCOV_ENABLE ∧ m = arg)
  ∨ (cmd = KCOV_REMOTE_ENABLE ∧ m = trace_mode rarg) →
  m ≠ KCOV_TRACE_PC →
  (m ≠ KCOV_TRACE_CMP →
   kcov_ioctl_locked cfg cur k cmd arg rarg ok s = Some (- EINVAL, s))
  ∧ (m = KCOV_TRACE_CMP → CONFIG_KCOV_ENABLE_COMPARISONS cfg = false →
     kcov_ioctl_locked cfg cur k cmd arg rarg ok s = Some (- ENOTSUPP, s)).
Proof.
  intros Hk Ht Hmode Harea Hown Hatt Hcmd Hpc.
  assert (∀ r, kcov_get_mode cfg m = r → r < 0 →
               kcov_ioctl_locked cfg cur k cmd arg rarg ok s = Some (r, s))
    as Hrun.
  { intros r Hr Hneg. unfold kcov_ioctl_locked. rewrite Hk. simpl.
    destruct Hcmd as [[-> ->] | [-> ->]];
      (rewrite decide_False by (intros [?|?]; congruence));
      rewrite Ht; simpl;
      (rewrite decide_False by (intros [?|?]; congruence));
      rewrite Hr, decide_True by done; reflexivity. }
  destruct (kcov_get_mode_cases cfg m)
    as [[? _] | [(-> & Hc & _) | [(-> & Hc & Hr) | (_ & Hn & Hr)]]];
    [done | | |].
  - split; [done | congruence].
  - split; [done | intros _ _; apply Hrun; [done | unfold ENOTSUPP; lia]].
  - split; [intros _; apply Hrun; [done | unfold EINVAL; lia] | done].
Qed.

Lemma enable_rejects_bad_mode_witness :
  kcov_ioctl_locked lp64_config 1 0 KCOV_ENABLE 7 no_remote_arg always_ok
      (mapped_state lp64_config 4)
    = Some (- EINVAL, mapped_state lp64_config 4)
  ∧ kcov_ioctl_locked ilp32_config 1 0 KCOV_REMOTE_ENABLE 0
      (remote_arg_of 1 4 [7]) always_ok (mapped_state ilp32_config 4)
    = Some (- ENOTSUPP, mapped_state ilp32_config 4).
Proof.
  split.
  - eapply (enable_rejects_bad_mode lp64_config 1 0 KCOV_ENABLE 7 _ _ _ _ _ 7);
      [vm_compute; reflexivity | vm_compute; reflexivity | reflexivity
      | discriminate | reflexivity | reflexivity | left; done
      | discriminate | discriminate].
  - eapply (enable_rejects_bad_mode ilp32_config 1 0 KCOV_REMOTE_ENABLE 0
              (remote_arg_of 1 4 [7]) _ _ _ _ 1);
      [vm_compute; reflexivity | vm_compute; reflexivity | reflexivity
      | discriminate | reflexivity | reflexivity | right; done
      | discriminate | reflexivity | reflexivity].
Defined.

(** C10 as stated fails when the calling task is attached to another
    descriptor: descriptor 1 is in INIT with an area and no owner, the mode
    argument 7 is neither PC nor CMP, and the call returns -EBUSY. *)
Lemma enable_bad_mode_by_attached_task_is_busy :
  (∃ kc, kcovs (two_descriptors_state lp64_config) !! 1%nat = Some kc
         ∧ k_mode kc = KCOV_MODE_INIT ∧ k_area kc ≠ None ∧ k_t kc = None)
  ∧ kcov_ioctl_locked lp64_config 1 1 KCOV_ENABLE 7 no_remote_arg always_ok
      (two_descriptors_state lp64_config)
    = Some (- EBUSY, two_descriptors_state lp64_config)
  ∧ - EBUSY ≠ - EINVAL.
Proof.
  split; [|split].
  - eexists. split; [vm_compute; reflexivity|]. split; [reflexivity|].
    split; [discriminate | reflexivity].
  - vm_compute. reflexivity.
  - discriminate.
Qed.

(** ** Mapping a descriptor twice *)

(** C4, as amended. Once a descriptor has an area, a further [kcov_mmap]
    leaves the whole state as it was: the attached area is neither replaced
    nor written, and the candidate region is freed again. The call returns
    -ENOMEM when the candidate cannot be allocated, -EINVAL when the
    descriptor is not in INIT, the offset is not zero or the length is not
    [size * sizeof(unsigned long)], and 0 otherwise. *)
Theorem kcov_mmap_again cfg k pgoff len ok s kc a :
  kcovs s !! k = Some kc → k_area kc = Some a →
  kcov_mmap cfg k pgoff len ok s =
    Some (if negb ok then - ENOMEM
          else if decide (k_mode kc ≠ KCOV_MODE_INIT ∨ pgoff ≠ 0
                          ∨ len ≠ ul cfg (k_size kc * word_size cfg))
               then - EINVAL else 0,
          s).
Proof.
  intros Hk Ha. unfold kcov_mmap. destruct ok; [|reflexivity].
  cbn [negb]. change (kcovs (set_vmem _ s)) with (kcovs s).
  rewrite Hk. cbn [mbind option_bind]. case_decide.
  - by rewrite vfree_fresh.
  - by rewrite Ha, vfree_fresh.
Qed.

Lemma kcov_mmap_again_witness :
  kcov_mmap lp64_config 0 0 64 true (mapped_state lp64_config 4)
    = Some (- EINVAL, mapped_state lp64_config 4).
Proof.
  assert (kcovs (mapped_state lp64_config 4) !! 0%nat = Some (mapped_kcov 4))
    as Hk by (vm_compute; reflexivity).
  exact (kcov_mmap_again lp64_config 0 0 64 true _ _ 0%nat Hk eq_refl).
Defined.

(** C4 as stated fails: a second map of the right length at offset zero on
    a descriptor still in INIT returns 0, not an error. *)
Lemma second_mmap_returns_success :
  (∃ kc, kcovs (mapped_state lp64_config 4) !! 0%nat = Some kc
         ∧ k_area kc = Some 0%nat)
  ∧ kcov_mmap lp64_config 0 0 32 true (mapped_state lp64_config 4)
    = Some (0, mapped_state lp64_config 4).
Proof.
  split; [eexists; split; [vm_compute; reflexivity | reflexivity]|].
  vm_compute. reflexivity.
Qed.

(** ** Invariants of reachable states *)

Lemma state_ok_tasks cfg f s : state_ok cfg s → state_ok cfg (set_tasks f s).
Proof. intros [? ? ?]. by constructor. Qed.

Lemma state_ok_vmem cfg f s : state_ok cfg s → state_ok cfg (set_vmem f s).
Proof. intros [? ? ?]. by constructor. Qed.

Lemma state_ok_remote_areas cfg f s :
  state_ok cfg s → state_ok cfg (set_remote_areas f s).
Proof. intros [? ? ?]. by constructor. Qed.

Lemma no_entries_unowned cfg s k :
  state_ok cfg s →
  (∀ kc, kcovs s !! k = Some kc → k_remote kc = false) →
  no_entries k s.
Proof.
  intros Hok Hk r Hr <-.
  destruct (ok_registry _ _ Hok r Hr) as (kc & Hkc & Hrem).
  specialize (Hk kc Hkc). congruence.
Qed.

Lemma state_ok_insert cfg s k kc :
  state_ok cfg s → kcov_ok cfg kc →
  k_remote kc = true ∨ no_entries k s →
  state_ok cfg (set_kcovs <[k := kc]> s).
Proof.
  intros Hok Hkc Hreg. constructor; simpl.
  - intros k' kc'. rewrite lookup_insert. case_decide.
    + by intros [= <-].
    + by apply (ok_kcovs _ _ Hok).
  - intros r Hr. rewrite lookup_insert. case_decide as Heq.
    + destruct Hreg as [Hrem | Hno]; [eauto|].
      exfalso. by apply (Hno r Hr).
    + by apply (ok_registry _ _ Hok).
  - by apply (ok_buckets _ _ Hok).
Qed.

Lemma state_ok_delete cfg s k :
  state_ok cfg s → no_entries k s → state_ok cfg (set_kcovs (delete k) s).
Proof.
  intros Hok Hno. constructor; simpl.
  - intros k' kc'. rewrite lookup_delete. case_decide; [done|].
    by apply (ok_kcovs _ _ Hok).
  - intros r Hr. rewrite lookup_delete_ne by (intros ?; by eapply Hno).
    by apply (ok_registry _ _ Hok).
  - by apply (ok_buckets _ _ Hok).
Qed.

Lemma registered_purge k s r :
  registered (set_remote_map (purge k) s) r ↔ registered s r ∧ r_kcov r ≠ k.
Proof.
  unfold registered, purge. simpl. split.
  - intros (b & l & Hl & Hr).
    apply list_lookup_fmap_Some in Hl as (l0 & -> & Hl0).
    apply list_elem_of_filter in Hr as [? ?]. eauto.
  - intros [(b & l & Hl & Hr) Hne].
    exists b, (filter (λ r, r_kcov r ≠ k) l). split.
    + rewrite list_lookup_fmap, Hl. done.
    + by apply list_elem_of_filter.
Qed.

Lemma state_ok_purge cfg k s :
  state_ok cfg s → state_ok cfg (set_remote_map (purge k) s).
Proof.
  intros Hok. constructor.
  - apply (ok_kcovs _ _ Hok).
  - intros r [Hr _]%registered_purge. by apply (ok_registry _ _ Hok).
  - simpl. unfold purge. rewrite length_fmap. apply (ok_buckets _ _ Hok).
Qed.

Lemma no_entries_purge k s : no_entries k (set_remote_map (purge k) s).
Proof. intros r [_ ?]%registered_purge. done. Qed.

Lemma registered_hash_add cfg r key s r' :
  registered (set_remote_map (hash_add cfg r key) s) r' →
  r' = r ∨ registered s r'.
Proof.
  unfold registered, hash_add. simpl. intros (b & l & Hl & Hr).
  apply list_lookup_insert_Some in Hl as [(-> & <- & Hlt) | [Hne Hl]].
  - apply elem_of_cons in Hr as [-> | Hr]; [by left | right].
    destruct (kcov_remote_map s !! _) as [l|] eqn:Hl;
      simpl in Hr; [eauto | by apply elem_of_nil in Hr].
  - right. eauto.
Qed.

Lemma state_ok_hash_add cfg h k kc s :
  state_ok cfg s → kcovs s !! k = Some kc → k_remote kc = true →
  state_ok cfg
    (set_remote_map (hash_add cfg {| r_handle := h; r_kcov := k |} h) s).
Proof.
  intros Hok Hk Hrem. constructor.
  - apply (ok_kcovs _ _ Hok).
  - intros r [-> | Hr]%registered_hash_add; simpl; [eauto|].
    by apply (ok_registry _ _ Hok).
  - simpl. unfold hash_add. rewrite length_insert. apply (ok_buckets _ _ Hok).
Qed.

Lemma state_ok_ext cfg s s' :
  kcovs s' = kcovs s → kcov_remote_map s' = kcov_remote_map s →
  state_ok cfg s → state_ok cfg s'.
Proof.
  intros Hk Hm [H1 H2 H3]. constructor.
  - by rewrite Hk.
  - intros r Hr. rewrite Hk. apply H2. unfold registered in *. by rewrite <- Hm.
  - by rewrite Hm.
Qed.

(** An update of a live descriptor that keeps the invariant of the
    descriptor and does not switch remote collection off. *)
Lemma state_ok_update cfg s k kc kc' :
  state_ok cfg s → kcovs s !! k = Some kc → kcov_ok cfg kc' →
  (k_remote kc = true → k_remote kc' = true) →
  state_ok cfg (set_kcovs <[k := kc']> s).
Proof.
  intros Hok Hk Hkc' Hrem. apply state_ok_insert; auto.
  destruct (k_remote kc) eqn:Hr; [left; auto | right].
  eapply no_entries_unowned; eauto. intros kc0. rewrite Hk. by intros [= <-].
Qed.

Lemma kcov_ok_refcount cfg n kc : kcov_ok cfg kc → kcov_ok cfg (set_k_refcount n kc).
Proof. done. Qed.

Lemma kcov_get_ok cfg k s s' :
  state_ok cfg s → kcov_get k s = Some s' → state_ok cfg s'.
Proof.
  intros Hok H. unfold kcov_get in H.
  apply bind_Some in H as (kc & Hk & [= <-]).
  eapply state_ok_update; eauto.
  apply kcov_ok_refcount, (ok_kcovs _ _ Hok _ _ Hk).
Qed.

Lemma kcov_ok_reset cfg kc :
  kcov_ok cfg kc → k_mode kc ≠ KCOV_MODE_DISABLED → kcov_ok cfg (kcov_reset_k kc).
Proof. intros (H1 & H2 & H3) Hm. split_and!; simpl; try done. auto. Qed.

Lemma kcov_reset_ok cfg k s s' :
  state_ok cfg s → no_entries k s →
  (∀ kc, kcovs s !! k = Some kc → k_mode kc ≠ KCOV_MODE_DISABLED) →
  kcov_reset k s = Some s' → state_ok cfg s'.
Proof.
  intros Hok Hno Hm H. unfold kcov_reset in H.
  apply bind_Some in H as (kc & Hk & [= <-]).
  apply state_ok_insert; auto.
  apply kcov_ok_reset; [apply (ok_kcovs _ _ Hok _ _ Hk) | auto].
Qed.

Lemma kcov_remote_reset_ok cfg k s s' :
  state_ok cfg s →
  (∀ kc, kcovs s !! k = Some kc → k_mode kc ≠ KCOV_MODE_DISABLED) →
  kcov_remote_reset k s = Some s' → state_ok cfg s'.
Proof.
  intros Hok Hm H. unfold kcov_remote_reset in H.
  eapply (kcov_reset_ok cfg k (set_remote_map (purge k) s)); [| |exact Hm|exact H].
  - by apply state_ok_purge.
  - apply no_entries_purge.
Qed.

Lemma kcov_put_ok cfg k s s' :
  state_ok cfg s → kcov_put k s = Some s' → state_ok cfg s'.
Proof.
  intros Hok H. unfold kcov_put in H.
  apply bind_Some in H as (kc & Hk & H).
  case_decide as Hz.
  - apply bind_Some in H as (s1 & H1 & H).
    apply bind_Some in H as (kc1 & Hk1 & [= <-]).
    unfold kcov_remote_reset, kcov_reset in H1.
    apply bind_Some in H1 as (kc2 & Hk2 & [= <-]).
    eapply (state_ok_ext _ (set_kcovs (delete k) (set_remote_map (purge k) s))).
    + destruct (k_area kc1); simpl; by rewrite !delete_insert_eq.
    + by destruct (k_area kc1).
    + apply state_ok_delete; [by apply state_ok_purge|].
      intros r Hr. apply (no_entries_purge k s r). exact Hr.
  - injection H as <-. eapply state_ok_update; eauto.
    apply kcov_ok_refcount, (ok_kcovs _ _ Hok _ _ Hk).
Qed.

Lemma kcov_task_init_ok cfg t s s' :
  state_ok cfg s → kcov_task_init t s = Some s' → state_ok cfg s'.
Proof.
  intros Hok H. unfold kcov_task_init in H.
  apply bind_Some in H as (ts & _ & [= <-]). by apply state_ok_tasks.
Qed.

Lemma kcov_task_init_kcovs t s s' :
  kcov_task_init t s = Some s' →
  kcovs s' = kcovs s ∧ kcov_remote_map s' = kcov_remote_map s.
Proof.
  unfold kcov_task_init. intros (ts & _ & [= <-])%bind_Some. done.
Qed.

Lemma traces_not_disabled m : traces m → m ≠ KCOV_MODE_DISABLED.
Proof. intros [-> | ->]; discriminate. Qed.

(** Detaching the owner: the reset both KCOV_DISABLE and task exit do. *)
Lemma owner_reset_ok cfg k kc t s s' :
  state_ok cfg s → kcovs s !! k = Some kc → k_t kc = Some t →
  (if k_remote kc then kcov_remote_reset k s else kcov_reset k s) = Some s' →
  state_ok cfg s'.
Proof.
  intros Hok Hk Ht H.
  assert (∀ kc0, kcovs s !! k = Some kc0 → k_mode kc0 ≠ KCOV_MODE_DISABLED)
    as Hm.
  { intros kc0. rewrite Hk. intros [= <-].
    apply traces_not_disabled, (ok_kcovs _ _ Hok _ _ Hk). congruence. }
  destruct (k_remote kc) eqn:Hr.
  - eapply kcov_remote_reset_ok; eauto.
  - eapply kcov_reset_ok; eauto.
    eapply no_entries_unowned; eauto. intros kc0. rewrite Hk. by intros [= <-].
Qed.

Lemma kcov_task_exit_ok cfg t s s' :
  state_ok cfg s → kcov_task_exit t s = Some s' → state_ok cfg s'.
Proof.
  intros Hok H. unfold kcov_task_exit in H.
  apply bind_Some in H as (ts & Hts & H).
  destruct (ts_kcov ts) as [k|]; [|by injection H as <-].
  apply bind_Some in H as (kc & Hk & H).
  case_decide as Hown; [by injection H as <-|].
  apply bind_Some in H as (s1 & H1 & H).
  apply bind_Some in H as (s2 & H2 & H).
  destruct (kcov_task_init_kcovs _ _ _ H1) as [Hks Hms].
  eapply kcov_put_ok; [|exact H].
  eapply owner_reset_ok; [eapply kcov_task_init_ok; eauto | | exact Hown | exact H2].
  by rewrite Hks.
Qed.

Lemma kcov_open_ok cfg ok s r s' :
  state_ok cfg s → kcov_open ok s = Some (r, s') → state_ok cfg s'.
Proof.
  intros Hok H. unfold kcov_open in H.
  destruct ok; simpl in H; injection H as <- <-; [|done].
  apply state_ok_insert; auto.
  - split_and!; simpl; done.
  - right. eapply no_entries_unowned; eauto. intros kc Hk.
    apply elem_of_dom_2 in Hk. by apply is_fresh in Hk.
Qed.

Lemma kcov_close_ok cfg k s r s' :
  state_ok cfg s → kcov_close k s = Some (r, s') → state_ok cfg s'.
Proof.
  intros Hok H. unfold kcov_close in H.
  apply bind_Some in H as (s1 & H1 & [= <- <-]). by eapply kcov_put_ok.
Qed.

Lemma kcov_mmap_ok cfg k pgoff len ok s r s' :
  state_ok cfg s → kcov_mmap cfg k pgoff len ok s = Some (r, s') →
  state_ok cfg s'.
Proof.
  intros Hok H. unfold kcov_mmap in H.
  destruct ok; simpl in H; [|by injection H as <- <-].
  apply bind_Some in H as (kc & Hk & H).
  case_decide; [injection H as <- <-; by do 2 apply state_ok_vmem|].
  destruct (k_area kc); injection H as <- <-.
  - by do 2 apply state_ok_vmem.
  - eapply (state_ok_update _ _ _ kc); [by apply state_ok_vmem | done | | done].
    apply (ok_kcovs _ _ Hok _ _ Hk).
Qed.

Lemma kcov_start_kcovs t size area mode seq s s' :
  kcov_start t size area mode seq s = Some s' →
  kcovs s' = kcovs s ∧ kcov_remote_map s' = kcov_remote_map s.
Proof. unfold kcov_start. intros (ts & _ & [= <-])%bind_Some. done. Qed.

Lemma kcov_stop_kcovs t s s' :
  kcov_stop t s = Some s' →
  kcovs s' = kcovs s ∧ kcov_remote_map s' = kcov_remote_map s.
Proof. unfold kcov_stop. intros (ts & _ & [= <-])%bind_Some. done. Qed.

Lemma kcov_get_mode_traces cfg arg :
  ¬ kcov_get_mode cfg arg < 0 →
  traces (kcov_mode_of_val (kcov_get_mode cfg arg)).
Proof.
  unfold kcov_get_mode, traces. intros Hm.
  repeat case_decide; [by left | | by (unfold EINVAL in Hm; lia)].
  destruct (CONFIG_KCOV_ENABLE_COMPARISONS cfg);
    [by right | by (unfold ENOTSUPP in Hm; lia)].
Qed.

Lemma remote_enable_loop_ok cfg k rarg ok n i s r s' kc :
  state_ok cfg s → kcovs s !! k = Some kc → k_remote kc = true →
  k_mode kc ≠ KCOV_MODE_DISABLED →
  remote_enable_loop cfg k rarg ok n i s = Some (r, s') → state_ok cfg s'.
Proof.
  revert i s. induction n as [|n IH]; intros i s Hok Hk Hrem Hm H;
    cbn [remote_enable_loop] in H.
  - apply bind_Some in H as (s1 & H1 & [= <- <-]). by eapply kcov_get_ok.
  - apply bind_Some in H as (h & Hh & H).
    assert (∀ kc0, kcovs s !! k = Some kc0 → k_mode kc0 ≠ KCOV_MODE_DISABLED)
      as Hm' by (intros kc0; rewrite Hk; by intros [= <-]).
    destruct (kcov_remote_find cfg s h).
    { apply bind_Some in H as (s1 & H1 & [= <- <-]).
      by eapply kcov_remote_reset_ok. }
    destruct (ok i); simpl in H.
    + eapply IH; [| | | |exact H]; eauto using state_ok_hash_add.
    + apply bind_Some in H as (s1 & H1 & [= <- <-]).
      by eapply kcov_remote_reset_ok.
Qed.

Lemma kcov_ioctl_locked_ok cfg cur k cmd arg rarg ok s r s' :
  state_ok cfg s →
  kcov_ioctl_locked cfg cur k cmd arg rarg ok s = Some (r, s') →
  state_ok cfg s'.
Proof.
  intros Hok H. unfold kcov_ioctl_locked in H.
  apply bind_Some in H as (kc & Hk & H).
  pose proof (ok_kcovs _ _ Hok _ _ Hk) as (Hk1 & Hk2 & Hk3).
  destruct cmd.
  - (* KCOV_INIT_TRACE *)
    case_decide as Hm; [by injection H as <- <-|].
    case_decide as Hsz; [by injection H as <- <-|].
    injection H as <- <-.
    assert (uint arg = arg) as ->.
    { unfold uint, wrap. apply Z.mod_small. split; [lia|].
      assert (INT_MAX / word_size cfg ≤ INT_MAX); [|unfold INT_MAX in *; lia].
      apply Z.div_le_upper_bound;
        unfold word_size, INT_MAX; destruct (cfg_abi cfg); simpl; lia. }
    eapply state_ok_update; eauto.
    + split_and!; simpl; [auto | auto | intros _; unfold word_size in Hsz; lia].
      intros Ht. specialize (Hk1 Ht). rewrite Hm in Hk1.
      destruct Hk1; discriminate.
  - (* KCOV_ENABLE *)
    case_decide as Hm; [by injection H as <- <-|].
    apply bind_Some in H as (ts & Hts & H).
    case_decide as Hb; [by injection H as <- <-|].
    case_decide as Hneg; [by injection H as <- <-|].
    apply bind_Some in H as (s1 & H1 & H).
    apply bind_Some in H as (ts1 & Hts1 & H).
    apply bind_Some in H as (s2 & H2 & [= <- <-]).
    eapply kcov_get_ok; [|exact H2].
    destruct (kcov_start_kcovs _ _ _ _ _ _ _ H1) as [Hks Hms].
    assert (k_mode kc ≠ KCOV_MODE_DISABLED) as Hnd by (intros E; apply Hm; left; congruence).
    eapply (state_ok_insert cfg (set_tasks _ s1)).
    + apply state_ok_tasks. eapply state_ok_ext; [exact Hks | exact Hms |].
      eapply state_ok_update; eauto.
      split_and!; simpl; auto.
      intros _. by apply kcov_get_mode_traces.
    + split_and!; simpl; auto.
      intros _. by apply kcov_get_mode_traces.
    + right. intros r0 (b & l & Hl & Hr0). simpl in Hl. rewrite Hms in Hl. simpl in Hl.
      eapply no_entries_unowned; [exact Hok | | exists b, l; eauto].
      intros kc0. rewrite Hk. intros [= <-].
      destruct (k_remote kc) eqn:E; [|done]. exfalso. apply Hb. left. auto.
  - (* KCOV_DISABLE *)
    apply bind_Some in H as (ts & Hts & H).
    case_decide as Ha; [by injection H as <- <-|].
    case_decide as Hown; [by injection H as <- <-|].
    apply bind_Some in H as (s1 & H1 & H).
    apply bind_Some in H as (s2 & H2 & H).
    apply bind_Some in H as (s3 & H3 & [= <- <-]).
    destruct (kcov_task_init_kcovs _ _ _ H1) as [Hks Hms].
    eapply kcov_put_ok; [|exact H3].
    eapply owner_reset_ok;
      [eapply kcov_task_init_ok; eauto | by rewrite Hks | exact Hown | exact H2].
  - (* KCOV_REMOTE_ENABLE *)
    case_decide as Hm; [by injection H as <- <-|].
    apply bind_Some in H as (ts & Hts & H).
    case_decide as Hb; [by injection H as <- <-|].
    case_decide as Hneg; [by injection H as <- <-|].
    assert (k_mode kc ≠ KCOV_MODE_DISABLED) as Hnd by (intros E; apply Hm; left; congruence).
    eapply remote_enable_loop_ok; [| | | |exact H].
    + eapply (state_ok_insert cfg (set_tasks _ s)); [by apply state_ok_tasks | |by left].
      split_and!; simpl; auto.
      intros _. by apply kcov_get_mode_traces.
    + simpl. apply lookup_insert_eq.
    + done.
    + simpl. apply traces_not_disabled. by apply kcov_get_mode_traces.
  - by injection H as <- <-.
Qed.

Lemma kcov_ioctl_ok cfg cur k cmd arg uarg ok s r s' :
  state_ok cfg s → kcov_ioctl cfg cur k cmd arg uarg ok s = Some (r, s') →
  state_ok cfg s'.
Proof.
  intros Hok H. unfold kcov_ioctl in H.
  repeat case_decide; try (by injection H as <- <-);
    by eapply kcov_ioctl_locked_ok.
Qed.

(** A sink writes at most the area the calling task points to. *)
Lemma trace_pc_frame cfg in_task cur ip s s' ts :
  tasks s !! cur = Some ts →
  __sanitizer_cov_trace_pc cfg in_task cur ip s = Some s' →
  s' = s ∨ ∃ a buf, ts_kcov_area ts = Some a ∧ s' = set_vmem <[a := buf]> s.
Proof.
  intros Hts H. unfold __sanitizer_cov_trace_pc in H.
  rewrite Hts in H. simpl in H.
  destruct (check_kcov_mode _ _ _); simpl in H; [|left; congruence].
  apply bind_Some in H as (a & Ha & H).
  apply bind_Some in H as (buf & Hbuf & H).
  apply bind_Some in H as (count & Hc & H).
  case_decide; [|left; congruence].
  apply bind_Some in H as (b1 & _ & H).
  apply bind_Some in H as (b2 & _ & [= <-]). right. eauto.
Qed.

Lemma write_comp_data_frame cfg in_task cur type arg1 arg2 ip s s' ts :
  tasks s !! cur = Some ts →
  write_comp_data cfg in_task cur type arg1 arg2 ip s = Some s' →
  s' = s ∨ ∃ a buf, ts_kcov_area ts = Some a ∧ s' = set_vmem <[a := buf]> s.
Proof.
  intros Hts H. unfold write_comp_data in H.
  rewrite Hts in H. simpl in H.
  destruct (check_kcov_mode _ _ _); simpl in H; [|left; congruence].
  apply bind_Some in H as (a & Ha & H).
  apply bind_Some in H as (buf & Hbuf & H).
  apply bind_Some in H as (count & Hc & H).
  case_decide; [|left; congruence].
  apply bind_Some in H as (b1 & _ & H).
  apply bind_Some in H as (b2 & _ & H).
  apply bind_Some in H as (b3 & _ & H).
  apply bind_Some in H as (b4 & _ & H).
  apply bind_Some in H as (b5 & _ & [= <-]). right. eauto.
Qed.

Lemma set_vmem_insert_twice a buf buf' s :
  set_vmem <[a := buf']> (set_vmem <[a := buf]> s) = set_vmem <[a := buf']> s.
Proof. unfold set_vmem. simpl. by rewrite insert_insert_eq. Qed.

Lemma trace_switch_loop_frame cfg in_task cur type val cases ip n i s s' ts :
  tasks s !! cur = Some ts →
  trace_switch_loop cfg in_task cur type val cases ip n i s = Some s' →
  s' = s ∨ ∃ a buf, ts_kcov_area ts = Some a ∧ s' = set_vmem <[a := buf]> s.
Proof.
  revert i s. induction n as [|n IH]; intros i s Hts H;
    cbn [trace_switch_loop] in H.
  - left. congruence.
  - apply bind_Some in H as (c & _ & H).
    apply bind_Some in H as (s1 & H1 & H).
    destruct (write_comp_data_frame _ _ _ _ _ _ _ _ _ _ Hts H1)
      as [-> | (a & buf & Ha & ->)]; [eauto|].
    destruct (IH _ (set_vmem <[a := buf]> s) Hts H)
      as [-> | (a' & buf' & Ha' & ->)]; [eauto|].
    right. exists a', buf'. split; [done|].
    assert (a' = a) as -> by congruence. apply set_vmem_insert_twice.
Qed.

Lemma run_sink_frame cfg in_task cur c s s' ts :
  tasks s !! cur = Some ts →
  run_sink cfg in_task cur c s = Some s' →
  s' = s ∨ ∃ a buf, ts_kcov_area ts = Some a ∧ s' = set_vmem <[a := buf]> s.
Proof.
  intros Hts H. destruct c; simpl in H;
    eauto using trace_pc_frame, write_comp_data_frame.
  unfold __sanitizer_cov_trace_switch in H.
  apply bind_Some in H as (count & _ & H).
  apply bind_Some in H as (size & _ & H).
  repeat case_decide; eauto using trace_switch_loop_frame.
  left. congruence.
Qed.

Lemma run_sink_ok cfg in_task cur c s s' :
  state_ok cfg s → run_sink cfg in_task cur c s = Some s' → state_ok cfg s'.
Proof.
  intros Hok H. destruct (tasks s !! cur) as [ts|] eqn:Hts.
  - destruct (run_sink_frame _ _ _ _ _ _ _ Hts H) as [-> | (a & buf & _ & ->)];
      [done | by apply state_ok_vmem].
  - destruct c; simpl in H;
      unfold __sanitizer_cov_trace_pc, write_comp_data,
        __sanitizer_cov_trace_switch in H;
      try (rewrite Hts in H; discriminate).
    apply bind_Some in H as (count & _ & H).
    apply bind_Some in H as (size & _ & H).
    assert (∀ type n i, trace_switch_loop cfg in_task cur type val cases ret_ip n i s
                        = Some s' → s' = s) as Hloop.
    { intros type [|n] i Hl; cbn [trace_switch_loop] in Hl; [congruence|].
      apply bind_Some in Hl as (c & _ & Hl).
      apply bind_Some in Hl as (s1 & H1 & _).
      unfold write_comp_data in H1. rewrite Hts in H1. discriminate. }
    repeat case_decide; try (apply Hloop in H as ->; done).
    congruence.
Qed.

Lemma kcov_move_area_at_frame cfg mode dst size src s s' :
  kcov_move_area_at cfg mode dst size src s = Some s' →
  s' = s ∨ ∃ d buf, dst = Some d ∧ s' = set_vmem <[d := buf]> s.
Proof.
  intros H. unfold kcov_move_area_at in H.
  destruct mode; try (left; congruence);
    apply bind_Some in H as (d & -> & H);
    apply bind_Some in H as (b & _ & H);
    apply bind_Some in H as (b1 & _ & H);
    apply bind_Some in H as (b2 & _ & [= <-]); right; eauto.
Qed.

Lemma kcov_remote_start_ok cfg in_task cur h res s s' :
  state_ok cfg s → kcov_remote_start cfg in_task cur h res s = Some s' →
  state_ok cfg s'.
Proof.
  intros Hok H. unfold kcov_remote_start in H.
  destruct in_task; simpl in H; [|congruence].
  apply bind_Some in H as (ts & Hts & H).
  case_decide; [congruence|].
  destruct (kcov_remote_find cfg s h) as [r|]; [|congruence].
  apply bind_Some in H as (s1 & H1 & H).
  apply bind_Some in H as (kc & Hk & H).
  apply (kcov_get_ok cfg) in H1; [|done].
  apply (state_ok_tasks cfg <[cur := set_ts_kcov (Some (r_kcov r)) ts]>) in H1.
  set (s2 := set_tasks _ s1) in *.
  assert (∀ a s3 s4, state_ok cfg s3 →
            (buf ← vmem s3 !! a; buf ← store sizeof_u64 buf 0 0;
             kcov_start cur (k_remote_size kc) (Some a) (k_mode kc)
               (k_sequence kc) (set_vmem <[a := buf]> s3)) = Some s4 →
            state_ok cfg s4) as Hpub.
  { intros a s3 s4 H3 Hp.
    apply bind_Some in Hp as (b & _ & Hp).
    apply bind_Some in Hp as (b' & _ & Hp).
    destruct (kcov_start_kcovs _ _ _ _ _ _ _ Hp) as [Hks Hms].
    eapply state_ok_ext; [exact Hks | exact Hms | by apply state_ok_vmem]. }
  destruct (kcov_remote_area_get _ _) as [[a rest]|].
  - eapply Hpub; [|exact H]. by apply state_ok_remote_areas.
  - destruct res as [bytes|].
    + eapply Hpub; [|exact H]. by apply state_ok_vmem.
    + by eapply kcov_put_ok.
Qed.

Lemma kcov_remote_stop_ok cfg cur s s' :
  state_ok cfg s → kcov_remote_stop cfg cur s = Some s' → state_ok cfg s'.
Proof.
  intros Hok H. unfold kcov_remote_stop in H.
  apply bind_Some in H as (ts & Hts & H).
  destruct (ts_kcov ts) as [k|]; [|congruence].
  apply bind_Some in H as (s1 & H1 & H).
  apply bind_Some in H as (ts1 & Hts1 & H).
  apply bind_Some in H as (kc & Hk & H).
  apply bind_Some in H as (s2 & H2 & H).
  apply bind_Some in H as (a & Ha & H).
  eapply kcov_put_ok; [|exact H]. apply state_ok_remote_areas.
  destruct (kcov_stop_kcovs _ _ _ H1) as [Hks Hms].
  assert (state_ok cfg (set_tasks <[cur := set_ts_kcov None ts1]> s1)) as Hok1.
  { apply state_ok_tasks. eapply state_ok_ext; eauto. }
  case_decide; [|congruence].
  destruct (k_remote kc); [|congruence].
  destruct (kcov_move_area_at_frame _ _ _ _ _ _ _ H2) as [-> | (d & b & _ & ->)];
    [done | by apply state_ok_vmem].
Qed.

Lemma boot_ok cfg : state_ok cfg boot.
Proof.
  constructor.
  - intros k kc. simpl. by rewrite lookup_empty.
  - intros r (b & l & Hl & Hr).
    change (replicate HASH_SIZE [] !! b = Some l) in Hl.
    apply lookup_replicate in Hl as [-> _]. by apply elem_of_nil in Hr.
  - reflexivity.
Qed.

Lemma step_ok cfg e s s' :
  state_ok cfg s → step cfg e s = Some s' → state_ok cfg s'.
Proof.
  intros Hok H. destruct e; simpl in H.
  - destruct (tasks s !! t); [discriminate|]. injection H as <-.
    by apply state_ok_tasks.
  - by eapply kcov_task_exit_ok.
  - apply fmap_Some in H as ([r s1] & H & ->). by eapply kcov_open_ok.
  - apply fmap_Some in H as ([r s1] & H & ->). by eapply kcov_close_ok.
  - apply fmap_Some in H as ([r s1] & H & ->). by eapply kcov_mmap_ok.
  - apply fmap_Some in H as ([r s1] & H & ->). by eapply kcov_ioctl_ok.
  - by eapply run_sink_ok.
  - by eapply kcov_remote_start_ok.
  - by eapply kcov_remote_stop_ok.
  - unfold user_store in H.
    apply bind_Some in H as (kc & _ & H).
    apply bind_Some in H as (a & _ & H).
    apply bind_Some in H as (b & _ & H).
    apply bind_Some in H as (b' & _ & [= <-]). by apply state_ok_vmem.
Qed.

Lemma run_ok cfg es s s' :
  state_ok cfg s → run cfg es s = Some s' → state_ok cfg s'.
Proof.
  revert s. induction es as [|e es IH]; intros s Hok H; simpl in H.
  - congruence.
  - apply bind_Some in H as (s1 & H1 & H). eauto using step_ok.
Qed.

Lemma reachable_ok cfg s : reachable cfg s → state_ok cfg s.
Proof. intros [es H]. eapply run_ok; [apply boot_ok | exact H]. Qed.

(** ** One owner per descriptor, one descriptor per task *)

Lemma enable_success cfg cur k arg rarg ok s s' kc ts :
  kcovs s !! k = Some kc → tasks s !! cur = Some ts →
  kcov_ioctl_locked cfg cur k KCOV_ENABLE arg rarg ok s = Some (0, s') →
  k_t kc = None ∧ ts_kcov ts = None
  ∧ (∃ kc', kcovs s' !! k = Some kc' ∧ k_t kc' = Some cur)
  ∧ (∃ ts', tasks s' !! cur = Some ts' ∧ ts_kcov ts' = Some k).
Proof.
  intros Hk Hts H. unfold kcov_ioctl_locked in H.
  rewrite Hk in H. cbn [mbind option_bind] in H.
  case_decide as Hm; [discriminate|].
  rewrite Hts in H. cbn [mbind option_bind] in H.
  case_decide as Hb; [discriminate|].
  case_decide as Hneg; [injection H as E _; lia|].
  apply bind_Some in H as (s1 & H1 & H).
  apply bind_Some in H as (ts1 & Hts1 & H).
  apply bind_Some in H as (s2 & H2 & [= <-]).
  unfold kcov_get in H2. apply bind_Some in H2 as (kc2 & Hk2 & [= <-]).
  simpl in Hk2. rewrite lookup_insert_eq in Hk2. injection Hk2 as <-.
  split_and!.
  - destruct (k_t kc); [exfalso; apply Hb; left; done | done].
  - destruct (ts_kcov ts); [exfalso; apply Hb; right; done | done].
  - eexists. simpl. rewrite lookup_insert_eq. done.
  - eexists. simpl. rewrite lookup_insert_eq. done.
Qed.

(** C6, as amended. In every reachable state a descriptor has an owner only
    while it traces; KCOV_ENABLE on a descriptor that has an owner fails
    with -EINVAL (an owned descriptor is never in INIT, so the check of the
    owner is not reached); KCOV_ENABLE on a
    descriptor in INIT with an area, by a task attached to some descriptor,
    fails with -EBUSY; both leave the state as it was. KCOV_ENABLE succeeds
    only on a descriptor without owner for a task without descriptor, which
    then own each other. *)
Theorem enable_single_owner cfg s cur k kc ts arg rarg ok :
  reachable cfg s → kcovs s !! k = Some kc → tasks s !! cur = Some ts →
  (k_t kc ≠ None → traces (k_mode kc))
  ∧ (k_t kc ≠ None →
     kcov_ioctl_locked cfg cur k KCOV_ENABLE arg rarg ok s = Some (- EINVAL, s))
  ∧ (k_mode kc = KCOV_MODE_INIT → k_area kc ≠ None → ts_kcov ts ≠ None →
     kcov_ioctl_locked cfg cur k KCOV_ENABLE arg rarg ok s = Some (- EBUSY, s))
  ∧ (∀ s', kcov_ioctl_locked cfg cur k KCOV_ENABLE arg rarg ok s = Some (0, s') →
       k_t kc = None ∧ ts_kcov ts = None
       ∧ (∃ kc', kcovs s' !! k = Some kc' ∧ k_t kc' = Some cur)
       ∧ (∃ ts', tasks s' !! cur = Some ts' ∧ ts_kcov ts' = Some k)).
Proof.
  intros Hreach Hk Hts. apply reachable_ok in Hreach.
  pose proof (ok_kcovs _ _ Hreach _ _ Hk) as (Hown & _ & _).
  split_and!.
  - exact Hown.
  - intros Ht. unfold kcov_ioctl_locked. rewrite Hk. cbn [mbind option_bind].
    rewrite decide_True; [done|]. left.
    destruct (Hown Ht) as [-> | ->]; discriminate.
  - intros Hm Ha Hatt. unfold kcov_ioctl_locked. rewrite Hk.
    cbn [mbind option_bind].
    rewrite decide_False by (intros [?|?]; congruence).
    rewrite Hts. cbn [mbind option_bind].
    rewrite decide_True; [done | by right].
  - intros s'. by apply enable_success.
Qed.

Lemma enable_single_owner_witness :
  kcov_ioctl_locked lp64_config 2 0 KCOV_ENABLE 0 no_remote_arg always_ok
      (enabled_state lp64_config 4 0)
    = Some (- EINVAL, enabled_state lp64_config 4 0)
  ∧ kcov_ioctl_locked lp64_config 1 1 KCOV_ENABLE 0 no_remote_arg always_ok
      (two_descriptors_state lp64_config)
    = Some (- EBUSY, two_descriptors_state lp64_config).
Proof.
  split.
  - eapply (enable_single_owner lp64_config (enabled_state lp64_config 4 0) 2 0).
    + exists (enabled_run lp64_config 4 0). vm_compute. reflexivity.
    + vm_compute. reflexivity.
    + vm_compute. reflexivity.
    + discriminate.
  - eapply (enable_single_owner lp64_config (two_descriptors_state lp64_config)
              1 1).
    + exists (two_descriptors_run lp64_config). vm_compute. reflexivity.
    + vm_compute. reflexivity.
    + vm_compute. reflexivity.
    + reflexivity.
    + discriminate.
    + discriminate.
Defined.

(** C6 as stated fails: descriptor 0 is owned by task 1, the state is
    reachable, and KCOV_ENABLE on it by task 2 fails with -EINVAL, not with
    -EBUSY. *)
Lemma enable_on_owned_descriptor_is_invalid :
  reachable lp64_config (enabled_state lp64_config 4 0)
  ∧ (∃ kc, kcovs (enabled_state lp64_config 4 0) !! 0%nat = Some kc
           ∧ k_t kc = Some 1%nat)
  ∧ kcov_ioctl_locked lp64_config 2 0 KCOV_ENABLE 0 no_remote_arg always_ok
      (enabled_state lp64_config 4 0)
    = Some (- EINVAL, enabled_state lp64_config 4 0)
  ∧ - EINVAL ≠ - EBUSY.
Proof.
  split_and!.
  - exists (enabled_run lp64_config 4 0). vm_compute. reflexivity.
  - eexists. split; [vm_compute; reflexivity | reflexivity].
  - vm_compute. reflexivity.
  - discriminate.
Qed.

(** ** Rolling back a failed KCOV_REMOTE_ENABLE *)

Lemma purge_hash_add cfg k h map :
  purge k (hash_add cfg {| r_handle := h; r_kcov := k |} h map) = purge k map.
Proof.
  unfold purge, hash_add. rewrite list_fmap_insert.
  rewrite filter_cons_False by (simpl; auto).
  apply list_insert_id'. rewrite length_fmap. intros Hlt.
  rewrite list_lookup_fmap.
  destruct (lookup_lt_is_Some_2 map (bucket_of cfg h) Hlt) as [l ->]. done.
Qed.

Lemma filter_keeps_all {A} (P : A → Prop) `{∀ x, Decision (P x)} (l : list A) :
  Forall P l → filter P l = l.
Proof.
  induction 1 as [|x l Hx _ IH]; [done|].
  rewrite filter_cons_True by done. by rewrite IH.
Qed.

Lemma purge_id k s :
  no_entries k s → purge k (kcov_remote_map s) = kcov_remote_map s.
Proof.
  intros Hno. unfold purge. apply list_eq. intros b.
  rewrite list_lookup_fmap.
  destruct (kcov_remote_map s !! b) as [l|] eqn:Hl; [|done]. simpl. f_equal.
  apply filter_keeps_all, list.Forall_forall. intros r Hr.
  apply Hno. by exists b, l.
Qed.

Lemma kcov_remote_reset_hash_add cfg k h s :
  kcov_remote_reset k
    (set_remote_map (hash_add cfg {| r_handle := h; r_kcov := k |} h) s)
  = kcov_remote_reset k s.
Proof.
  unfold kcov_remote_reset, set_remote_map. simpl.
  by rewrite purge_hash_add.
Qed.

(** The loop of KCOV_REMOTE_ENABLE fails exactly as a reset of the
    descriptor from the state the loop started in: the nodes inserted so
    far are all purged. *)
Lemma remote_enable_loop_failure cfg k rarg ok n i s r s' :
  remote_enable_loop cfg k rarg ok n i s = Some (r, s') → r ≠ 0 →
  (r = - EEXIST ∨ r = - ENOMEM) ∧ kcov_remote_reset k s = Some s'.
Proof.
  revert i s. induction n as [|n IH]; intros i s H Hr;
    cbn [remote_enable_loop] in H.
  - apply bind_Some in H as (s1 & _ & [= <- _]). done.
  - apply bind_Some in H as (h & _ & H).
    destruct (kcov_remote_find cfg s h).
    { apply bind_Some in H as (s1 & H1 & [= <- <-]). auto. }
    destruct (ok i); simpl in H.
    + apply IH in H as [? H]; [|done]. by rewrite kcov_remote_reset_hash_add in H.
    + apply bind_Some in H as (s1 & H1 & [= <- <-]). auto.
Qed.

(** What a failed KCOV_REMOTE_ENABLE leaves behind: the hash table and the
    areas are as before, the descriptor is back in INIT without owner and
    with its sequence bumped, but the calling task still points to the
    descriptor. *)
Lemma remote_enable_failure_state cfg cur k arg rarg ok s s' kc ts r :
  kcovs s !! k = Some kc → tasks s !! cur = Some ts →
  k_mode kc = KCOV_MODE_INIT → k_area kc ≠ None → k_t kc = None →
  ts_kcov ts = None → no_entries k s →
  kcov_ioctl_locked cfg cur k KCOV_REMOTE_ENABLE arg rarg ok s = Some (r, s') →
  r = - EEXIST ∨ r = - ENOMEM →
  kcov_remote_map s' = kcov_remote_map s
  ∧ kcov_remote_areas s' = kcov_remote_areas s
  ∧ vmem s' = vmem s
  ∧ kcovs s' = <[k := kcov_reset_k kc]> (kcovs s)
  ∧ tasks s' = <[cur := set_ts_kcov (Some k) ts]> (tasks s).
Proof.
  intros Hk Hts Hm Ha Ht Hatt Hno H Hr. unfold kcov_ioctl_locked in H.
  rewrite Hk in H. cbn [mbind option_bind] in H.
  rewrite decide_False in H by (intros [?|?]; congruence).
  rewrite Hts in H. cbn [mbind option_bind] in H.
  rewrite decide_False in H by (intros [?|?]; congruence).
  case_decide as Hneg.
  { injection H as <- <-. exfalso.
    destruct (kcov_get_mode_cases cfg (trace_mode rarg))
      as [[_ E] | [(_ & _ & E) | [(_ & _ & E) | (_ & _ & E)]]];
      rewrite E in Hr, Hneg;
      unfold EEXIST, ENOMEM, ENOTSUPP, EINVAL in *; simpl in *;
      destruct Hr; lia. }
  apply remote_enable_loop_failure in H as [_ H];
    [|destruct Hr as [-> | ->]; discriminate].
  unfold kcov_remote_reset, kcov_reset in H. simpl in H.
  rewrite lookup_insert_eq in H. simpl in H. injection H as <-. simpl.
  rewrite insert_insert_eq. split_and!; try done. by apply purge_id.
Qed.

(** In a reachable state a descriptor in INIT has no node in the hash
    table, so the rollback above restores the table as it was. *)
Lemma init_no_entries cfg s k kc :
  state_ok cfg s → kcovs s !! k = Some kc → k_mode kc = KCOV_MODE_INIT →
  no_entries k s.
Proof.
  intros Hok Hk Hm. eapply no_entries_unowned; [exact Hok|].
  intros kc0. rewrite Hk. intros [= <-].
  destruct (ok_kcovs _ _ Hok _ _ Hk) as (Hown & Hrem & _).
  destruct (k_remote kc); [|done]. exfalso.
  destruct (Hown (Hrem eq_refl)) as [E | E]; rewrite E in Hm; discriminate.
Qed.

(** C3. The code at a request that names handle 7 twice, on the freshly
    mapped descriptor 0, called by task 1: the call returns -EEXIST, the
    hash table is as before and the descriptor is back in INIT without
    owner, but task 1, unattached before the call, is left pointing to the
    descriptor, and its next KCOV_REMOTE_ENABLE (with the single handle 7)
    fails with -EBUSY. *)
Theorem remote_enable_duplicate_leaves_task_attached :
  ∃ s',
    reachable lp64_config (mapped_state lp64_config 4)
    ∧ kcov_ioctl_locked lp64_config 1 0 KCOV_REMOTE_ENABLE 0
        (remote_arg_of 0 4 [7; 7]) always_ok (mapped_state lp64_config 4)
      = Some (- EEXIST, s')
    ∧ kcov_remote_map s' = kcov_remote_map (mapped_state lp64_config 4)
    ∧ kcovs s' !! 0%nat = Some (kcov_reset_k (mapped_kcov 4))
    ∧ ts_kcov <$> tasks (mapped_state lp64_config 4) !! 1%nat = Some None
    ∧ ts_kcov <$> tasks s' !! 1%nat = Some (Some 0%nat)
    ∧ kcov_ioctl_locked lp64_config 1 0 KCOV_REMOTE_ENABLE 0
        (remote_arg_of 0 4 [7]) always_ok s'
      = Some (- EBUSY, s').
Proof.
  eexists. split; [exists (mapped_run lp64_config 4); vm_compute; reflexivity|].
  split; [vm_compute; reflexivity|].
  split_and!; vm_compute; reflexivity.
Qed.

(** ** A failed allocation in [kcov_remote_start] *)

Lemma sint_small v : - 2 ^ 31 ≤ v < 2 ^ 31 → sint v = v.
Proof. intros Hv. unfold sint. rewrite Z.mod_small by lia. lia. Qed.

(** When the handle is found, the free list has no area of the requested
    size and vmalloc fails, the reference taken on the descriptor is put
    back, and the only trace of the call is the descriptor pointer left in
    the calling task. *)
Lemma remote_start_alloc_failure_state cfg cur h s ts r kc :
  tasks s !! cur = Some ts → ts_kcov ts = None →
  kcov_remote_find cfg s h = Some r → kcovs s !! r_kcov r = Some kc →
  kcov_remote_area_get (k_remote_size kc) (kcov_remote_areas s) = None →
  0 < k_refcount kc < INT_MAX →
  kcov_remote_start cfg true cur h None s
  = Some (set_tasks <[cur := set_ts_kcov (Some (r_kcov r)) ts]> s).
Proof.
  intros Hts Hatt Hfind Hk Hget Hrc. unfold kcov_remote_start, INT_MAX in *.
  cbn [negb]. rewrite Hts. cbn [mbind option_bind].
  rewrite decide_False by (rewrite Hatt; auto).
  rewrite Hfind. unfold kcov_get. rewrite Hk. cbn [mbind option_bind].
  rewrite sint_small by lia.
  cbn [kcovs set_tasks set_kcovs]. rewrite lookup_insert_eq.
  cbn [mbind option_bind k_remote_size set_k_refcount kcov_remote_areas].
  change (kcov_remote_areas (set_tasks _ (set_kcovs _ s)))
    with (kcov_remote_areas s).
  rewrite Hget. unfold kcov_put. cbn [kcovs set_tasks set_kcovs].
  rewrite lookup_insert_eq.
  cbn [mbind option_bind k_refcount set_k_refcount].
  replace (k_refcount kc + 1 - 1) with (k_refcount kc) by lia.
  rewrite sint_small by lia. rewrite decide_False by lia.
  f_equal. unfold set_kcovs, set_tasks. simpl. f_equal.
  rewrite insert_insert_eq. apply insert_id. rewrite Hk. f_equal.
  by destruct kc.
Qed.

(** C8. The code when the handle is registered, no scratch area is free
    and vmalloc fails: task 2 calls [kcov_remote_start] for handle 7 of the
    remote-enabled descriptor 0. The reference count of the descriptor is
    what it was, but task 2, unattached before the call, is left pointing
    to the descriptor. *)
Theorem remote_start_alloc_failure_leaves_task_attached :
  ∃ s',
    reachable lp64_config (remote_state lp64_config 4 0 4 [7])
    ∧ kcov_remote_start lp64_config true 2 7 None
        (remote_state lp64_config 4 0 4 [7])
      = Some s'
    ∧ k_refcount <$> kcovs s' !! 0%nat
      = k_refcount <$> kcovs (remote_state lp64_config 4 0 4 [7]) !! 0%nat
    ∧ ts_kcov <$> tasks (remote_state lp64_config 4 0 4 [7]) !! 2%nat
      = Some None
    ∧ ts_kcov <$> tasks s' !! 2%nat = Some (Some 0%nat)
    ∧ ts_kcov_area <$> tasks s' !! 2%nat = Some None.
Proof.
  eexists. split.
  { exists (remote_run lp64_config 4 0 4 [7]). vm_compute. reflexivity. }
  split; [vm_compute; reflexivity|].
  split_and!; vm_compute; reflexivity.
Qed.

(** ** The PC sink *)

Lemma word_size_cases cfg : word_size cfg = 4 ∨ word_size cfg = 8.
Proof. unfold word_size. destruct (cfg_abi cfg); auto. Qed.

Lemma word_size_pos cfg : 0 < word_size cfg.
Proof. destruct (word_size_cases cfg); lia. Qed.

Lemma ul_range cfg v : 0 ≤ ul cfg v < 256 ^ word_size cfg.
Proof.
  unfold ul, ulong, wrap, word_size.
  destruct (cfg_abi cfg); simpl sizeof_long;
    [change (256 ^ 4) with (2 ^ (8 * 4)) | change (256 ^ 8) with (2 ^ (8 * 8))];
    apply Z.mod_pos_bound; lia.
Qed.

Lemma ul_small cfg v : 0 ≤ v < 2 ^ 32 → ul cfg v = v.
Proof.
  intros Hv. unfold ul, ulong, wrap. apply Z.mod_small.
  destruct (cfg_abi cfg); simpl; lia.
Qed.

Lemma canonicalize_ip_range cfg ip :
  0 ≤ canonicalize_ip cfg ip < 256 ^ word_size cfg.
Proof.
  unfold canonicalize_ip. destruct (CONFIG_RANDOMIZE_BASE cfg); apply ul_range.
Qed.

Lemma set_vmem_id a buf s : vmem s !! a = Some buf → set_vmem <[a := buf]> s = s.
Proof.
  intros H. destruct s. unfold set_vmem. simpl in *. f_equal. by apply insert_id.
Qed.

(** One call with room left: the PC goes to word [n + 1] and the count
    becomes [n + 1]; every other word keeps its value. *)
Lemma trace_pc_appends cfg cur ip s ts a buf n :
  tasks s !! cur = Some ts → ts_kcov_mode ts = KCOV_MODE_TRACE_PC →
  ts_kcov_area ts = Some a → vmem s !! a = Some buf →
  Z.of_nat (length buf) = ts_kcov_size ts * word_size cfg →
  ts_kcov_size ts < 2 ^ 32 →
  load (word_size cfg) buf 0 = Some n → 0 ≤ n → n + 1 < ts_kcov_size ts →
  ∃ buf',
    __sanitizer_cov_trace_pc cfg true cur ip s = Some (set_vmem <[a := buf']> s)
    ∧ length buf' = length buf
    ∧ load (word_size cfg) buf' 0 = Some (n + 1)
    ∧ load (word_size cfg) buf' (n + 1) = Some (canonicalize_ip cfg ip)
    ∧ ∀ j, j ≠ 0 → j ≠ n + 1 →
        load (word_size cfg) buf' j = load (word_size cfg) buf j.
Proof.
  intros Hts Hmode Ha Hbuf Hlen HN Hn Hn0 Hroom.
  pose proof (word_size_pos cfg) as Hw.
  unfold __sanitizer_cov_trace_pc. rewrite Hts. cbn [mbind option_bind].
  unfold check_kcov_mode. cbn [negb]. rewrite bool_decide_eq_true_2 by done.
  cbn [negb]. rewrite Ha. cbn [mbind option_bind]. rewrite Hbuf.
  cbn [mbind option_bind]. rewrite Hn. cbn [mbind option_bind].
  rewrite ul_small by lia. rewrite decide_True by done.
  destruct (store (word_size cfg) buf (n + 1) (canonicalize_ip cfg ip))
    as [buf1|] eqn:H1; [|rewrite store_Some in H1 by nia; discriminate].
  pose proof (length_store _ _ _ _ _ Hw H1) as Hl1.
  cbn [mbind option_bind].
  destruct (store (word_size cfg) buf1 0 (n + 1))
    as [buf2|] eqn:H2; [|rewrite store_Some in H2 by nia; discriminate].
  pose proof (length_store _ _ _ _ _ Hw H2) as Hl2.
  cbn [mbind option_bind]. exists buf2. split_and!.
  - done.
  - congruence.
  - rewrite (load_store_eq _ _ _ _ _ Hw H2). f_equal.
    apply Z.mod_small. destruct (word_size_cases cfg) as [-> | ->]; lia.
  - rewrite (load_store_ne _ _ _ _ _ _ Hw H2) by lia.
    rewrite (load_store_eq _ _ _ _ _ Hw H1). f_equal.
    apply Z.mod_small, canonicalize_ip_range.
  - intros j Hj0 Hj1.
    rewrite (load_store_ne _ _ _ _ _ _ Hw H2) by done.
    by rewrite (load_store_ne _ _ _ _ _ _ Hw H1) by done.
Qed.

(** One call on a full buffer: nothing changes. *)
Lemma trace_pc_drops cfg cur ip s ts a buf :
  tasks s !! cur = Some ts → ts_kcov_area ts = Some a → vmem s !! a = Some buf →
  1 ≤ ts_kcov_size ts < 2 ^ 32 →
  load (word_size cfg) buf 0 = Some (ts_kcov_size ts - 1) →
  __sanitizer_cov_trace_pc cfg true cur ip s = Some s.
Proof.
  intros Hts Ha Hbuf HN Hn.
  unfold __sanitizer_cov_trace_pc. rewrite Hts. cbn [mbind option_bind].
  destruct (check_kcov_mode _ _ _); cbn [negb]; [|done].
  rewrite Ha. cbn [mbind option_bind]. rewrite Hbuf.
  cbn [mbind option_bind]. rewrite Hn. cbn [mbind option_bind].
  rewrite ul_small by lia. by rewrite decide_False by lia.
Qed.

(** A run of calls from count [n0]: the count saturates at [N - 1], the
    PCs land in call order behind the words already there. *)
Lemma run_trace_pc cfg cur ts a ips :
  ts_kcov_mode ts = KCOV_MODE_TRACE_PC → ts_kcov_area ts = Some a →
  1 ≤ ts_kcov_size ts < 2 ^ 32 →
  ∀ s buf n0,
    tasks s !! cur = Some ts → vmem s !! a = Some buf →
    Z.of_nat (length buf) = ts_kcov_size ts * word_size cfg →
    load (word_size cfg) buf 0 = Some n0 → 0 ≤ n0 ≤ ts_kcov_size ts - 1 →
    ∃ buf',
      run_sinks cfg true cur (trace_pc <$> ips) s
        = Some (set_vmem <[a := buf']> s)
      ∧ length buf' = length buf
      ∧ load (word_size cfg) buf' 0
        = Some (Z.min (n0 + Z.of_nat (length ips)) (ts_kcov_size ts - 1))
      ∧ (∀ i : nat, n0 + Z.of_nat i < ts_kcov_size ts - 1 →
           (i < length ips)%nat →
           load (word_size cfg) buf' (n0 + 1 + Z.of_nat i)
           = canonicalize_ip cfg <$> ips !! i)
      ∧ (∀ j, 1 ≤ j ≤ n0 →
           load (word_size cfg) buf' j = load (word_size cfg) buf j).
Proof.
  intros Hmode Ha HN. induction ips as [|ip ips IH];
    intros s buf n0 Hts Hbuf Hlen Hn Hn0.
  - exists buf. cbn [fmap list_fmap run_sinks length].
    rewrite (set_vmem_id _ _ _ Hbuf). split_and!; try done.
    + rewrite Hn. f_equal. lia.
    + intros i _ Hi. simpl in Hi. lia.
  - rewrite fmap_cons. cbn [run_sinks run_sink].
    destruct (decide (n0 + 1 < ts_kcov_size ts)) as [Hroom|Hfull].
    + destruct (trace_pc_appends cfg cur ip s ts a buf n0)
        as (buf1 & -> & Hl1 & Hc1 & Hp1 & Hf1); try done; try lia.
      cbn [mbind option_bind].
      destruct (IH (set_vmem <[a := buf1]> s) buf1 (n0 + 1))
        as (buf' & Hrun & Hl' & Hc' & Hp' & Hf');
        [done | simpl; apply lookup_insert_eq | by rewrite Hl1 | done | lia |].
      exists buf'. split_and!.
      * rewrite Hrun. by rewrite set_vmem_insert_twice.
      * congruence.
      * rewrite Hc'. f_equal. simpl length. lia.
      * intros i Hi Hilen. destruct i as [|i].
        -- simpl. rewrite Z.add_0_r, Hf' by lia. done.
        -- simpl in Hilen. simpl lookup.
           rewrite <- (Hp' i) by lia. f_equal. lia.
      * intros j Hj. rewrite Hf' by lia. apply Hf1; lia.
    + assert (n0 = ts_kcov_size ts - 1) as -> by lia.
      rewrite (trace_pc_drops cfg cur ip s ts a buf) by done.
      cbn [mbind option_bind].
      destruct (IH s buf (ts_kcov_size ts - 1))
        as (buf' & Hrun & Hl' & Hc' & Hp' & Hf'); try done.
      exists buf'. split_and!; try done.
      * rewrite Hc'. f_equal. simpl length. lia.
      * intros i Hi. lia.
Qed.

(** C1. On a task in PC mode whose area of [N] words starts with count 0,
    any run of PC sink calls by the task succeeds and leaves a count of
    [min (number of calls) (N - 1)], hence never above [N - 1]; words
    [1 .. count] hold the canonicalized PCs of the first calls in call
    order; and once the count is [N - 1] a further call leaves the whole
    state, the area included, as it is. *)
Theorem trace_pc_buffer_bound cfg cur s ts a buf ips :
  tasks s !! cur = Some ts → ts_kcov_mode ts = KCOV_MODE_TRACE_PC →
  ts_kcov_area ts = Some a → vmem s !! a = Some buf →
  Z.of_nat (length buf) = ts_kcov_size ts * word_size cfg →
  1 ≤ ts_kcov_size ts < 2 ^ 32 →
  load (word_size cfg) buf 0 = Some 0 →
  ∃ buf' count,
    run_sinks cfg true cur (trace_pc <$> ips) s
      = Some (set_vmem <[a := buf']> s)
    ∧ load (word_size cfg) buf' 0 = Some count
    ∧ count = Z.min (Z.of_nat (length ips)) (ts_kcov_size ts - 1)
    ∧ count ≤ ts_kcov_size ts - 1
    ∧ (∀ i : nat, Z.of_nat i < count →
         load (word_size cfg) buf' (1 + Z.of_nat i)
         = canonicalize_ip cfg <$> ips !! i)
    ∧ (count = ts_kcov_size ts - 1 →
       ∀ ip, __sanitizer_cov_trace_pc cfg true cur ip (set_vmem <[a := buf']> s)
             = Some (set_vmem <[a := buf']> s)).
Proof.
  intros Hts Hmode Ha Hbuf Hlen HN Hc0.
  destruct (run_trace_pc cfg cur ts a ips Hmode Ha HN s buf 0)
    as (buf' & Hrun & Hl' & Hc' & Hp' & _); [done | done | done | done | lia |].
  exists buf', (Z.min (Z.of_nat (length ips)) (ts_kcov_size ts - 1)).
  split_and!; try done; try lia.
  - intros i Hi. rewrite <- Hp' by lia. f_equal.
  - intros Hfull ip.
    apply (trace_pc_drops cfg cur ip _ ts a buf'); try done.
    + simpl. apply lookup_insert_eq.
    + rewrite Hc'. f_equal. lia.
Qed.

Lemma trace_pc_buffer_bound_witness :
  ∃ buf' count,
    run_sinks lp64_config true 1 (trace_pc <$> [5000; 6000; 7000; 8000])
        (enabled_state lp64_config 4 0)
      = Some (set_vmem <[0%nat := buf']> (enabled_state lp64_config 4 0))
    ∧ load 8 buf' 0 = Some count
    ∧ count = 3
    ∧ load 8 buf' 1 = Some (5000 - 4096)
    ∧ load 8 buf' 3 = Some (7000 - 4096).
Proof.
  destruct (trace_pc_buffer_bound lp64_config 1 (enabled_state lp64_config 4 0)
              {| ts_kcov_mode := KCOV_MODE_TRACE_PC; ts_kcov_size := 4;
                 ts_kcov_area := Some 0%nat; ts_kcov := Some 0%nat;
                 ts_kcov_sequence := 1 |}
              0%nat (replicate 32 0) [5000; 6000; 7000; 8000])
    as (buf' & count & Hrun & Hc & Hcount & _ & Hp & _);
    [vm_compute; reflexivity | reflexivity | reflexivity
    | vm_compute; reflexivity | reflexivity | simpl; lia | reflexivity |].
  exists buf', count. split_and!; [exact Hrun | exact Hc | exact Hcount | |].
  - apply (Hp 0%nat). rewrite Hcount. reflexivity.
  - apply (Hp 2%nat). rewrite Hcount. reflexivity.
Defined.

(** ** The comparison sink *)

Lemma u64_small v : 0 ≤ v < 2 ^ 64 → u64 v = v.
Proof. intros Hv. unfold u64, wrap. by apply Z.mod_small. Qed.

Lemma ul_small_word cfg v : 0 ≤ v < 2 ^ (8 * word_size cfg) → ul cfg v = v.
Proof. intros Hv. unfold ul, ulong, wrap. by apply Z.mod_small. Qed.

Lemma word_pow_le cfg : 2 ^ (8 * word_size cfg) ≤ 2 ^ 64.
Proof. destruct (word_size_cases cfg) as [-> | ->]; simpl; lia. Qed.

Lemma canonicalize_ip_u64 cfg ip : 0 ≤ canonicalize_ip cfg ip < 256 ^ 8.
Proof.
  pose proof (canonicalize_ip_range cfg ip).
  destruct (word_size_cases cfg) as [E | E]; rewrite E in *; lia.
Qed.

(** One call with room for the record, as the capacity test reads over the
    integers: the four words go behind the [count] records already there
    and the count becomes [count + 1]. *)
Lemma write_comp_data_appends cfg cur type arg1 arg2 ip s ts a buf count :
  tasks s !! cur = Some ts → ts_kcov_mode ts = KCOV_MODE_TRACE_CMP →
  ts_kcov_area ts = Some a → vmem s !! a = Some buf →
  Z.of_nat (length buf) = ts_kcov_size ts * word_size cfg →
  ts_kcov_size ts * word_size cfg < 2 ^ (8 * word_size cfg) →
  load sizeof_u64 buf 0 = Some count → 0 ≤ count →
  (1 + (count + 1) * 4) * 8 ≤ ts_kcov_size ts * word_size cfg →
  ∃ buf',
    write_comp_data cfg true cur type arg1 arg2 ip s
      = Some (set_vmem <[a := buf']> s)
    ∧ length buf' = length buf
    ∧ load sizeof_u64 buf' 0 = Some (count + 1)
    ∧ load sizeof_u64 buf' (1 + 4 * count) = Some (u64 type)
    ∧ load sizeof_u64 buf' (1 + 4 * count + 1) = Some (u64 arg1)
    ∧ load sizeof_u64 buf' (1 + 4 * count + 2) = Some (u64 arg2)
    ∧ load sizeof_u64 buf' (1 + 4 * count + 3) = Some (canonicalize_ip cfg ip)
    ∧ ∀ j, j ≠ 0 → ¬ (1 + 4 * count ≤ j ≤ 1 + 4 * count + 3) →
        load sizeof_u64 buf' j = load sizeof_u64 buf j.
Proof.
  intros Hts Hmode Ha Hbuf Hlen HN Hc Hc0 Hroom.
  pose proof (word_pow_le cfg) as Hwp.
  assert (0 < sizeof_u64) as Hw by done.
  unfold write_comp_data. rewrite Hts. cbn [mbind option_bind].
  unfold check_kcov_mode. cbn [negb]. rewrite bool_decide_eq_true_2 by done.
  cbn [negb]. rewrite Ha. cbn [mbind option_bind]. rewrite Hbuf.
  cbn [mbind option_bind]. rewrite Hc. cbn [mbind option_bind].
  unfold KCOV_WORDS_PER_CMP.
  rewrite (u64_small (count * 4)) by lia.
  rewrite (u64_small (1 + count * 4)) by lia.
  rewrite (u64_small (1 + count * 4 + 4)) by lia.
  rewrite (u64_small ((1 + count * 4 + 4) * sizeof_u64))
    by (unfold sizeof_u64; lia).
  rewrite ul_small_word by lia.
  rewrite decide_True by (unfold sizeof_u64; lia).
  rewrite !u64_small by lia.
  unfold sizeof_u64 in *.
  destruct (store 8 buf (1 + count * 4) type) as [b1|] eqn:H1;
    [|rewrite store_Some in H1 by lia; discriminate].
  pose proof (length_store _ _ _ _ _ Hw H1) as Hl1. cbn [mbind option_bind].
  destruct (store 8 b1 (1 + count * 4 + 1) arg1) as [b2|] eqn:H2;
    [|rewrite store_Some in H2 by lia; discriminate].
  pose proof (length_store _ _ _ _ _ Hw H2) as Hl2. cbn [mbind option_bind].
  destruct (store 8 b2 (1 + count * 4 + 2) arg2) as [b3|] eqn:H3;
    [|rewrite store_Some in H3 by lia; discriminate].
  pose proof (length_store _ _ _ _ _ Hw H3) as Hl3. cbn [mbind option_bind].
  destruct (store 8 b3 (1 + count * 4 + 3) (canonicalize_ip cfg ip))
    as [b4|] eqn:H4; [|rewrite store_Some in H4 by lia; discriminate].
  pose proof (length_store _ _ _ _ _ Hw H4) as Hl4. cbn [mbind option_bind].
  destruct (store 8 b4 0 (count + 1)) as [b5|] eqn:H5;
    [|rewrite store_Some in H5 by lia; discriminate].
  pose proof (length_store _ _ _ _ _ Hw H5) as Hl5. cbn [mbind option_bind].
  exists b5. split_and!.
  - done.
  - congruence.
  - rewrite (load_store_eq _ _ _ _ _ Hw H5). f_equal. apply Z.mod_small. lia.
  - rewrite (load_store_ne _ _ _ _ _ _ Hw H5) by lia.
    rewrite (load_store_ne _ _ _ _ _ _ Hw H4) by lia.
    rewrite (load_store_ne _ _ _ _ _ _ Hw H3) by lia.
    rewrite (load_store_ne _ _ _ _ _ _ Hw H2) by lia.
    replace (1 + 4 * count) with (1 + count * 4) by lia.
    by rewrite (load_store_eq _ _ _ _ _ Hw H1).
  - rewrite (load_store_ne _ _ _ _ _ _ Hw H5) by lia.
    rewrite (load_store_ne _ _ _ _ _ _ Hw H4) by lia.
    rewrite (load_store_ne _ _ _ _ _ _ Hw H3) by lia.
    replace (1 + 4 * count + 1) with (1 + count * 4 + 1) by lia.
    by rewrite (load_store_eq _ _ _ _ _ Hw H2).
  - rewrite (load_store_ne _ _ _ _ _ _ Hw H5) by lia.
    rewrite (load_store_ne _ _ _ _ _ _ Hw H4) by lia.
    replace (1 + 4 * count + 2) with (1 + count * 4 + 2) by lia.
    by rewrite (load_store_eq _ _ _ _ _ Hw H3).
  - rewrite (load_store_ne _ _ _ _ _ _ Hw H5) by lia.
    replace (1 + 4 * count + 3) with (1 + count * 4 + 3) by lia.
    rewrite (load_store_eq _ _ _ _ _ Hw H4). f_equal.
    apply Z.mod_small, canonicalize_ip_u64.
  - intros j Hj0 Hj.
    rewrite (load_store_ne _ _ _ _ _ _ Hw H5) by lia.
    rewrite (load_store_ne _ _ _ _ _ _ Hw H4) by lia.
    rewrite (load_store_ne _ _ _ _ _ _ Hw H3) by lia.
    rewrite (load_store_ne _ _ _ _ _ _ Hw H2) by lia.
    by rewrite (load_store_ne _ _ _ _ _ _ Hw H1) by lia.
Qed.

(** One call without room, for a count small enough that the 64-bit
    capacity test does not wrap: nothing changes. *)
Lemma write_comp_data_drops cfg in_task cur type arg1 arg2 ip s ts a buf count :
  tasks s !! cur = Some ts → ts_kcov_area ts = Some a → vmem s !! a = Some buf →
  0 ≤ ts_kcov_size ts * word_size cfg < 2 ^ (8 * word_size cfg) →
  load sizeof_u64 buf 0 = Some count → 0 ≤ count < 2 ^ 59 - 1 →
  ¬ (1 + (count + 1) * 4) * 8 ≤ ts_kcov_size ts * word_size cfg →
  write_comp_data cfg in_task cur type arg1 arg2 ip s = Some s.
Proof.
  intros Hts Ha Hbuf HN Hc Hc0 Hfull.
  unfold write_comp_data. rewrite Hts. cbn [mbind option_bind].
  destruct (check_kcov_mode _ _ _); cbn [negb]; [|done].
  rewrite Ha. cbn [mbind option_bind]. rewrite Hbuf.
  cbn [mbind option_bind]. rewrite Hc. cbn [mbind option_bind].
  unfold KCOV_WORDS_PER_CMP, sizeof_u64.
  rewrite (u64_small (count * 4)) by lia.
  rewrite (u64_small (1 + count * 4)) by lia.
  rewrite (u64_small (1 + count * 4 + 4)) by lia.
  rewrite (u64_small ((1 + count * 4 + 4) * 8)) by lia.
  rewrite ul_small_word by lia.
  by rewrite decide_False by lia.
Qed.

Lemma run_sink_cmp_record cfg in_task cur c s type arg1 arg2 ip :
  cmp_record c = Some (type, arg1, arg2, ip) →
  run_sink cfg in_task cur c s
  = write_comp_data cfg in_task cur type arg1 arg2 ip s.
Proof. destruct c; simpl; intros [= <- <- <- <-]; reflexivity. Qed.

(** A run of [k] comparison sinks that all fit: the count goes from [n0] to
    [n0 + k], and record [n0 + i] holds what the [i]-th call passed. *)
Lemma run_cmp_sinks cfg cur ts a cs :
  ts_kcov_mode ts = KCOV_MODE_TRACE_CMP → ts_kcov_area ts = Some a →
  ts_kcov_size ts * word_size cfg < 2 ^ (8 * word_size cfg) →
  ∀ s buf n0,
    tasks s !! cur = Some ts → vmem s !! a = Some buf →
    Z.of_nat (length buf) = ts_kcov_size ts * word_size cfg →
    load sizeof_u64 buf 0 = Some n0 → 0 ≤ n0 →
    (1 + (n0 + Z.of_nat (length cs)) * 4) * 8
      ≤ ts_kcov_size ts * word_size cfg →
    Forall (λ c, is_Some (cmp_record c)) cs →
    ∃ buf',
      run_sinks cfg true cur cs s = Some (set_vmem <[a := buf']> s)
      ∧ length buf' = length buf
      ∧ load sizeof_u64 buf' 0 = Some (n0 + Z.of_nat (length cs))
      ∧ (∀ (i : nat) c type arg1 arg2 ip,
           cs !! i = Some c → cmp_record c = Some (type, arg1, arg2, ip) →
           let r := 1 + 4 * (n0 + Z.of_nat i) in
           load sizeof_u64 buf' r = Some (u64 type)
           ∧ load sizeof_u64 buf' (r + 1) = Some (u64 arg1)
           ∧ load sizeof_u64 buf' (r + 2) = Some (u64 arg2)
           ∧ load sizeof_u64 buf' (r + 3) = Some (canonicalize_ip cfg ip))
      ∧ (∀ j, 1 ≤ j < 1 + 4 * n0 →
           load sizeof_u64 buf' j = load sizeof_u64 buf j).
Proof.
  intros Hmode Ha HN. induction cs as [|c cs IH];
    intros s buf n0 Hts Hbuf Hlen Hn Hn0 Hroom Hcs.
  - exists buf. cbn [run_sinks length].
    rewrite (set_vmem_id _ _ _ Hbuf). split_and!; try done.
    rewrite Hn. f_equal. lia.
  - apply list.Forall_cons in Hcs as [[[[[ty a1] a2] ip] Hc] Hcs].
    cbn [run_sinks]. rewrite (run_sink_cmp_record _ _ _ _ _ _ _ _ _ Hc).
    simpl length in Hroom.
    destruct (write_comp_data_appends cfg cur ty a1 a2 ip s ts a buf n0)
      as (buf1 & -> & Hl1 & Hc1 & Hr0 & Hr1 & Hr2 & Hr3 & Hf1);
      try done; try lia.
    cbn [mbind option_bind].
    destruct (IH (set_vmem <[a := buf1]> s) buf1 (n0 + 1))
      as (buf' & Hrun & Hl' & Hc' & Hp' & Hf');
      [done | simpl; apply lookup_insert_eq | by rewrite Hl1 | done | lia
      | lia | done |].
    exists buf'. split_and!.
    + rewrite Hrun. by rewrite set_vmem_insert_twice.
    + congruence.
    + rewrite Hc'. f_equal. simpl length. lia.
    + intros i c' ty' a1' a2' ip' Hi Hc''. cbv zeta. destruct i as [|i].
      * injection Hi as <-. rewrite Hc in Hc''. injection Hc'' as <- <- <- <-.
        rewrite Z.add_0_r. rewrite !Hf' by lia. done.
      * simpl in Hi. specialize (Hp' i c' ty' a1' a2' ip' Hi Hc'').
        simpl in Hp'.
        replace (1 + 4 * (n0 + Z.of_nat (S i)))
          with (1 + 4 * (n0 + 1 + Z.of_nat i)) by lia.
        exact Hp'.
    + intros j Hj. rewrite Hf' by lia. apply Hf1; lia.
Qed.

(** C7. The code at a count word of [2^61 - 1], which user space can store
    into the mapped area of 4 words (32 bytes): the record does not fit,
    [(1 + (count + 1) * 4) * 8] being far above 32, yet the 64-bit products
    of the capacity test wrap, the test [end_pos <= max_pos] passes with
    [end_pos = 8], and the sink stores the record at word index
    [2^63 - 3], outside the area (a fault in the embedding) instead of
    leaving the area unchanged. *)
Theorem write_comp_data_count_overflow :
  reachable lp64_config huge_count_state
  ∧ vmem huge_count_state !! 0%nat ≫= (λ buf, load sizeof_u64 buf 0)
    = Some (2 ^ 61 - 1)
  ∧ ¬ (1 + (2 ^ 61 - 1 + 1) * 4) * 8 ≤ 4 * word_size lp64_config
  ∧ u64 (1 + u64 ((2 ^ 61 - 1) * KCOV_WORDS_PER_CMP)) = 2 ^ 63 - 3
  ∧ u64 (u64 (2 ^ 63 - 3 + KCOV_WORDS_PER_CMP) * sizeof_u64) = 8
  ∧ 8 ≤ ul lp64_config (4 * word_size lp64_config)
  ∧ write_comp_data lp64_config true 1 (KCOV_CMP_SIZE 3) 1 2 5000
      huge_count_state = None.
Proof.
  split; [exists huge_count_run; vm_compute; reflexivity|].
  split_and!; try (vm_compute; reflexivity).
  - vm_compute. intros H. by apply H.
  - vm_compute. discriminate.
Qed.

(** ** Merging a scratch area into the shared area *)

(** A slot of one region loads what a slot of another region loads when
    the bytes of the two slots agree. *)
Lemma load_eq_bytes width buf1 buf2 j1 j2 :
  0 < width → 0 ≤ j1 → 0 ≤ j2 →
  (j1 + 1) * width ≤ Z.of_nat (length buf1) →
  (j2 + 1) * width ≤ Z.of_nat (length buf2) →
  (∀ q : nat, Z.of_nat q < width →
     buf1 !! (Z.to_nat (j1 * width) + q)%nat
     = buf2 !! (Z.to_nat (j2 * width) + q)%nat) →
  load width buf1 j1 = load width buf2 j2.
Proof.
  intros Hw Hj1 Hj2 Hl1 Hl2 Hag. unfold load.
  rewrite !decide_True by done. f_equal. f_equal.
  apply list_eq. intros q.
  destruct (decide (q < Z.to_nat width)%nat) as [Hq|Hq].
  - rewrite !lookup_take_lt by lia. rewrite !lookup_drop. apply Hag. lia.
  - rewrite !lookup_take_ge by lia. reflexivity.
Qed.

Lemma memcpy_inv dst doff src soff n dst' :
  memcpy dst doff src soff n = Some dst' →
  dst' = splice dst (Z.to_nat doff)
                (take (Z.to_nat n) (drop (Z.to_nat soff) src)).
Proof. unfold memcpy. case_decide; by intros [= <-]. Qed.

Lemma memcpy_Some dst doff src soff n :
  0 ≤ doff → 0 ≤ soff → 0 ≤ n →
  doff + n ≤ Z.of_nat (length dst) → soff + n ≤ Z.of_nat (length src) →
  memcpy dst doff src soff n
  = Some (splice dst (Z.to_nat doff)
                 (take (Z.to_nat n) (drop (Z.to_nat soff) src))).
Proof. intros. unfold memcpy. by rewrite decide_True. Qed.

Lemma count_size_cases cfg mode :
  count_size cfg mode = 4 ∨ count_size cfg mode = 8.
Proof.
  unfold count_size, sizeof_u64.
  destruct mode, (cfg_abi cfg); simpl; auto.
Qed.

Lemma entry_size_eq cfg mode :
  entry_size cfg mode = count_size cfg mode * words_per_entry mode
  ∧ (words_per_entry mode = 1 ∨ words_per_entry mode = 4).
Proof. split; [done|]. destruct mode; simpl; auto. Qed.

(** The arithmetic of the merge over the integers. *)
Lemma merge_arith cs es cw d sn :
  0 < es → 0 ≤ d ≤ (cw - cs) / es → 0 ≤ sn → cs ≤ cw →
  let free := cw - (cs + d * es) in
  let bytes := Z.min free (sn * es) in
  0 ≤ free ∧ 0 ≤ bytes ∧ bytes ≤ free ∧ bytes ≤ sn * es
  ∧ d + bytes / es = Z.min (d + sn) ((cw - cs) / es)
  ∧ bytes / es * es ≤ bytes.
Proof.
  intros Hes Hd Hsn Hcw free bytes.
  assert (d * es ≤ cw - cs) as Hocc.
  { transitivity ((cw - cs) / es * es); [nia|].
    rewrite Z.mul_comm. apply Z.mul_div_le. lia. }
  assert (free / es = (cw - cs) / es - d) as Hfree.
  { unfold free. replace (cw - (cs + d * es)) with (cw - cs + (- d) * es) by lia.
    rewrite Z.div_add by lia. lia. }
  assert (0 ≤ free) by (unfold free; lia).
  assert (bytes / es * es ≤ bytes).
  { rewrite Z.mul_comm. apply Z.mul_div_le. lia. }
  assert (d + bytes / es = Z.min (d + sn) ((cw - cs) / es)) as Hcount.
  { unfold bytes.
    destruct (Z.min_spec free (sn * es)) as [[Hlt ->] | [Hge ->]].
    - rewrite Hfree.
      assert (free / es ≤ sn) by (apply Z.div_le_upper_bound; lia).
      lia.
    - rewrite Z.div_mul by lia.
      assert (sn ≤ free / es) by (apply Z.div_le_lower_bound; lia).
      lia. }
  unfold bytes in *. split_and!; try done; lia.
Qed.

Lemma kcov_move_area_eq cfg mode dst c src :
  traces mode →
  kcov_move_area cfg mode dst c src
  = move_entries cfg (count_size cfg mode) (count_size cfg mode)
                 (entry_size cfg mode) dst c src.
Proof.
  intros [-> | ->];
    unfold kcov_move_area, entry_size, count_size, words_per_entry, word_size;
    [by rewrite Z.mul_1_r | done].
Qed.

Lemma move_entries_merges cfg cs wpe dst c src d sn :
  cs = 4 ∨ cs = 8 → wpe = 1 ∨ wpe = 4 → word_size cfg ≤ cs →
  0 ≤ c < 2 ^ 32 →
  Z.of_nat (length dst) = c * word_size cfg →
  Z.of_nat (length src) < 2 ^ 64 →
  load cs dst 0 = Some d → load cs src 0 = Some sn →
  0 ≤ d ≤ (c * word_size cfg - cs) / (cs * wpe) → 0 ≤ sn →
  cs + sn * (cs * wpe) ≤ Z.of_nat (length src) →
  ∃ dst',
    move_entries cfg cs cs (cs * wpe) dst c src = Some dst'
    ∧ length dst' = length dst
    ∧ load cs dst' 0
      = Some (Z.min (d + sn) ((c * word_size cfg - cs) / (cs * wpe)))
    ∧ (∀ j, 1 ≤ j < 1 + wpe * d → load cs dst' j = load cs dst j)
    ∧ (∀ j, 0 ≤ j <
              wpe * (Z.min (d + sn) ((c * word_size cfg - cs) / (cs * wpe)) - d) →
         load cs dst' (1 + wpe * d + j) = load cs src (1 + j)).
Proof.
  intros Hcs Hwpe Hwcs Hc Hldst Hlsrc Hd Hsn Hd0 Hsn0 Hfit.
  pose proof (word_size_cases cfg) as Hw.
  assert (c * word_size cfg ≤ c * cs ∧ c * cs < 2 ^ 35) as [Hcwle Hmax] by nia.
  set (cw := c * word_size cfg) in *. set (es := cs * wpe) in *.
  assert (0 < cs) as Hcs0 by lia.
  assert (0 < es) as Hes0 by (unfold es; lia).
  assert (cs ≤ cw) as Hcw.
  { destruct (decide (cs ≤ cw)) as [|Hlt]; [done|]. exfalso.
    assert ((cw - cs) / es < 0); [|lia].
    apply Z.div_lt_upper_bound; lia. }
  destruct (merge_arith cs es cw d sn Hes0 Hd0 Hsn0 Hcw)
    as (Hfree & Hbytes & Hbf & Hbs & Hcount & Hfloor). cbv zeta in *.
  set (bytes := Z.min (cw - (cs + d * es)) (sn * es)) in *.
  assert (d * es ≤ cw - cs) as Hocc by lia.
  unfold move_entries. fold cw. rewrite Hd, Hsn. cbn [mbind option_bind].
  rewrite (u64_small cw) by lia. rewrite (u64_small (cw - cs)) by lia.
  rewrite decide_False by lia.
  rewrite (u64_small (d * es)) by lia. rewrite (u64_small (cs + d * es)) by lia.
  rewrite (u64_small (cw - _)) by lia. rewrite (u64_small (sn * es)) by lia.
  fold bytes.
  rewrite memcpy_Some by lia. cbn [mbind option_bind].
  set (dst1 := splice dst _ _).
  assert (length (take (Z.to_nat bytes) (drop (Z.to_nat cs) src))
          = Z.to_nat bytes) as Hlmid.
  { rewrite length_take, length_drop. lia. }
  assert (length dst1 = length dst) as Hl1.
  { unfold dst1. apply length_splice. rewrite Hlmid. lia. }
  rewrite (u64_small (d + bytes / es)) by lia.
  destruct (store cs dst1 0 (d + bytes / es)) as [dst2|] eqn:H2;
    [|rewrite store_Some in H2 by lia; discriminate].
  pose proof (length_store _ _ _ _ _ Hcs0 H2) as Hl2.
  exists dst2. split_and!.
  - done.
  - congruence.
  - rewrite (load_store_eq _ _ _ _ _ Hcs0 H2), Hcount. f_equal.
    apply Z.mod_small. split; [lia|].
    assert ((cw - cs) / es < c).
    { apply Z.div_lt_upper_bound; [lia|]. unfold es. nia. }
    destruct Hcs as [-> | ->]; simpl; lia.
  - intros j Hj. rewrite (load_store_ne _ _ _ _ _ _ Hcs0 H2) by lia.
    apply load_ext; [done | done |]. intros p Hp.
    unfold dst1. apply lookup_splice_lt; [lia|]. unfold es in *. nia.
  - intros j Hj. rewrite <- Hcount in Hj.
    replace (d + bytes / es - d) with (bytes / es) in Hj by lia.
    assert ((j + 1) * cs ≤ bytes) as Hjb by (unfold es in *; nia).
    assert ((1 + wpe * d + j) * cs = cs + d * es + j * cs) as Hoff
      by (unfold es; ring).
    rewrite (load_store_ne _ _ _ _ _ _ Hcs0 H2) by lia.
    apply load_eq_bytes; try lia.
    + rewrite Hoff. intros q Hq. unfold dst1.
      rewrite lookup_splice_mid; [| lia | rewrite Hlmid; lia].
      rewrite lookup_take_lt by lia.
      rewrite lookup_drop. f_equal. lia.
Qed.

(** C2. Merging a source area that holds [sn] records into a destination
    of [c] words ([c] an [unsigned]) that holds [d] records, [d] within the
    capacity of the destination, in PC or CMP mode: the merge succeeds, the count of the
    destination becomes [min (d + sn) capacity] with
    [capacity = (c * sizeof(long) - count_size) / entry_size], the records
    the destination had stay where they were, and the first
    [count - d] records of the source follow them in order; what does not
    fit is not copied into a counted record. *)
Theorem kcov_move_area_count cfg mode dst c src d sn :
  traces mode →
  0 ≤ c < 2 ^ 32 →
  Z.of_nat (length dst) = c * word_size cfg →
  Z.of_nat (length src) < 2 ^ 64 →
  load (count_size cfg mode) dst 0 = Some d →
  load (count_size cfg mode) src 0 = Some sn →
  0 ≤ d ≤ capacity cfg mode c → 0 ≤ sn →
  count_size cfg mode + sn * entry_size cfg mode ≤ Z.of_nat (length src) →
  ∃ dst',
    kcov_move_area cfg mode dst c src = Some dst'
    ∧ length dst' = length dst
    ∧ load (count_size cfg mode) dst' 0
      = Some (Z.min (d + sn) (capacity cfg mode c))
    ∧ (∀ j, 1 ≤ j < 1 + words_per_entry mode * d →
         load (count_size cfg mode) dst' j = load (count_size cfg mode) dst j)
    ∧ (∀ j, 0 ≤ j < words_per_entry mode
                    * (Z.min (d + sn) (capacity cfg mode c) - d) →
         load (count_size cfg mode) dst' (1 + words_per_entry mode * d + j)
         = load (count_size cfg mode) src (1 + j)).
Proof.
  intros Hmode Hc Hldst Hlsrc Hd Hsn Hd0 Hsn0 Hfit.
  rewrite kcov_move_area_eq by done.
  destruct (entry_size_eq cfg mode) as [Hes Hwpe].
  unfold capacity in *. fold (word_size cfg) in *. rewrite Hes in *.
  pose proof (count_size_cases cfg mode) as Hcs.
  apply move_entries_merges; try done.
  unfold count_size, word_size, sizeof_u64.
  destruct mode, (cfg_abi cfg); simpl; lia.
Qed.

Lemma kcov_move_area_count_witness :
  (∃ dst',
     kcov_move_area lp64_config KCOV_MODE_TRACE_PC
         (pc_area 1 [100]) 4 (pc_area 3 [200; 300; 400])
       = Some dst'
     ∧ load 8 dst' 0 = Some 3
     ∧ load 8 dst' 1 = Some 100
     ∧ load 8 dst' 2 = Some 200
     ∧ load 8 dst' 3 = Some 300)
  ∧ (∃ dst',
       kcov_move_area lp64_config KCOV_MODE_TRACE_CMP
           (replicate 80 0) 10 (le_encode 8 3 ++ replicate 96 7)
         = Some dst'
       ∧ load 8 dst' 0 = Some 2).
Proof.
  split.
  - destruct (kcov_move_area_count lp64_config KCOV_MODE_TRACE_PC
                (pc_area 1 [100]) 4 (pc_area 3 [200; 300; 400]) 1 3)
      as (dst' & Hrun & _ & Hcount & Hold & Hnew);
      [by left | lia | reflexivity
      | vm_compute; reflexivity | reflexivity | reflexivity
      | vm_compute; split; discriminate | lia | vm_compute; discriminate |].
    exists dst'. split_and!.
    + exact Hrun.
    + exact Hcount.
    + etrans; [apply (Hold 1); vm_compute; split; [discriminate | reflexivity]|].
      reflexivity.
    + etrans; [apply (Hnew 0); vm_compute; split; [discriminate | reflexivity]|].
      reflexivity.
    + etrans; [apply (Hnew 1); vm_compute; split; [discriminate | reflexivity]|].
      reflexivity.
  - destruct (kcov_move_area_count lp64_config KCOV_MODE_TRACE_CMP
                (replicate 80 0) 10 (le_encode 8 3 ++ replicate 96 7) 0 3)
      as (dst' & Hrun & _ & Hcount & _);
      [by right | lia | reflexivity
      | vm_compute; reflexivity | reflexivity | reflexivity
      | vm_compute; split; discriminate | lia | vm_compute; discriminate |].
    exists dst'. split; [exact Hrun | exact Hcount].
Defined.

(** ** Opening and closing a window *)



(** ** The handle registry *)

Lemma hlist_find_Some h l r :
  hlist_find h l = Some r → r ∈ l ∧ r_handle r = h.
Proof.
  induction l as [|r0 l IH]; simpl; [discriminate|].
  case_decide as Hh.
  - intros [= <-]. split; [left | done].
  - intros [? ?]%IH. split; [by right | done].
Qed.

Lemma hlist_find_None h l :
  hlist_find h l = None ↔ h ∉ r_handle <$> l.
Proof.
  induction l as [|r0 l IH]; simpl.
  - split; [intros _; apply not_elem_of_nil | done].
  - rewrite not_elem_of_cons. case_decide as Hh.
    + split; [discriminate | intros [Hn _]; by destruct Hn].
    + rewrite IH. split; [intros ?; split; [congruence | done] | by intros [_ ?]].
Qed.

Lemma hlist_find_elem l r :
  NoDup (r_handle <$> l) → r ∈ l → hlist_find (r_handle r) l = Some r.
Proof.
  induction l as [|r0 l IH]; simpl; intros Hnd Hr.
  - by apply elem_of_nil in Hr.
  - apply list.NoDup_cons in Hnd as [Hnotin Hnd].
    apply elem_of_cons in Hr as [-> | Hr].
    + by rewrite decide_True.
    + rewrite decide_False; [by apply IH|].
      intros E. apply Hnotin. rewrite E. by apply list_elem_of_fmap_2.
Qed.

Lemma bucket_of_lt cfg h : (bucket_of cfg h < HASH_SIZE)%nat.
Proof. unfold bucket_of, HASH_SIZE. apply Nat.mod_upper_bound. lia. Qed.

Lemma kcov_remote_find_add_eq cfg s h k :
  length (kcov_remote_map s) = HASH_SIZE →
  kcov_remote_find cfg
    (set_remote_map (hash_add cfg {| r_handle := h; r_kcov := k |} h) s) h
  = Some {| r_handle := h; r_kcov := k |}.
Proof.
  intros Hlen. unfold kcov_remote_find, hash_add. cbn [kcov_remote_map set_remote_map].
  rewrite list_lookup_insert_eq by (rewrite Hlen; apply bucket_of_lt).
  simpl. by rewrite decide_True.
Qed.

Lemma kcov_remote_find_add_ne cfg s h k h' :
  h' ≠ h →
  kcov_remote_find cfg
    (set_remote_map (hash_add cfg {| r_handle := h; r_kcov := k |} h) s) h'
  = kcov_remote_find cfg s h'.
Proof.
  intros Hne. unfold kcov_remote_find, hash_add. cbn [kcov_remote_map set_remote_map].
  destruct (decide (bucket_of cfg h = bucket_of cfg h')) as [E | E].
  - rewrite E.
    destruct (decide (bucket_of cfg h' < length (kcov_remote_map s))%nat) as [Hlt | Hge].
    + rewrite list_lookup_insert_eq by done. simpl.
      rewrite decide_False by congruence. done.
    + rewrite list_insert_ge by lia. done.
  - by rewrite list_lookup_insert_ne.
Qed.

(** X1. Insert, then look up. In a table of [HASH_SIZE] buckets, after
    [hash_add] of a node for handle [h] and descriptor [k],
    [kcov_remote_find] returns that node for [h] and, for every other
    handle, what it returned before. *)
Theorem kcov_remote_find_hash_add cfg s h k h' :
  length (kcov_remote_map s) = HASH_SIZE →
  kcov_remote_find cfg
    (set_remote_map (hash_add cfg {| r_handle := h; r_kcov := k |} h) s) h'
  = if decide (h' = h) then Some {| r_handle := h; r_kcov := k |}
    else kcov_remote_find cfg s h'.
Proof.
  intros Hlen. case_decide as Hh.
  - subst. by apply kcov_remote_find_add_eq.
  - by apply kcov_remote_find_add_ne.
Qed.

Lemma kcov_remote_find_hash_add_witness :
  kcov_remote_find lp64_config
    (set_remote_map (hash_add lp64_config {| r_handle := 23; r_kcov := 1 |} 23)
       (remote_state lp64_config 4 0 4 [7])) 23
  = Some {| r_handle := 23; r_kcov := 1 |}
  ∧ kcov_remote_find lp64_config
      (set_remote_map (hash_add lp64_config {| r_handle := 23; r_kcov := 1 |} 23)
         (remote_state lp64_config 4 0 4 [7])) 7
    = Some {| r_handle := 7; r_kcov := 0 |}.
Proof.
  split.
  - rewrite kcov_remote_find_hash_add by (vm_compute; reflexivity).
    reflexivity.
  - rewrite kcov_remote_find_hash_add by (vm_compute; reflexivity).
    vm_compute. reflexivity.
Defined.

(** *** Well-formedness of the table *)

Lemma registry_ok_ext cfg s s' :
  kcov_remote_map s' = kcov_remote_map s → registry_ok cfg s → registry_ok cfg s'.
Proof. unfold registry_ok. by intros ->. Qed.

Lemma registry_ok_purge cfg k s :
  registry_ok cfg s → registry_ok cfg (set_remote_map (purge k) s).
Proof.
  intros Hok b l Hl. simpl in Hl. unfold purge in Hl.
  apply list_lookup_fmap_Some in Hl as (l0 & -> & Hl0).
  destruct (Hok _ _ Hl0) as [Hnd Hb]. split.
  - eapply sublist_NoDup; [exact Hnd | apply fmap_sublist, sublist_filter].
  - apply list.Forall_forall. intros r [_ Hr]%list_elem_of_filter.
    by apply (proj1 (list.Forall_forall _ _) Hb).
Qed.

Lemma registry_ok_hash_add cfg h k s :
  registry_ok cfg s → kcov_remote_find cfg s h = None →
  registry_ok cfg
    (set_remote_map (hash_add cfg {| r_handle := h; r_kcov := k |} h) s).
Proof.
  intros Hok Hfind b l Hl. simpl in Hl. unfold hash_add in Hl.
  apply list_lookup_insert_Some in Hl as [(<- & <- & Hlt) | [Hne Hl]];
    [|by apply Hok].
  unfold kcov_remote_find in Hfind.
  destruct (kcov_remote_map s !! bucket_of cfg h) as [l0|] eqn:Hl0;
    [|by apply lookup_ge_None in Hl0; lia].
  simpl in *. destruct (Hok _ _ Hl0) as [Hnd Hb]. split.
  - apply list.NoDup_cons. split; [by apply hlist_find_None | done].
  - by constructor.
Qed.

Lemma registry_ok_boot cfg : registry_ok cfg boot.
Proof.
  intros b l Hl. change (replicate HASH_SIZE [] !! b = Some l) in Hl.
  apply lookup_replicate in Hl as [-> _]. split; [constructor | constructor].
Qed.

(** *** What each operation does to the table *)

Lemma purge_purge k map : purge k (purge k map) = purge k map.
Proof.
  unfold purge. rewrite <- list_fmap_compose. apply list_fmap_ext.
  intros _ l _. simpl. apply filter_keeps_all.
  apply list.Forall_forall. by intros r [? _]%list_elem_of_filter.
Qed.

Lemma kcov_reset_map k s s' :
  kcov_reset k s = Some s' → kcov_remote_map s' = kcov_remote_map s.
Proof. unfold kcov_reset. intros (kc & _ & [= <-])%bind_Some. done. Qed.

Lemma kcov_get_map k s s' :
  kcov_get k s = Some s' → kcov_remote_map s' = kcov_remote_map s.
Proof. unfold kcov_get. intros (kc & _ & [= <-])%bind_Some. done. Qed.

Lemma kcov_remote_reset_map k s s' :
  kcov_remote_reset k s = Some s' →
  kcov_remote_map s' = purge k (kcov_remote_map s).
Proof. unfold kcov_remote_reset. intros H%kcov_reset_map. by rewrite H. Qed.

Lemma kcov_put_map k s s' :
  kcov_put k s = Some s' →
  kcov_remote_map s' = kcov_remote_map s
  ∨ kcov_remote_map s' = purge k (kcov_remote_map s).
Proof.
  unfold kcov_put. intros (kc & Hk & H)%bind_Some.
  case_decide; [|injection H as <-; by left].
  apply bind_Some in H as (s1 & H1%kcov_remote_reset_map & H).
  apply bind_Some in H as (kc1 & _ & [= <-]). right.
  change (kcov_remote_map (set_kcovs _ s)) with (kcov_remote_map s) in H1.
  rewrite <- H1. by destruct (k_area kc1).
Qed.

Lemma owner_reset_map k (remote : bool) s s' :
  (if remote then kcov_remote_reset k s else kcov_reset k s) = Some s' →
  kcov_remote_map s' = kcov_remote_map s
  ∨ kcov_remote_map s' = purge k (kcov_remote_map s).
Proof.
  destruct remote; [intros ?%kcov_remote_reset_map | intros ?%kcov_reset_map];
    auto.
Qed.

(** Two operations in a row that each leave the table alone or purge the
    nodes of [k]. *)
Lemma purged_trans k (m m1 m2 : list (list kcov_remote)) :
  m1 = m ∨ m1 = purge k m → m2 = m1 ∨ m2 = purge k m1 →
  m2 = m ∨ m2 = purge k m.
Proof.
  intros [-> | ->] [-> | ->]; auto. right. apply purge_purge.
Qed.

Lemma registry_ok_purged cfg k s s' :
  registry_ok cfg s →
  kcov_remote_map s' = kcov_remote_map s
  ∨ kcov_remote_map s' = purge k (kcov_remote_map s) →
  registry_ok cfg s'.
Proof.
  intros Hok [E | E].
  - by eapply registry_ok_ext.
  - eapply (registry_ok_ext _ (set_remote_map (purge k) s)); [done|].
    by apply registry_ok_purge.
Qed.

Lemma kcov_task_exit_map t s s' :
  kcov_task_exit t s = Some s' →
  kcov_remote_map s' = kcov_remote_map s
  ∨ ∃ k, kcov_remote_map s' = purge k (kcov_remote_map s).
Proof.
  unfold kcov_task_exit. intros (ts & Hts & H)%bind_Some.
  destruct (ts_kcov ts) as [k|]; [|injection H as <-; by left].
  apply bind_Some in H as (kc & Hk & H).
  case_decide; [injection H as <-; by left|].
  apply bind_Some in H as (s1 & [_ Hi]%kcov_task_init_kcovs & H).
  apply bind_Some in H as (s2 & Hr%owner_reset_map & Hp%kcov_put_map).
  rewrite Hi in Hr.
  destruct (purged_trans _ _ _ _ Hr Hp); eauto.
Qed.

Lemma remote_enable_loop_registry cfg k rarg ok n i s r s' :
  registry_ok cfg s →
  remote_enable_loop cfg k rarg ok n i s = Some (r, s') → registry_ok cfg s'.
Proof.
  revert i s. induction n as [|n IH]; intros i s Hok H;
    cbn [remote_enable_loop] in H.
  - apply bind_Some in H as (s1 & H1%kcov_get_map & [= <- <-]).
    by eapply registry_ok_ext.
  - apply bind_Some in H as (h & Hh & H).
    destruct (kcov_remote_find cfg s h) eqn:Hfind.
    { apply bind_Some in H as (s1 & H1%kcov_remote_reset_map & [= <- <-]).
      eapply registry_ok_purged; eauto. }
    destruct (ok i); simpl in H.
    + eapply IH; [|exact H]. by apply registry_ok_hash_add.
    + apply bind_Some in H as (s1 & H1%kcov_remote_reset_map & [= <- <-]).
      eapply registry_ok_purged; eauto.
Qed.

Lemma kcov_ioctl_locked_registry cfg cur k cmd arg rarg ok s r s' :
  registry_ok cfg s →
  kcov_ioctl_locked cfg cur k cmd arg rarg ok s = Some (r, s') →
  registry_ok cfg s'.
Proof.
  intros Hok H. unfold kcov_ioctl_locked in H.
  apply bind_Some in H as (kc & Hk & H).
  destruct cmd.
  - repeat case_decide; by injection H as <- <-.
  - case_decide; [by injection H as <- <-|].
    apply bind_Some in H as (ts & Hts & H).
    case_decide; [by injection H as <- <-|].
    case_decide; [by injection H as <- <-|].
    apply bind_Some in H as (s1 & [_ Hs]%kcov_start_kcovs & H).
    apply bind_Some in H as (ts1 & Hts1 & H).
    apply bind_Some in H as (s2 & Hg%kcov_get_map & [= <- <-]).
    eapply registry_ok_ext; [|exact Hok]. by rewrite Hg.
  - apply bind_Some in H as (ts & Hts & H).
    case_decide; [by injection H as <- <-|].
    case_decide; [by injection H as <- <-|].
    apply bind_Some in H as (s1 & [_ Hi]%kcov_task_init_kcovs & H).
    apply bind_Some in H as (s2 & Hr%owner_reset_map & H).
    apply bind_Some in H as (s3 & Hp%kcov_put_map & [= <- <-]).
    rewrite Hi in Hr. eapply registry_ok_purged; [exact Hok|].
    eapply purged_trans; eauto.
  - case_decide; [by injection H as <- <-|].
    apply bind_Some in H as (ts & Hts & H).
    case_decide; [by injection H as <- <-|].
    case_decide; [by injection H as <- <-|].
    eapply remote_enable_loop_registry; [|exact H]. done.
  - by injection H as <- <-.
Qed.

(** A sink changes nothing but areas. *)
Lemma run_sink_others cfg in_task cur c s s' :
  run_sink cfg in_task cur c s = Some s' →
  kcovs s' = kcovs s ∧ tasks s' = tasks s
  ∧ kcov_remote_map s' = kcov_remote_map s
  ∧ kcov_remote_areas s' = kcov_remote_areas s.
Proof.
  intros H. destruct (tasks s !! cur) as [ts|] eqn:Hts.
  - by destruct (run_sink_frame _ _ _ _ _ _ _ Hts H) as [-> | (a & buf & _ & ->)].
  - destruct c; simpl in H;
      unfold __sanitizer_cov_trace_pc, write_comp_data,
        __sanitizer_cov_trace_switch in H;
      try (rewrite Hts in H; discriminate).
    apply bind_Some in H as (count & _ & H).
    apply bind_Some in H as (size & _ & H).
    assert (∀ type n i, trace_switch_loop cfg in_task cur type val cases ret_ip n i s
                        = Some s' → s' = s) as Hloop.
    { intros type [|n] i Hl; cbn [trace_switch_loop] in Hl; [congruence|].
      apply bind_Some in Hl as (c & _ & Hl).
      apply bind_Some in Hl as (s1 & H1 & _).
      unfold write_comp_data in H1. rewrite Hts in H1. discriminate. }
    repeat case_decide; try (apply Hloop in H as ->; done).
    by injection H as <-.
Qed.

Lemma kcov_remote_start_map cfg in_task cur h res s s' :
  kcov_remote_start cfg in_task cur h res s = Some s' →
  kcov_remote_map s' = kcov_remote_map s
  ∨ ∃ k, kcov_remote_map s' = purge k (kcov_remote_map s).
Proof.
  intros H. unfold kcov_remote_start in H.
  destruct in_task; simpl in H; [|injection H as <-; by left].
  apply bind_Some in H as (ts & Hts & H).
  case_decide; [injection H as <-; by left|].
  destruct (kcov_remote_find cfg s h) as [r|]; [|injection H as <-; by left].
  apply bind_Some in H as (s1 & Hg%kcov_get_map & H).
  apply bind_Some in H as (kc & Hk & H).
  assert (∀ a s3 s4, kcov_remote_map s3 = kcov_remote_map s →
            (buf ← vmem s3 !! a; buf ← store sizeof_u64 buf 0 0;
             kcov_start cur (k_remote_size kc) (Some a) (k_mode kc)
               (k_sequence kc) (set_vmem <[a := buf]> s3)) = Some s4 →
            kcov_remote_map s4 = kcov_remote_map s) as Hpub.
  { intros a s3 s4 H3 Hp.
    apply bind_Some in Hp as (b & _ & Hp).
    apply bind_Some in Hp as (b' & _ & [_ Hp]%kcov_start_kcovs).
    by rewrite Hp. }
  destruct (kcov_remote_area_get _ _) as [[a rest]|].
  - left. eapply Hpub; [|exact H]. done.
  - destruct res as [bytes|].
    + left. eapply Hpub; [|exact H]. done.
    + apply kcov_put_map in H. simpl in H. rewrite Hg in H.
      destruct H; eauto.
Qed.

Lemma kcov_remote_stop_map cfg cur s s' :
  kcov_remote_stop cfg cur s = Some s' →
  kcov_remote_map s' = kcov_remote_map s
  ∨ ∃ k, kcov_remote_map s' = purge k (kcov_remote_map s).
Proof.
  intros H. unfold kcov_remote_stop in H.
  apply bind_Some in H as (ts & Hts & H).
  destruct (ts_kcov ts) as [k|]; [|injection H as <-; by left].
  apply bind_Some in H as (s1 & [_ Hs]%kcov_stop_kcovs & H).
  apply bind_Some in H as (ts1 & Hts1 & H).
  apply bind_Some in H as (kc & Hk & H).
  apply bind_Some in H as (s2 & Hm & H).
  apply bind_Some in H as (a & Ha & Hp%kcov_put_map).
  assert (kcov_remote_map s2 = kcov_remote_map s) as E.
  { rewrite <- Hs.
    case_decide; [|by injection Hm as <-].
    destruct (k_remote kc); [|by injection Hm as <-].
    by destruct (kcov_move_area_at_frame _ _ _ _ _ _ _ Hm)
      as [-> | (d & b & _ & ->)]. }
  simpl in Hp. rewrite E in Hp. destruct Hp; eauto.
Qed.

Lemma step_registry cfg e s s' :
  registry_ok cfg s → step cfg e s = Some s' → registry_ok cfg s'.
Proof.
  intros Hok H. destruct e; simpl in H.
  - destruct (tasks s !! t); [discriminate|]. by injection H as <-.
  - apply kcov_task_exit_map in H as [E | [k E]];
      [by eapply registry_ok_ext | eapply registry_ok_purged; eauto].
  - apply fmap_Some in H as ([r s1] & H & ->). unfold kcov_open in H.
    destruct kzalloc_ok; simpl in H; by injection H as <- <-.
  - apply fmap_Some in H as ([r s1] & H & ->). unfold kcov_close in H.
    apply bind_Some in H as (s2 & Hp%kcov_put_map & [= <- <-]).
    eapply registry_ok_purged; eauto.
  - apply fmap_Some in H as ([r s1] & H & ->). unfold kcov_mmap in H.
    destruct vmalloc_ok; simpl in H; [|by injection H as <- <-].
    apply bind_Some in H as (kc & Hk & H).
    case_decide; [by injection H as <- <-|].
    destruct (k_area kc); by injection H as <- <-.
  - apply fmap_Some in H as ([r s1] & H & ->). unfold kcov_ioctl in H.
    repeat case_decide; try (by injection H as <- <-);
      by eapply kcov_ioctl_locked_registry.
  - apply run_sink_others in H as (_ & _ & E & _). by eapply registry_ok_ext.
  - apply kcov_remote_start_map in H as [E | [k E]];
      [by eapply registry_ok_ext | eapply registry_ok_purged; eauto].
  - apply kcov_remote_stop_map in H as [E | [k E]];
      [by eapply registry_ok_ext | eapply registry_ok_purged; eauto].
  - unfold user_store in H.
    apply bind_Some in H as (kc & _ & H).
    apply bind_Some in H as (a & _ & H).
    apply bind_Some in H as (b & _ & H).
    apply bind_Some in H as (b' & _ & [= <-]). done.
Qed.

Lemma reachable_registry cfg s : reachable cfg s → registry_ok cfg s.
Proof.
  intros [es H]. revert H. generalize (registry_ok_boot cfg).
  generalize boot. induction es as [|e es IH]; intros s0 Hok H; simpl in H.
  - by injection H as <-.
  - apply bind_Some in H as (s1 & H1 & H). eauto using step_registry.
Qed.

Lemma kcov_remote_find_ext cfg s s' h :
  kcov_remote_map s' = kcov_remote_map s →
  kcov_remote_find cfg s' h = kcov_remote_find cfg s h.
Proof. unfold kcov_remote_find. by intros ->. Qed.

Lemma kcov_remote_find_registered cfg s h r :
  kcov_remote_find cfg s h = Some r → registered s r ∧ r_handle r = h.
Proof.
  unfold kcov_remote_find, registered.
  destruct (kcov_remote_map s !! bucket_of cfg h) as [l|] eqn:Hl;
    simpl; [|discriminate].
  intros [? ?]%hlist_find_Some. eauto.
Qed.

(** X2. In every reachable state a node is in the table exactly when its
    handle resolves to it: [kcov_remote_find] finds every registered node
    under its handle, so no two registered nodes share a handle, and what it
    returns is a node of the table. *)
Theorem registered_handle_resolves cfg s r :
  reachable cfg s →
  registered s r ↔ kcov_remote_find cfg s (r_handle r) = Some r.
Proof.
  intros Hreg%reachable_registry. split.
  - intros (b & l & Hl & Hr). destruct (Hreg _ _ Hl) as [Hnd Hb].
    unfold kcov_remote_find.
    rewrite (proj1 (list.Forall_forall _ _) Hb r Hr), Hl. simpl.
    by apply hlist_find_elem.
  - by intros [? _]%kcov_remote_find_registered.
Qed.

Lemma registered_handle_resolves_witness :
  registered (remote_state lp64_config 4 0 4 [7; 23])
             {| r_handle := 23; r_kcov := 0 |}
  ↔ kcov_remote_find lp64_config (remote_state lp64_config 4 0 4 [7; 23]) 23
    = Some {| r_handle := 23; r_kcov := 0 |}.
Proof.
  apply (registered_handle_resolves lp64_config _
           {| r_handle := 23; r_kcov := 0 |}).
  exists (remote_run lp64_config 4 0 4 [7; 23]). vm_compute. reflexivity.
Defined.

(** X3. In every reachable state the node [kcov_remote_find] returns
    refers to a descriptor that exists, collects remotely, has an owner task
    and is in a tracing mode: [kcov_remote_start] never follows a dangling
    [remote->kcov]. *)
Theorem resolved_descriptor_is_live cfg s h r :
  reachable cfg s → kcov_remote_find cfg s h = Some r →
  ∃ kc t, kcovs s !! r_kcov r = Some kc ∧ k_remote kc = true
          ∧ k_t kc = Some t ∧ traces (k_mode kc).
Proof.
  intros Hok%reachable_ok [Hr _]%kcov_remote_find_registered.
  destruct (ok_registry _ _ Hok r Hr) as (kc & Hk & Hrem).
  destruct (ok_kcovs _ _ Hok _ _ Hk) as (Ht & Hown & _).
  specialize (Hown Hrem). destruct (k_t kc) as [t|] eqn:E; [|done].
  exists kc, t. split_and!; try done. by apply Ht.
Qed.

Lemma resolved_descriptor_is_live_witness :
  ∃ kc t, kcovs (remote_state lp64_config 4 1 4 [7]) !! 0%nat = Some kc
          ∧ k_remote kc = true ∧ k_t kc = Some t ∧ traces (k_mode kc).
Proof.
  apply (resolved_descriptor_is_live lp64_config _ 7
           {| r_handle := 7; r_kcov := 0 |}).
  - exists (remote_run lp64_config 4 1 4 [7]). vm_compute. reflexivity.
  - vm_compute. reflexivity.
Defined.

(** *** Registering and unregistering handles *)

Lemma remote_enable_loop_success cfg k rarg ok n i s s' :
  length (kcov_remote_map s) = HASH_SIZE →
  remote_enable_loop cfg k rarg ok n i s = Some (0, s') →
  length (take n (drop i (handles rarg))) = n
  ∧ NoDup (take n (drop i (handles rarg)))
  ∧ (∀ h, h ∈ take n (drop i (handles rarg)) → kcov_remote_find cfg s h = None)
  ∧ ∀ h, kcov_remote_find cfg s' h
         = if decide (h ∈ take n (drop i (handles rarg)))
           then Some {| r_handle := h; r_kcov := k |}
           else kcov_remote_find cfg s h.
Proof.
  revert i s. induction n as [|n IH]; intros i s Hlen H;
    cbn [remote_enable_loop] in H.
  - apply bind_Some in H as (s1 & Hg%kcov_get_map & [= <-]).
    rewrite take_0. split_and!; [done | constructor | |].
    + by intros h ?%elem_of_nil.
    + intros h. rewrite decide_False by apply not_elem_of_nil.
      by apply kcov_remote_find_ext.
  - apply bind_Some in H as (h & Hh & H).
    destruct (kcov_remote_find cfg s h) eqn:Hfind.
    { by apply bind_Some in H as (s1 & _ & [=]). }
    destruct (ok i); simpl in H;
      [|by apply bind_Some in H as (s1 & _ & [=])].
    apply IH in H as (Hl & Hnd & Hnone & Hfinal);
      [|simpl; unfold hash_add; by rewrite length_insert].
    rewrite (drop_S _ _ _ Hh). cbn [take].
    assert (h ∉ take n (drop (S i) (handles rarg))) as Hnotin.
    { intros Hin%Hnone.
      rewrite kcov_remote_find_add_eq in Hin by done. discriminate. }
    split_and!.
    + simpl. by rewrite Hl.
    + by apply list.NoDup_cons.
    + intros h' [-> | Hin]%elem_of_cons; [done|].
      rewrite <- (Hnone _ Hin). symmetry. apply kcov_remote_find_add_ne.
      intros ->. done.
    + intros h'. rewrite Hfinal.
      destruct (decide (h' = h)) as [-> | Hne].
      * rewrite decide_False by done. rewrite decide_True by left.
        by apply kcov_remote_find_add_eq.
      * rewrite kcov_remote_find_add_ne by done.
        destruct (decide (h' ∈ take n (drop (S i) (handles rarg)))) as [Hin | Hin].
        -- by rewrite decide_True by (by right).
        -- rewrite decide_False; [done|].
           by intros [? | ?]%elem_of_cons.
Qed.

(** X4. When [kcov_ioctl] returns 0 for KCOV_REMOTE_ENABLE on a table of
    [HASH_SIZE] buckets, [num_handles] lies in
    [0, KCOV_REMOTE_MAX_HANDLES], the request holds that many handles, they
    are pairwise distinct and none of them was registered before the call;
    after the call each of them resolves to the descriptor of the call, and
    every other handle resolves as before. *)
Theorem remote_enable_registers_handles cfg cur k arg uarg ok s s' :
  length (kcov_remote_map s) = HASH_SIZE →
  kcov_ioctl cfg cur k KCOV_REMOTE_ENABLE arg uarg ok s = Some (0, s') →
  0 ≤ num_handles uarg ≤ KCOV_REMOTE_MAX_HANDLES
  ∧ length (requested_handles uarg) = Z.to_nat (num_handles uarg)
  ∧ NoDup (requested_handles uarg)
  ∧ (∀ h, h ∈ requested_handles uarg → kcov_remote_find cfg s h = None)
  ∧ ∀ h, kcov_remote_find cfg s' h
         = if decide (h ∈ requested_handles uarg)
           then Some {| r_handle := h; r_kcov := k |}
           else kcov_remote_find cfg s h.
Proof.
  intros Hlen H. unfold kcov_ioctl in H. rewrite decide_True in H by done.
  case_decide as Hmax; [discriminate|].
  case_decide as Hshort; [discriminate|].
  case_decide as Hchk; [discriminate|]. cbn [num_handles unused] in Hchk.
  assert (num_handles uarg = uint (num_handles uarg)) as Hn.
  { destruct (decide (num_handles uarg = uint (num_handles uarg))); [done|].
    exfalso. apply Hchk. by left. }
  assert (0 ≤ num_handles uarg) as Hpos.
  { rewrite Hn. unfold uint, wrap. apply Z.mod_pos_bound. lia. }
  rewrite <- Hn in *.
  unfold kcov_ioctl_locked in H. apply bind_Some in H as (kc & Hk & H).
  case_decide as Hm; [discriminate|].
  apply bind_Some in H as (ts & Hts & H).
  case_decide as Hb; [discriminate|].
  cbn [trace_mode] in *.
  case_decide as Hneg; [injection H as E _; lia|].
  cbn [num_handles] in H.
  apply remote_enable_loop_success in H as (Hl & Hnd & Hnone & Hfinal);
    [|done].
  cbn [handles] in *. rewrite drop_0, take_take, Nat.min_id in *.
  fold (requested_handles uarg) in *.
  split_and!; [done | lia | done | done | |].
  - intros h Hin. rewrite <- (Hnone _ Hin). by apply kcov_remote_find_ext.
  - intros h. rewrite Hfinal. case_decide; [done|].
    by apply kcov_remote_find_ext.
Qed.

Lemma remote_enable_registers_handles_witness :
  kcov_remote_find lp64_config (remote_state lp64_config 4 0 4 [7; 23]) 23
    = Some {| r_handle := 23; r_kcov := 0 |}
  ∧ kcov_remote_find lp64_config (remote_state lp64_config 4 0 4 [7; 23]) 39
    = None.
Proof.
  destruct (remote_enable_registers_handles lp64_config 1 0 0
              (remote_arg_of 0 4 [7; 23]) always_ok
              (mapped_state lp64_config 4)
              (remote_state lp64_config 4 0 4 [7; 23]))
    as (_ & _ & _ & _ & Hfinal);
    [vm_compute; reflexivity | vm_compute; reflexivity |].
  split.
  - rewrite Hfinal. reflexivity.
  - rewrite Hfinal. vm_compute. reflexivity.
Defined.

Lemma hlist_find_filter k h l :
  NoDup (r_handle <$> l) →
  hlist_find h (filter (λ r, r_kcov r ≠ k) l)
  = match hlist_find h l with
    | Some r => if decide (r_kcov r = k) then None else Some r
    | None => None
    end.
Proof.
  induction l as [|r0 l IH]; [done|].
  intros [Hnotin Hnd]%list.NoDup_cons. cbn [hlist_find].
  rewrite filter_cons. destruct (decide (r_handle r0 = h)) as [E | E].
  - destruct (decide (r_kcov r0 = k)) as [Ek | Ek].
    + rewrite decide_False by (by intros ?).
      apply hlist_find_None. intros Hin. apply Hnotin. rewrite E.
      apply list_elem_of_fmap in Hin as (r & -> & [_ Hr]%list_elem_of_filter).
      by apply list_elem_of_fmap_2.
    + rewrite decide_True by done. cbn [hlist_find]. by rewrite decide_True.
  - case_decide; [cbn [hlist_find]; rewrite decide_False by done|]; by apply IH.
Qed.

Lemma kcov_remote_find_purge cfg k s s' h :
  registry_ok cfg s → kcov_remote_map s' = purge k (kcov_remote_map s) →
  kcov_remote_find cfg s' h
  = match kcov_remote_find cfg s h with
    | Some r => if decide (r_kcov r = k) then None else Some r
    | None => None
    end.
Proof.
  intros Hok E. unfold kcov_remote_find. rewrite E. unfold purge.
  rewrite list_lookup_fmap.
  destruct (kcov_remote_map s !! bucket_of cfg h) as [l|] eqn:Hl; [|done].
  simpl. apply hlist_find_filter, (Hok _ _ Hl).
Qed.

Lemma disable_purges cfg cur k arg rarg ok s s' :
  state_ok cfg s →
  kcov_ioctl_locked cfg cur k KCOV_DISABLE arg rarg ok s = Some (0, s') →
  kcov_remote_map s' = purge k (kcov_remote_map s).
Proof.
  intros Hok H. unfold kcov_ioctl_locked in H.
  apply bind_Some in H as (kc & Hk & H).
  apply bind_Some in H as (ts & Hts & H).
  case_decide; [discriminate|]. case_decide; [discriminate|].
  apply bind_Some in H as (s1 & [Hik Hi]%kcov_task_init_kcovs & H).
  apply bind_Some in H as (s2 & Hr & H).
  apply bind_Some in H as (s3 & Hp%kcov_put_map & [= <-]).
  assert (kcov_remote_map s2 = purge k (kcov_remote_map s)) as E.
  { destruct (k_remote kc) eqn:Hrem.
    - apply kcov_remote_reset_map in Hr. by rewrite Hr, Hi.
    - apply kcov_reset_map in Hr. rewrite Hr, Hi. symmetry. apply purge_id.
      eapply no_entries_unowned; [done|]. intros kc0. rewrite Hk.
      by intros [= <-]. }
  destruct Hp as [-> | ->]; [done|]. rewrite E. apply purge_purge.
Qed.

(** X5. After a KCOV_DISABLE that returns 0 in a reachable state, a
    handle that resolved to the descriptor of the call no longer resolves,
    and every other handle resolves as before. *)
Theorem disable_unregisters_handles cfg cur k arg rarg ok s s' h :
  reachable cfg s →
  kcov_ioctl_locked cfg cur k KCOV_DISABLE arg rarg ok s = Some (0, s') →
  kcov_remote_find cfg s' h
  = match kcov_remote_find cfg s h with
    | Some r => if decide (r_kcov r = k) then None else Some r
    | None => None
    end.
Proof.
  intros Hreach H. apply kcov_remote_find_purge.
  - by apply reachable_registry.
  - eapply disable_purges; [by apply reachable_ok | exact H].
Qed.

Lemma disable_unregisters_handles_witness :
  ∃ s', kcov_ioctl_locked lp64_config 1 0 KCOV_DISABLE 0 no_remote_arg
          always_ok (remote_state lp64_config 4 0 4 [7; 23]) = Some (0, s')
        ∧ kcov_remote_find lp64_config s' 23 = None.
Proof.
  destruct (kcov_ioctl_locked lp64_config 1 0 KCOV_DISABLE 0 no_remote_arg
              always_ok (remote_state lp64_config 4 0 4 [7; 23]))
    as [[r s']|] eqn:H; [|vm_compute in H; discriminate].
  assert (r = 0) as -> by (vm_compute in H; by injection H as <- _).
  exists s'. split; [done|].
  rewrite (disable_unregisters_handles lp64_config 1 0 0 no_remote_arg
             always_ok (remote_state lp64_config 4 0 4 [7; 23]) s' 23);
    [vm_compute; reflexivity | | exact H].
  exists (remote_run lp64_config 4 0 4 [7; 23]). vm_compute. reflexivity.
Defined.

(** ** The free list of scratch areas *)

(** X6. [kcov_remote_area_get] is first fit: the node it returns has the
    size asked for, no node before it in the list has, and the list it
    leaves is the old one without that node, in the same order; when it
    returns nothing, no node of the list has the size. After
    [kcov_remote_area_put area size] it returns that very node and leaves
    the list as it was before the put. *)
Theorem kcov_remote_area_get_first_fit size l :
  match kcov_remote_area_get size l with
  | Some (a, rest) =>
      ra_size a = size
      ∧ ∃ l1 l2, l = l1 ++ a :: l2 ∧ rest = l1 ++ l2
                 ∧ Forall (λ x, ra_size x ≠ size) l1
  | None => Forall (λ x, ra_size x ≠ size) l
  end
  ∧ ∀ area, kcov_remote_area_get size (kcov_remote_area_put area size l)
            = Some ({| ra_area := area; ra_size := size |}, l).
Proof.
  split.
  - induction l as [|a l IH]; cbn [kcov_remote_area_get]; [constructor|].
    case_decide as Hs.
    + split; [done|]. exists [], l. split_and!; [done | done | constructor].
    + destruct (kcov_remote_area_get size l) as [[r rest]|]; simpl.
      * destruct IH as (Hr & l1 & l2 & -> & -> & Hl1).
        split; [done|]. exists (a :: l1), l2. split_and!; [done | done |].
        by constructor.
      * by constructor.
  - intros area. unfold kcov_remote_area_put. cbn [kcov_remote_area_get].
    by rewrite decide_True.
Qed.

(** ** The sinks *)

(** X7. [canonicalize_ip] undoes the slide of the kernel image: an address
    [a] of the [unsigned long] range, moved by [kaslr_offset()] when
    CONFIG_RANDOMIZE_BASE is set and not moved otherwise, canonicalizes to
    [a]; and two addresses of that range with the same canonical address
    are the same address. *)
Theorem canonicalize_ip_removes_slide cfg a b :
  0 ≤ a < 2 ^ (8 * word_size cfg) → 0 ≤ b < 2 ^ (8 * word_size cfg) →
  canonicalize_ip cfg
    (a + (if CONFIG_RANDOMIZE_BASE cfg then kaslr_offset cfg else 0)) = a
  ∧ (canonicalize_ip cfg a = canonicalize_ip cfg b → a = b).
Proof.
  intros Ha Hb. unfold canonicalize_ip, ul, ulong, wrap.
  fold (word_size cfg).
  assert (0 < 2 ^ (8 * word_size cfg)) as Hpos by lia.
  set (M := 2 ^ (8 * word_size cfg)) in *.
  destruct (CONFIG_RANDOMIZE_BASE cfg).
  - split.
    + rewrite Zminus_mod_idemp_l.
      replace (a + kaslr_offset cfg - kaslr_offset cfg) with a by lia.
      by apply Z.mod_small.
    + rewrite (Z.mod_small a M), (Z.mod_small b M) by done. intros E.
      assert ((a - b) mod M = 0) as Hz.
      { replace (a - b) with ((a - kaslr_offset cfg) - (b - kaslr_offset cfg))
          by lia.
        rewrite Zminus_mod, E, Z.sub_diag. by apply Z.mod_0_l, Z.neq_sym, Z.lt_neq. }
      pose proof (Z.div_mod (a - b) M ltac:(lia)) as Hd. rewrite Hz in Hd.
      generalize dependent ((a - b) / M). intros q Hq.
      assert (-1 < q < 1) by (split; nia). nia.
  - rewrite Z.add_0_r, (Z.mod_small a M), (Z.mod_small b M) by done. done.
Qed.

Lemma canonicalize_ip_removes_slide_witness :
  canonicalize_ip lp64_config (5000 + 4096) = 5000.
Proof.
  apply (canonicalize_ip_removes_slide lp64_config 5000 5000);
    vm_compute; split; (discriminate || reflexivity).
Defined.

(** X8. The PC sink stays inside its area whatever the count word holds
    (user space can write it). For a task whose area holds
    [kcov_size >= 1] words, the call returns, the area keeps its length,
    and either the area is as it was, or its count is now some
    [pos < kcov_size] and, when [pos > 0], word [pos] holds the canonical
    PC. *)
Theorem trace_pc_stays_in_bounds cfg in_task cur ip s ts a buf :
  tasks s !! cur = Some ts → ts_kcov_area ts = Some a → vmem s !! a = Some buf →
  Z.of_nat (length buf) = ts_kcov_size ts * word_size cfg →
  1 ≤ ts_kcov_size ts →
  ∃ buf', __sanitizer_cov_trace_pc cfg in_task cur ip s
          = Some (set_vmem <[a := buf']> s)
    ∧ length buf' = length buf
    ∧ (buf' = buf
       ∨ ∃ pos, 0 ≤ pos < ts_kcov_size ts
                ∧ load (word_size cfg) buf' 0 = Some pos
                ∧ (0 < pos →
                   load (word_size cfg) buf' pos = Some (canonicalize_ip cfg ip))).
Proof.
  intros Hts Ha Hbuf Hlen Hsz. pose proof (word_size_pos cfg) as Hw.
  unfold __sanitizer_cov_trace_pc. rewrite Hts. cbn [mbind option_bind].
  destruct (check_kcov_mode _ _ _); cbn [negb];
    [|exists buf; by rewrite set_vmem_id by done; auto].
  rewrite Ha. cbn [mbind option_bind]. rewrite Hbuf. cbn [mbind option_bind].
  destruct (load (word_size cfg) buf 0) as [count|] eqn:Hc;
    [|unfold load in Hc; rewrite decide_True in Hc by nia; discriminate].
  cbn [mbind option_bind].
  pose proof (ul_range cfg (count + 1)) as Hpos.
  set (pos := ul cfg (count + 1)) in *.
  case_decide as Hlt;
    [|exists buf; by rewrite set_vmem_id by done; auto].
  rewrite store_Some by nia. cbn [mbind option_bind].
  set (buf1 := splice _ _ _).
  assert (store (word_size cfg) buf pos (canonicalize_ip cfg ip) = Some buf1)
    as Hs1 by (apply store_Some; nia).
  pose proof (length_store _ _ _ _ _ Hw Hs1) as Hl1.
  rewrite store_Some by (rewrite ?Hl1; nia). cbn [mbind option_bind].
  set (buf2 := splice _ _ _).
  assert (store (word_size cfg) buf1 0 pos = Some buf2)
    as Hs2 by (apply store_Some; rewrite ?Hl1; nia).
  pose proof (length_store _ _ _ _ _ Hw Hs2) as Hl2.
  exists buf2. split_and!; [done | congruence |].
  right. exists pos. split_and!; [lia | lia | |].
  - rewrite (load_store_eq _ _ _ _ _ Hw Hs2). f_equal.
    apply Z.mod_small. lia.
  - intros Hp. rewrite (load_store_ne _ _ _ _ _ _ Hw Hs2) by lia.
    rewrite (load_store_eq _ _ _ _ _ Hw Hs1). f_equal.
    apply Z.mod_small, canonicalize_ip_range.
Qed.

Lemma trace_pc_stays_in_bounds_witness :
  ∃ buf', __sanitizer_cov_trace_pc lp64_config true 1 5000 scribbled_pc_state
          = Some (set_vmem <[0%nat := buf']> scribbled_pc_state)
    ∧ length buf' = 32%nat.
Proof.
  destruct (trace_pc_stays_in_bounds lp64_config true 1 5000 scribbled_pc_state
              {| ts_kcov_mode := KCOV_MODE_TRACE_PC; ts_kcov_size := 4;
                 ts_kcov_area := Some 0%nat; ts_kcov := Some 0%nat;
                 ts_kcov_sequence := 1 |} 0%nat
              (le_encode 8 (2 ^ 64 - 1) ++ replicate 24 0))
    as (buf' & Hrun & Hlen & _);
    [vm_compute; reflexivity | reflexivity | vm_compute; reflexivity
    | vm_compute; reflexivity | vm_compute; discriminate |].
  exists buf'. split; [exact Hrun | exact Hlen].
Defined.

(** X9. [write_comp_data] for a count below [2^59 - 1], where no product
    of its capacity test wraps: if
    [(1 + (count + 1) * 4) * 8 <= kcov_size * sizeof(unsigned long)] the
    record [(type, arg1, arg2, canonical ip)] is stored in the 64-bit words
    [1 + 4 * count .. 1 + 4 * count + 3], the count becomes [count + 1] and
    no other word changes; otherwise the state is left as it was. *)
Theorem write_comp_data_fits_or_drops
    cfg cur type arg1 arg2 ip s ts a buf count :
  tasks s !! cur = Some ts → ts_kcov_mode ts = KCOV_MODE_TRACE_CMP →
  ts_kcov_area ts = Some a → vmem s !! a = Some buf →
  Z.of_nat (length buf) = ts_kcov_size ts * word_size cfg →
  ts_kcov_size ts * word_size cfg < 2 ^ (8 * word_size cfg) →
  load sizeof_u64 buf 0 = Some count → 0 ≤ count < 2 ^ 59 - 1 →
  if decide ((1 + (count + 1) * 4) * 8 ≤ ts_kcov_size ts * word_size cfg) then
    ∃ buf',
      write_comp_data cfg true cur type arg1 arg2 ip s
        = Some (set_vmem <[a := buf']> s)
      ∧ length buf' = length buf
      ∧ load sizeof_u64 buf' 0 = Some (count + 1)
      ∧ load sizeof_u64 buf' (1 + 4 * count) = Some (u64 type)
      ∧ load sizeof_u64 buf' (1 + 4 * count + 1) = Some (u64 arg1)
      ∧ load sizeof_u64 buf' (1 + 4 * count + 2) = Some (u64 arg2)
      ∧ load sizeof_u64 buf' (1 + 4 * count + 3) = Some (canonicalize_ip cfg ip)
      ∧ ∀ j, j ≠ 0 → ¬ (1 + 4 * count ≤ j ≤ 1 + 4 * count + 3) →
          load sizeof_u64 buf' j = load sizeof_u64 buf j
  else write_comp_data cfg true cur type arg1 arg2 ip s = Some s.
Proof.
  intros Hts Hmode Ha Hbuf Hlen Hsz Hc Hcount. case_decide as Hfit.
  - eapply write_comp_data_appends; eauto. lia.
  - eapply write_comp_data_drops; eauto. lia.
Qed.

Lemma write_comp_data_fits_or_drops_witness :
  (∃ buf',
     write_comp_data lp64_config true 1 (KCOV_CMP_SIZE 2) 10 11 5000
         (enabled_state lp64_config 8 1)
       = Some (set_vmem <[0%nat := buf']> (enabled_state lp64_config 8 1))
     ∧ load 8 buf' 0 = Some 1 ∧ load 8 buf' 2 = Some 10)
  ∧ write_comp_data lp64_config true 1 (KCOV_CMP_SIZE 2) 10 11 5000
        (enabled_state lp64_config 4 1)
    = Some (enabled_state lp64_config 4 1).
Proof.
  split.
  - pose proof (write_comp_data_fits_or_drops lp64_config 1 (KCOV_CMP_SIZE 2)
                  10 11 5000 (enabled_state lp64_config 8 1)
                  {| ts_kcov_mode := KCOV_MODE_TRACE_CMP; ts_kcov_size := 8;
                     ts_kcov_area := Some 0%nat; ts_kcov := Some 0%nat;
                     ts_kcov_sequence := 1 |} 0%nat (replicate 64 0) 0) as H.
    rewrite decide_True in H by (vm_compute; discriminate).
    destruct H as (buf' & Hrun & _ & Hcount & _ & Harg1 & _);
      [vm_compute; reflexivity | reflexivity | reflexivity
      | vm_compute; reflexivity | vm_compute; reflexivity
      | vm_compute; reflexivity | vm_compute; reflexivity
      | vm_compute; split; [discriminate | reflexivity] |].
    exists buf'. split_and!; [exact Hrun | exact Hcount | exact Harg1].
  - pose proof (write_comp_data_fits_or_drops lp64_config 1 (KCOV_CMP_SIZE 2)
                  10 11 5000 (enabled_state lp64_config 4 1)
                  {| ts_kcov_mode := KCOV_MODE_TRACE_CMP; ts_kcov_size := 4;
                     ts_kcov_area := Some 0%nat; ts_kcov := Some 0%nat;
                     ts_kcov_sequence := 1 |} 0%nat (replicate 32 0) 0) as H.
    rewrite decide_False in H by (vm_compute; intros Hle; by apply Hle).
    apply H;
      [vm_compute; reflexivity | reflexivity | reflexivity
      | vm_compute; reflexivity | vm_compute; reflexivity
      | vm_compute; reflexivity | vm_compute; reflexivity
      | vm_compute; split; [discriminate | reflexivity]].
Defined.

(** X10. Comparison sinks on an area whose count is 0, no more of them
    than the area has room for: the run succeeds, the count is the number of
    calls, and record [i] holds the type, the two operands and the canonical
    return address of call [i]. *)
Theorem cmp_sinks_record_in_order cfg cur s ts a buf cs :
  tasks s !! cur = Some ts → ts_kcov_mode ts = KCOV_MODE_TRACE_CMP →
  ts_kcov_area ts = Some a → vmem s !! a = Some buf →
  Z.of_nat (length buf) = ts_kcov_size ts * word_size cfg →
  ts_kcov_size ts * word_size cfg < 2 ^ (8 * word_size cfg) →
  load sizeof_u64 buf 0 = Some 0 →
  (1 + Z.of_nat (length cs) * 4) * 8 ≤ ts_kcov_size ts * word_size cfg →
  Forall (λ c, is_Some (cmp_record c)) cs →
  ∃ buf',
    run_sinks cfg true cur cs s = Some (set_vmem <[a := buf']> s)
    ∧ load sizeof_u64 buf' 0 = Some (Z.of_nat (length cs))
    ∧ ∀ (i : nat) c type arg1 arg2 ip,
        cs !! i = Some c → cmp_record c = Some (type, arg1, arg2, ip) →
        load sizeof_u64 buf' (1 + 4 * Z.of_nat i) = Some (u64 type)
        ∧ load sizeof_u64 buf' (1 + 4 * Z.of_nat i + 1) = Some (u64 arg1)
        ∧ load sizeof_u64 buf' (1 + 4 * Z.of_nat i + 2) = Some (u64 arg2)
        ∧ load sizeof_u64 buf' (1 + 4 * Z.of_nat i + 3)
          = Some (canonicalize_ip cfg ip).
Proof.
  intros Hts Hmode Ha Hbuf Hlen Hsz Hc Hfit Hcs.
  destruct (run_cmp_sinks cfg cur ts a cs Hmode Ha Hsz s buf 0
              Hts Hbuf Hlen Hc ltac:(lia) ltac:(lia) Hcs)
    as (buf' & Hrun & _ & Hcount & Hrec & _).
  exists buf'. split_and!; [done | by rewrite Hcount |].
  intros i c type arg1 arg2 ip Hi Hr.
  specialize (Hrec i c type arg1 arg2 ip Hi Hr). cbn zeta in Hrec.
  by rewrite Z.add_0_l in Hrec.
Qed.

Lemma cmp_sinks_record_in_order_witness :
  ∃ buf',
    run_sinks lp64_config true 1
        [trace_cmp4 10 11 5000; trace_const_cmp1 3 300 6000]
        (enabled_state lp64_config 16 1)
      = Some (set_vmem <[0%nat := buf']> (enabled_state lp64_config 16 1))
    ∧ load 8 buf' 0 = Some 2
    ∧ load 8 buf' 5 = Some 1 ∧ load 8 buf' 7 = Some 44.
Proof.
  destruct (cmp_sinks_record_in_order lp64_config 1
              (enabled_state lp64_config 16 1)
              {| ts_kcov_mode := KCOV_MODE_TRACE_CMP; ts_kcov_size := 16;
                 ts_kcov_area := Some 0%nat; ts_kcov := Some 0%nat;
                 ts_kcov_sequence := 1 |} 0%nat (replicate 128 0)
              [trace_cmp4 10 11 5000; trace_const_cmp1 3 300 6000])
    as (buf' & Hrun & Hcount & Hrec);
    [vm_compute; reflexivity | reflexivity | reflexivity
    | vm_compute; reflexivity | vm_compute; reflexivity
    | vm_compute; reflexivity | vm_compute; reflexivity
    | vm_compute; discriminate
    | repeat constructor; eexists; reflexivity |].
  destruct (Hrec 1%nat (trace_const_cmp1 3 300 6000) _ _ _ _ eq_refl eq_refl)
    as (Htype & _ & Harg2 & _).
  exists buf'. split_and!; [exact Hrun | exact Hcount | exact Htype | exact Harg2].
Defined.

(** The loop of [__sanitizer_cov_trace_switch] as a run of sinks. *)
Lemma trace_switch_loop_sinks
    cfg in_task cur type val c0 c1 labels ip (mk : Z → sink_call) n :
  (∀ c s, c ∈ labels →
     run_sink cfg in_task cur (mk c) s
     = write_comp_data cfg in_task cur type c val ip s) →
  ∀ (i : nat) s, (i + n ≤ length labels)%nat →
    trace_switch_loop cfg in_task cur type val (c0 :: c1 :: labels) ip n
                      (Z.of_nat i) s
    = run_sinks cfg in_task cur (mk <$> take n (drop i labels)) s.
Proof.
  intros Hmk. induction n as [|n IH]; intros i s Hlen; [done|].
  cbn [trace_switch_loop].
  replace (Z.to_nat (Z.of_nat i + 2)) with (S (S i)) by lia.
  destruct (lookup_lt_is_Some_2 labels i) as [c Hc]; [lia|].
  change ((c0 :: c1 :: labels) !! S (S i)) with (labels !! i).
  rewrite Hc, (drop_S _ _ _ Hc). cbn [take mbind option_bind].
  rewrite fmap_cons. cbn [run_sinks].
  rewrite Hmk by (by eapply list_elem_of_lookup_2).
  destruct (write_comp_data _ _ _ _ _ _ _ _) as [s1|]; [|done].
  cbn [mbind option_bind].
  replace (Z.of_nat i + 1) with (Z.of_nat (S i)) by lia.
  apply IH. lia.
Qed.

(** X11. [__sanitizer_cov_trace_switch] on a table of [count] labels of
    [size] bits, for [size] one of 8, 16, 32, 64 and a value and labels
    that fit in [size] bits, does what [count] calls of the
    constant-comparison sink of that width do, one per label in table order,
    with the label as first and the switched value as second operand; for
    any other [size] it leaves the state as it was. *)
Theorem trace_switch_records_cases
    cfg in_task cur val count size labels ip s :
  0 ≤ count ≤ Z.of_nat (length labels) →
  (size = 8 ∨ size = 16 ∨ size = 32 ∨ size = 64 →
   0 ≤ val < 2 ^ size → Forall (λ c, 0 ≤ c < 2 ^ size) labels →
   run_sink cfg in_task cur (trace_switch val (count :: size :: labels) ip) s
   = run_sinks cfg in_task cur
       (switch_case_sink size val ip <$> take (Z.to_nat count) labels) s)
  ∧ (¬ (size = 8 ∨ size = 16 ∨ size = 32 ∨ size = 64) →
     run_sink cfg in_task cur (trace_switch val (count :: size :: labels) ip) s
     = Some s).
Proof.
  intros Hcount. cbn [run_sink]. unfold __sanitizer_cov_trace_switch.
  cbn [lookup list_lookup mbind option_bind]. split.
  - intros Hsize Hval Hlabels.
    assert (∀ c, c ∈ labels → c mod 2 ^ size = c) as Hc.
    { intros c Hin. apply Z.mod_small.
      by apply (proj1 (list.Forall_forall _ _) Hlabels). }
    assert (val mod 2 ^ size = val) as Hv by (by apply Z.mod_small).
    assert (∀ type,
              (∀ c s0, c ∈ labels →
                 run_sink cfg in_task cur (switch_case_sink size val ip c) s0
                 = write_comp_data cfg in_task cur type c val ip s0) →
              trace_switch_loop cfg in_task cur type val
                (count :: size :: labels) ip (Z.to_nat count) 0 s
              = run_sinks cfg in_task cur
                  (switch_case_sink size val ip <$> take (Z.to_nat count) labels)
                  s) as Hloop.
    { intros type Hmk.
      apply (trace_switch_loop_sinks _ _ _ _ _ _ _ _ _ _ _ Hmk 0%nat). lia. }
    destruct Hsize as [-> | [-> | [-> | ->]]];
      repeat (rewrite decide_False by discriminate);
      rewrite decide_True by done;
      apply Hloop; intros c s0 Hin; unfold switch_case_sink;
      repeat (rewrite decide_False by discriminate);
      rewrite ?decide_True by done; cbn [run_sink]; unfold wrap;
      rewrite (Hc c Hin), Hv; reflexivity.
  - intros Hsize. repeat case_decide; try done; exfalso; apply Hsize; auto.
Qed.

Lemma trace_switch_records_cases_witness :
  run_sink lp64_config true 1 (trace_switch 3 [2; 32; 10; 11] 5000)
    (enabled_state lp64_config 16 1)
  = run_sinks lp64_config true 1
      [trace_const_cmp4 10 3 5000; trace_const_cmp4 11 3 5000]
      (enabled_state lp64_config 16 1).
Proof.
  apply (trace_switch_records_cases lp64_config true 1 3 2 32 [10; 11] 5000).
  - simpl. lia.
  - auto.
  - lia.
  - repeat constructor; lia.
Defined.

(** *** What a sink leaves alone *)

Lemma trace_pc_frame_len cfg in_task cur ip s s' ts :
  tasks s !! cur = Some ts →
  __sanitizer_cov_trace_pc cfg in_task cur ip s = Some s' →
  s' = s
  ∨ ∃ a buf buf', ts_kcov_area ts = Some a ∧ vmem s !! a = Some buf
                  ∧ length buf' = length buf ∧ s' = set_vmem <[a := buf']> s.
Proof.
  intros Hts H. pose proof (word_size_pos cfg) as Hw.
  unfold __sanitizer_cov_trace_pc in H.
  rewrite Hts in H. simpl in H.
  destruct (check_kcov_mode _ _ _); simpl in H; [|left; congruence].
  apply bind_Some in H as (a & Ha & H).
  apply bind_Some in H as (buf & Hbuf & H).
  apply bind_Some in H as (count & Hc & H).
  case_decide; [|left; congruence].
  apply bind_Some in H as (b1 & Hs1%length_store & H); [|done].
  apply bind_Some in H as (b2 & Hs2%length_store & [= <-]); [|done].
  right. exists a, buf, b2. split_and!; [done | done | congruence | done].
Qed.

Lemma write_comp_data_frame_len cfg in_task cur type arg1 arg2 ip s s' ts :
  tasks s !! cur = Some ts →
  write_comp_data cfg in_task cur type arg1 arg2 ip s = Some s' →
  s' = s
  ∨ ∃ a buf buf', ts_kcov_area ts = Some a ∧ vmem s !! a = Some buf
                  ∧ length buf' = length buf ∧ s' = set_vmem <[a := buf']> s.
Proof.
  intros Hts H. assert (0 < sizeof_u64) as Hw by done.
  unfold write_comp_data in H.
  rewrite Hts in H. simpl in H.
  destruct (check_kcov_mode _ _ _); simpl in H; [|left; congruence].
  apply bind_Some in H as (a & Ha & H).
  apply bind_Some in H as (buf & Hbuf & H).
  apply bind_Some in H as (count & Hc & H).
  case_decide; [|left; congruence].
  apply bind_Some in H as (b1 & Hs1%length_store & H); [|done].
  apply bind_Some in H as (b2 & Hs2%length_store & H); [|done].
  apply bind_Some in H as (b3 & Hs3%length_store & H); [|done].
  apply bind_Some in H as (b4 & Hs4%length_store & H); [|done].
  apply bind_Some in H as (b5 & Hs5%length_store & [= <-]); [|done].
  right. exists a, buf, b5. split_and!; [done | done | congruence | done].
Qed.

Lemma trace_switch_loop_frame_len
    cfg in_task cur type val cases ip n i s s' ts :
  tasks s !! cur = Some ts →
  trace_switch_loop cfg in_task cur type val cases ip n i s = Some s' →
  s' = s
  ∨ ∃ a buf buf', ts_kcov_area ts = Some a ∧ vmem s !! a = Some buf
                  ∧ length buf' = length buf ∧ s' = set_vmem <[a := buf']> s.
Proof.
  revert i s. induction n as [|n IH]; intros i s Hts H;
    cbn [trace_switch_loop] in H.
  - left. congruence.
  - apply bind_Some in H as (c & _ & H).
    apply bind_Some in H as (s1 & H1 & H).
    destruct (write_comp_data_frame_len _ _ _ _ _ _ _ _ _ _ Hts H1)
      as [-> | (a & buf & buf1 & Ha & Hbuf & Hl1 & ->)]; [eauto|].
    destruct (IH _ (set_vmem <[a := buf1]> s) Hts H)
      as [-> | (a' & buf1' & buf2 & Ha' & Hbuf1 & Hl2 & ->)].
    + right. by exists a, buf, buf1.
    + assert (a' = a) as -> by congruence.
      simpl in Hbuf1. rewrite lookup_insert_eq in Hbuf1. injection Hbuf1 as <-.
      right. exists a, buf, buf2. split_and!; [done | done | congruence |].
      apply set_vmem_insert_twice.
Qed.

Lemma run_sink_frame_len cfg in_task cur c s s' ts :
  tasks s !! cur = Some ts →
  run_sink cfg in_task cur c s = Some s' →
  s' = s
  ∨ ∃ a buf buf', ts_kcov_area ts = Some a ∧ vmem s !! a = Some buf
                  ∧ length buf' = length buf ∧ s' = set_vmem <[a := buf']> s.
Proof.
  intros Hts H. destruct c; simpl in H;
    eauto using trace_pc_frame_len, write_comp_data_frame_len.
  unfold __sanitizer_cov_trace_switch in H.
  apply bind_Some in H as (count & _ & H).
  apply bind_Some in H as (size & _ & H).
  repeat case_decide; eauto using trace_switch_loop_frame_len.
  left. congruence.
Qed.

(** X12. A sink that returns has changed no descriptor, no task field,
    neither the hash table nor the free list, and no area other than the
    one the calling task points to; it has allocated and freed nothing, and
    every area has the length it had. *)
Theorem sink_writes_own_area_only cfg in_task cur c s s' ts :
  tasks s !! cur = Some ts → run_sink cfg in_task cur c s = Some s' →
  kcovs s' = kcovs s ∧ tasks s' = tasks s
  ∧ kcov_remote_map s' = kcov_remote_map s
  ∧ kcov_remote_areas s' = kcov_remote_areas s
  ∧ (∀ a, ts_kcov_area ts ≠ Some a → vmem s' !! a = vmem s !! a)
  ∧ (∀ a, length <$> vmem s' !! a = length <$> vmem s !! a).
Proof.
  intros Hts H.
  destruct (run_sink_frame_len _ _ _ _ _ _ _ Hts H)
    as [-> | (a & buf & buf' & Ha & Hbuf & Hlen & ->)]; [done|].
  split_and!; try done.
  - intros a' Hne. simpl. apply lookup_insert_ne. congruence.
  - intros a'. simpl. destruct (decide (a' = a)) as [-> | Hne].
    + rewrite lookup_insert_eq, Hbuf. simpl. by rewrite Hlen.
    + by rewrite lookup_insert_ne.
Qed.

Lemma sink_writes_own_area_only_witness :
  ∃ s', run_sink lp64_config true 1 (trace_cmp4 10 11 5000)
          (enabled_state lp64_config 8 1) = Some s'
        ∧ kcovs s' = kcovs (enabled_state lp64_config 8 1)
        ∧ length <$> vmem s' !! 0%nat = Some 64%nat.
Proof.
  destruct (run_sink lp64_config true 1 (trace_cmp4 10 11 5000)
              (enabled_state lp64_config 8 1)) as [s'|] eqn:H;
    [|vm_compute in H; discriminate].
  assert (tasks (enabled_state lp64_config 8 1) !! 1%nat
          = Some {| ts_kcov_mode := KCOV_MODE_TRACE_CMP; ts_kcov_size := 8;
                    ts_kcov_area := Some 0%nat; ts_kcov := Some 0%nat;
                    ts_kcov_sequence := 1 |}) as Hts
    by (vm_compute; reflexivity).
  destruct (sink_writes_own_area_only _ _ _ _ _ _ _ Hts H)
    as (Hk & _ & _ & _ & _ & Hlen).
  exists s'. split_and!; [done | exact Hk |].
  rewrite Hlen. vm_compute. reflexivity.
Defined.

(** ** A destination whose count is out of range *)

(** X13. [kcov_move_area] leaves alone a destination whose count word
    exceeds the number of records the area can hold (user space can write
    it so): the destination is returned byte for byte, whatever the source
    holds. *)
Theorem kcov_move_area_full_destination cfg mode dst c src d sn :
  traces mode → 2 ≤ c < 2 ^ 32 →
  load (count_size cfg mode) dst 0 = Some d →
  load (count_size cfg mode) src 0 = Some sn →
  capacity cfg mode c < d →
  kcov_move_area cfg mode dst c src = Some dst.
Proof.
  intros Hmode Hc Hd Hsn Hcap. rewrite kcov_move_area_eq by done.
  unfold move_entries. rewrite Hd, Hsn. cbn [mbind option_bind].
  rewrite decide_True; [done|].
  pose proof (word_size_cases cfg) as Hw.
  assert (count_size cfg mode ≤ c * word_size cfg) as Hcs.
  { destruct (count_size_cases cfg mode) as [-> | ->]; lia. }
  rewrite (u64_small (c * word_size cfg)) by lia.
  rewrite u64_small by (destruct (count_size_cases cfg mode); lia).
  unfold capacity in Hcap. fold (word_size cfg) in Hcap. lia.
Qed.

Lemma kcov_move_area_full_destination_witness :
  kcov_move_area lp64_config KCOV_MODE_TRACE_PC
    (pc_area 9 [100; 200; 300]) 4 (pc_area 1 [400])
  = Some (pc_area 9 [100; 200; 300]).
Proof.
  apply (kcov_move_area_full_destination lp64_config KCOV_MODE_TRACE_PC
           _ 4 _ 9 1);
    [by left | lia | vm_compute; reflexivity | vm_compute; reflexivity
    | vm_compute; reflexivity].
Defined.

(** ** Opening, sizing and mapping *)

(** X14. KCOV_INIT_TRACE takes effect once. When it returns 0, the
    descriptor was in DISABLED, the argument is at least 2, the area of
    [arg * sizeof(unsigned long)] bytes fits in [INT_MAX], the call has set
    the size to [arg] and the mode to INIT and changed nothing else; and a
    further KCOV_INIT_TRACE on that descriptor, by any task and with any
    argument, returns -EBUSY and changes nothing. *)
Theorem init_trace_once cfg cur k arg rarg ok s s1 :
  kcov_ioctl_locked cfg cur k KCOV_INIT_TRACE arg rarg ok s = Some (0, s1) →
  2 ≤ arg ∧ arg * word_size cfg ≤ INT_MAX
  ∧ (∃ kc, kcovs s !! k = Some kc ∧ k_mode kc = KCOV_MODE_DISABLED
           ∧ s1 = set_kcovs <[k := set_k_size_mode arg KCOV_MODE_INIT kc]> s)
  ∧ ∀ cur' arg' rarg' ok',
      kcov_ioctl_locked cfg cur' k KCOV_INIT_TRACE arg' rarg' ok' s1
      = Some (- EBUSY, s1).
Proof.
  intros H. unfold kcov_ioctl_locked in H.
  apply bind_Some in H as (kc & Hk & H).
  case_decide as Hm; [discriminate|]. case_decide as Hsz; [discriminate|].
  injection H as <-.
  pose proof (word_size_cases cfg) as Hw.
  assert (arg * word_size cfg ≤ INT_MAX) as Hfit.
  { assert (arg ≤ INT_MAX / word_size cfg) as Hle by lia.
    pose proof (Z.mul_div_le INT_MAX (word_size cfg) ltac:(lia)). nia. }
  assert (uint arg = arg) as ->.
  { unfold uint, wrap. apply Z.mod_small. unfold INT_MAX in Hfit. lia. }
  split_and!; [lia | done | |].
  - exists kc. split_and!; [done | | done].
    by destruct (decide (k_mode kc = KCOV_MODE_DISABLED)).
  - intros cur' arg' rarg' ok'. unfold kcov_ioctl_locked.
    cbn [kcovs set_kcovs]. rewrite lookup_insert_eq. cbn [mbind option_bind].
    by rewrite decide_True.
Qed.

Lemma init_trace_once_witness :
  kcov_ioctl_locked lp64_config 2 0 KCOV_INIT_TRACE 16 no_remote_arg always_ok
    (state_after lp64_config
       [ev_fork 1; ev_fork 2; ev_open true;
        ev_ioctl 1 0 KCOV_INIT_TRACE 4 no_remote_arg always_ok])
  = Some (- EBUSY,
          state_after lp64_config
            [ev_fork 1; ev_fork 2; ev_open true;
             ev_ioctl 1 0 KCOV_INIT_TRACE 4 no_remote_arg always_ok]).
Proof.
  destruct (init_trace_once lp64_config 1 0 4 no_remote_arg always_ok
              (state_after lp64_config [ev_fork 1; ev_fork 2; ev_open true])
              (state_after lp64_config
                 [ev_fork 1; ev_fork 2; ev_open true;
                  ev_ioctl 1 0 KCOV_INIT_TRACE 4 no_remote_arg always_ok]))
    as (_ & _ & _ & Hbusy); [vm_compute; reflexivity|].
  exact (Hbusy 2%nat 16 no_remote_arg always_ok).
Defined.

(** ** Attaching and detaching *)

(** The state a successful KCOV_ENABLE leaves. *)
Lemma enable_state cfg cur k arg rarg ok s s1 kc ts :
  kcovs s !! k = Some kc → tasks s !! cur = Some ts →
  kcov_ioctl_locked cfg cur k KCOV_ENABLE arg rarg ok s = Some (0, s1) →
  k_mode kc = KCOV_MODE_INIT ∧ k_area kc ≠ None ∧ k_t kc = None
  ∧ ts_kcov ts = None ∧ 0 ≤ kcov_get_mode cfg arg
  ∧ s1 = set_kcovs
           <[k := set_k_refcount (sint (k_refcount kc + 1))
                    (set_k_t (Some cur)
                       (set_k_size_mode (k_size kc)
                          (kcov_mode_of_val (kcov_get_mode cfg arg)) kc))]>
           (set_tasks
              <[cur := {| ts_kcov_mode := kcov_mode_of_val (kcov_get_mode cfg arg);
                          ts_kcov_size := k_size kc;
                          ts_kcov_area := k_area kc;
                          ts_kcov := Some k;
                          ts_kcov_sequence := k_sequence kc |}]> s).
Proof.
  intros Hk Hts H. unfold kcov_ioctl_locked in H.
  rewrite Hk in H. cbn [mbind option_bind] in H.
  case_decide as Hm; [discriminate|].
  rewrite Hts in H. cbn [mbind option_bind] in H.
  case_decide as Hb; [discriminate|].
  case_decide as Hneg; [injection H as E _; lia|].
  unfold kcov_start, kcov_get in H. cbn [kcovs tasks set_kcovs set_tasks] in H.
  rewrite Hts in H. cbn [mbind option_bind] in H.
  cbn [kcovs tasks set_kcovs set_tasks] in H.
  rewrite !lookup_insert_eq in H. cbn [mbind option_bind] in H.
  injection H as <-.
  split_and!.
  - by destruct (decide (k_mode kc = KCOV_MODE_INIT)); [|exfalso; auto].
  - intros E. apply Hm. by right.
  - by destruct (k_t kc); [exfalso; apply Hb; left|].
  - by destruct (ts_kcov ts); [exfalso; apply Hb; right|].
  - lia.
  - destruct s. unfold set_kcovs, set_tasks. cbn. f_equal.
    + by rewrite !insert_insert_eq.
    + by rewrite !insert_insert_eq.
Qed.

(** X15. KCOV_ENABLE followed by KCOV_DISABLE. In a reachable state, on a
    descriptor whose file is open (a reference count of at least 1), a
    KCOV_ENABLE that returns 0 followed by KCOV_DISABLE by the same task
    returns 0 and leaves the state the KCOV_ENABLE started from, but for the
    reset of the descriptor (its sequence number is one higher) and of the
    kcov fields of the task: areas, hash table, free list and reference
    count are as before. *)
Theorem enable_disable_round_trip
    cfg cur k arg rarg ok rarg' ok' s s1 kc ts :
  reachable cfg s → kcovs s !! k = Some kc → tasks s !! cur = Some ts →
  1 ≤ k_refcount kc < INT_MAX →
  kcov_ioctl_locked cfg cur k KCOV_ENABLE arg rarg ok s = Some (0, s1) →
  kcov_ioctl_locked cfg cur k KCOV_DISABLE 0 rarg' ok' s1
  = Some (0, set_tasks <[cur := new_task]>
               (set_kcovs <[k := kcov_reset_k kc]> s)).
Proof.
  intros Hok%reachable_ok Hk Hts Hrc Hen. unfold INT_MAX in Hrc.
  destruct (enable_state _ _ _ _ _ _ _ _ _ _ Hk Hts Hen)
    as (Hmode & Harea & Hown & Hatt & Hpos & ->).
  assert (k_remote kc = false) as Hrem.
  { destruct (k_remote kc) eqn:E; [|done].
    destruct (ok_kcovs _ _ Hok _ _ Hk) as (_ & Hr & _). by destruct (Hr E). }
  unfold kcov_ioctl_locked. cbn [kcovs set_kcovs set_tasks].
  rewrite lookup_insert_eq. cbn [mbind option_bind].
  cbn [tasks set_kcovs set_tasks]. rewrite lookup_insert_eq.
  cbn [mbind option_bind ts_kcov]. rewrite decide_False by (intros [?|?]; done).
  cbn [k_t set_k_refcount set_k_t]. rewrite decide_False by (intros ?; done).
  unfold kcov_task_init. cbn [tasks set_kcovs set_tasks].
  rewrite lookup_insert_eq. cbn [mbind option_bind].
  cbn [k_remote set_k_refcount set_k_t set_k_size_mode]. rewrite Hrem.
  unfold kcov_reset. cbn [kcovs set_kcovs set_tasks].
  rewrite lookup_insert_eq. cbn [mbind option_bind].
  unfold kcov_put. cbn [kcovs set_kcovs set_tasks].
  rewrite lookup_insert_eq. cbn [mbind option_bind].
  cbn [k_refcount kcov_reset_k set_k_refcount].
  rewrite (sint_small (k_refcount kc + 1)) by lia.
  replace (k_refcount kc + 1 - 1) with (k_refcount kc) by lia.
  rewrite sint_small by lia. rewrite decide_False by lia.
  cbn [mbind option_bind]. do 2 f_equal.
  destruct s as [ks tsk vm rm ra], kc as [rc md sz ar ow re rs sq].
  unfold set_kcovs, set_tasks, kcov_reset_k, set_k_refcount, set_k_t,
    set_k_size_mode, kcov_task_init_ts, kcov_stop_ts, new_task.
  cbn [kcovs tasks vmem kcov_remote_map kcov_remote_areas
       k_refcount k_size k_area k_sequence ts_kcov_mode ts_kcov_size
       ts_kcov_area ts_kcov ts_kcov_sequence].
  by rewrite !insert_insert_eq.
Qed.

Lemma enable_disable_round_trip_witness :
  kcov_ioctl_locked lp64_config 1 0 KCOV_DISABLE 0 no_remote_arg always_ok
    (enabled_state lp64_config 4 0)
  = Some (0, set_tasks <[1%nat := new_task]>
               (set_kcovs <[0%nat := kcov_reset_k (mapped_kcov 4)]>
                  (mapped_state lp64_config 4))).
Proof.
  apply (enable_disable_round_trip lp64_config 1 0 0 no_remote_arg always_ok
           no_remote_arg always_ok (mapped_state lp64_config 4)
           (enabled_state lp64_config 4 0) (mapped_kcov 4) new_task).
  - exists (mapped_run lp64_config 4). vm_compute. reflexivity.
  - vm_compute. reflexivity.
  - vm_compute. reflexivity.
  - vm_compute. split; [discriminate | reflexivity].
  - vm_compute. reflexivity.
Defined.

(** X16. In a reachable state, [kcov_open] followed by [kcov_close] of
    the descriptor just opened returns 0 twice and restores the state:
    the descriptor is freed, and nothing else has changed. *)
Theorem open_close_round_trip cfg s :
  reachable cfg s →
  kcov_open true s
  = Some (0, set_kcovs <[fresh (dom (kcovs s)) := new_kcov]> s)
  ∧ kcov_close (fresh (dom (kcovs s)))
      (set_kcovs <[fresh (dom (kcovs s)) := new_kcov]> s)
    = Some (0, s).
Proof.
  intros Hok%reachable_ok. split; [done|].
  set (k := fresh (dom (kcovs s))).
  assert (kcovs s !! k = None) as Hfresh
    by apply not_elem_of_dom, is_fresh.
  assert (no_entries k s) as Hno.
  { eapply no_entries_unowned; [done|]. intros kc. by rewrite Hfresh. }
  unfold kcov_close, kcov_put. cbn [kcovs set_kcovs].
  rewrite lookup_insert_eq. cbn [mbind option_bind k_refcount new_kcov].
  rewrite decide_True by done.
  unfold kcov_remote_reset, kcov_reset. cbn [kcovs set_kcovs set_remote_map].
  rewrite lookup_insert_eq. cbn [mbind option_bind].
  cbn [kcovs set_kcovs set_remote_map]. rewrite lookup_insert_eq.
  cbn [mbind option_bind k_area kcov_reset_k set_k_refcount new_kcov vfree].
  do 2 f_equal. destruct s as [ks tsk vm rm ra].
  unfold set_kcovs, set_remote_map. cbn in *. f_equal.
  - rewrite !insert_insert_eq. by apply delete_insert_id.
  - by apply (purge_id k {| kcovs := ks; tasks := tsk; vmem := vm;
                            kcov_remote_map := rm; kcov_remote_areas := ra |}).
Qed.

Lemma open_close_round_trip_witness :
  kcov_close 1 (set_kcovs <[1%nat := new_kcov]> (enabled_state lp64_config 4 0))
  = Some (0, enabled_state lp64_config 4 0).
Proof.
  apply (open_close_round_trip lp64_config (enabled_state lp64_config 4 0)).
  exists (enabled_run lp64_config 4 0). vm_compute. reflexivity.
Defined.

(** X17. The first [kcov_mmap] of a descriptor, in a reachable state. It
    returns -ENOMEM when the candidate region cannot be allocated; 0 when
    the descriptor is in INIT, the page offset is 0 and the length is
    exactly [size * sizeof(unsigned long)] (the product does not wrap), and
    then the descriptor points to a new region of that many zero bytes and
    nothing else has changed; and -EINVAL otherwise. In both failure cases
    the state is the one before the call. *)
Theorem kcov_mmap_first cfg k pgoff len ok s kc :
  reachable cfg s → kcovs s !! k = Some kc → k_area kc = None →
  kcov_mmap cfg k pgoff len ok s
  = Some (if negb ok then (- ENOMEM, s)
          else if decide (k_mode kc = KCOV_MODE_INIT ∧ pgoff = 0
                          ∧ len = k_size kc * word_size cfg)
               then (0, set_kcovs
                          <[k := set_k_area (Some (fresh (dom (vmem s)))) kc]>
                          (set_vmem
                             <[fresh (dom (vmem s))
                               := replicate (Z.to_nat len) 0]> s))
               else (- EINVAL, s)).
Proof.
  intros Hok%reachable_ok Hk Ha. unfold kcov_mmap.
  destruct ok; [|reflexivity]. cbn [negb].
  change (kcovs (set_vmem _ s)) with (kcovs s).
  rewrite Hk. cbn [mbind option_bind].
  destruct (decide (k_mode kc = KCOV_MODE_INIT)) as [Hm | Hm].
  - assert (ul cfg (k_size kc * word_size cfg) = k_size kc * word_size cfg)
      as ->.
    { destruct (ok_kcovs _ _ Hok _ _ Hk) as (_ & _ & Hsz).
      fold (word_size cfg) in Hsz.
      pose proof (word_size_cases cfg) as Hw.
      assert (k_size kc * word_size cfg ≤ INT_MAX) as Hfit.
      { pose proof (Z.mul_div_le INT_MAX (word_size cfg) ltac:(lia)).
        assert (2 ≤ k_size kc ≤ INT_MAX / word_size cfg)
          by (apply Hsz; rewrite Hm; discriminate).
        nia. }
      apply ul_small.
      assert (2 ≤ k_size kc) by (apply Hsz; rewrite Hm; discriminate).
      unfold INT_MAX in Hfit. lia. }
    case_decide as Hbad; case_decide as Hgood.
    + exfalso. destruct Hgood as (? & ? & ?), Hbad as [?|[?|?]]; done.
    + by rewrite vfree_fresh.
    + by rewrite Ha.
    + exfalso. apply Hgood. split_and!; [done | |].
      * destruct (decide (pgoff = 0)); [done|]. exfalso. apply Hbad. auto.
      * destruct (decide (len = k_size kc * word_size cfg)); [done|].
        exfalso. apply Hbad. auto.
  - rewrite decide_True by (by left). rewrite decide_False by (by intros [? _]).
    by rewrite vfree_fresh.
Qed.

Lemma kcov_mmap_first_witness :
  kcov_mmap lp64_config 0 0 24 true
    (state_after lp64_config
       [ev_fork 1; ev_fork 2; ev_open true;
        ev_ioctl 1 0 KCOV_INIT_TRACE 4 no_remote_arg always_ok])
  = Some (- EINVAL,
          state_after lp64_config
            [ev_fork 1; ev_fork 2; ev_open true;
             ev_ioctl 1 0 KCOV_INIT_TRACE 4 no_remote_arg always_ok]).
Proof.
  apply (kcov_mmap_first lp64_config 0 0 24 true
           (state_after lp64_config
              [ev_fork 1; ev_fork 2; ev_open true;
               ev_ioctl 1 0 KCOV_INIT_TRACE 4 no_remote_arg always_ok])
           {| k_refcount := 1; k_mode := KCOV_MODE_INIT; k_size := 4;
              k_area := None; k_t := None; k_remote := false;
              k_remote_size := 0; k_sequence := 1 |}).
  - exists [ev_fork 1; ev_fork 2; ev_open true;
            ev_ioctl 1 0 KCOV_INIT_TRACE 4 no_remote_arg always_ok].
    vm_compute. reflexivity.
  - vm_compute. reflexivity.
  - reflexivity.
Defined.

(** X18. [kcov_close] in a reachable state returns 0 and touches no task
    and not the free list. When it drops the last reference, the descriptor
    is gone, its area is freed, the handles that resolved to it no longer
    resolve, and every other handle resolves as before; when it does not,
    only the reference count of the descriptor has changed. *)
Theorem kcov_close_releases cfg k s kc :
  reachable cfg s → kcovs s !! k = Some kc →
  - 2 ^ 31 < k_refcount kc < 2 ^ 31 →
  ∃ s', kcov_close k s = Some (0, s')
    ∧ tasks s' = tasks s ∧ kcov_remote_areas s' = kcov_remote_areas s
    ∧ if decide (k_refcount kc = 1) then
        kcovs s' = delete k (kcovs s)
        ∧ vmem s' = match k_area kc with
                    | Some a => delete a (vmem s)
                    | None => vmem s
                    end
        ∧ (∀ h, kcov_remote_find cfg s' h
                = match kcov_remote_find cfg s h with
                  | Some r => if decide (r_kcov r = k) then None else Some r
                  | None => None
                  end)
      else
        s' = set_kcovs <[k := set_k_refcount (k_refcount kc - 1) kc]> s.
Proof.
  intros Hreach Hk Hrc. unfold kcov_close, kcov_put. rewrite Hk.
  cbn [mbind option_bind]. rewrite sint_small by lia.
  destruct (decide (k_refcount kc = 1)) as [E | E].
  - rewrite decide_True by lia.
    unfold kcov_remote_reset, kcov_reset. cbn [kcovs set_kcovs set_remote_map].
    rewrite lookup_insert_eq. cbn [mbind option_bind].
    cbn [kcovs set_kcovs set_remote_map]. rewrite lookup_insert_eq.
    cbn [mbind option_bind k_area kcov_reset_k set_k_refcount].
    eexists. split; [reflexivity|].
    split_and!.
    + by destruct (k_area kc).
    + by destruct (k_area kc).
    + destruct (k_area kc); cbn; by rewrite !delete_insert_eq.
    + by destruct (k_area kc).
    + intros h. apply kcov_remote_find_purge; [by apply reachable_registry|].
      by destruct (k_area kc).
  - rewrite decide_False by lia. cbn [mbind option_bind].
    eexists. split; [reflexivity|]. done.
Qed.

Lemma kcov_close_releases_witness :
  ∃ s', kcov_close 0 (remote_state lp64_config 4 0 4 [7]) = Some (0, s')
        ∧ s' = set_kcovs
                 <[0%nat := set_k_refcount 1
                              {| k_refcount := 2; k_mode := KCOV_MODE_TRACE_PC;
                                 k_size := 4; k_area := Some 0%nat;
                                 k_t := Some 1%nat; k_remote := true;
                                 k_remote_size := 4; k_sequence := 1 |}]>
                 (remote_state lp64_config 4 0 4 [7]).
Proof.
  destruct (kcov_close_releases lp64_config 0
              (remote_state lp64_config 4 0 4 [7])
              {| k_refcount := 2; k_mode := KCOV_MODE_TRACE_PC;
                 k_size := 4; k_area := Some 0%nat;
                 k_t := Some 1%nat; k_remote := true;
                 k_remote_size := 4; k_sequence := 1 |})
    as (s' & Hclose & _ & _ & Hs').
  - exists (remote_run lp64_config 4 0 4 [7]). vm_compute. reflexivity.
  - vm_compute. reflexivity.
  - vm_compute. split; reflexivity.
  - exists s'. split; [exact Hclose | exact Hs'].
Defined.

(** ** A complete remote window *)








(** ** Reuse of a scratch area *)



(** ** Task exit *)

(** X22. [kcov_task_exit] of a task that points to a descriptor leaves
    the state KCOV_DISABLE by that task on that descriptor leaves: the two
    paths detach the task, reset the descriptor and drop the reference in
    the same way, and both change nothing when the descriptor has another
    owner. *)
Theorem task_exit_is_disable cfg t k rarg ok s ts :
  tasks s !! t = Some ts → ts_kcov ts = Some k → is_Some (kcovs s !! k) →
  kcov_task_exit t s
  = snd <$> kcov_ioctl_locked cfg t k KCOV_DISABLE 0 rarg ok s.
Proof.
  intros Hts Hatt [kc Hk]. unfold kcov_task_exit, kcov_ioctl_locked.
  rewrite Hts, Hk. cbn [mbind option_bind]. rewrite Hatt, Hk.
  cbn [mbind option_bind].
  rewrite (decide_False (P := _ ∨ _)) by (intros [?|?]; done).
  case_decide; [done|].
  destruct (kcov_task_init t s) as [s1|]; [|done]. cbn [mbind option_bind].
  destruct (if k_remote kc then kcov_remote_reset k s1 else kcov_reset k s1)
    as [s2|]; [|done].
  cbn [mbind option_bind]. by destruct (kcov_put k s2).
Qed.

Lemma task_exit_is_disable_witness :
  kcov_task_exit 1 (remote_state lp64_config 4 0 4 [7])
  = snd <$> kcov_ioctl_locked lp64_config 1 0 KCOV_DISABLE 0 no_remote_arg
              always_ok (remote_state lp64_config 4 0 4 [7]).
Proof.
  apply (task_exit_is_disable lp64_config 1 0 no_remote_arg always_ok _
           {| ts_kcov_mode := KCOV_MODE_DISABLED; ts_kcov_size := 0;
              ts_kcov_area := None; ts_kcov := Some 0%nat;
              ts_kcov_sequence := 0 |});
    [vm_compute; reflexivity | reflexivity
    | apply (mk_is_Some _ {| k_refcount := 2; k_mode := KCOV_MODE_TRACE_PC;
                             k_size := 4; k_area := Some 0%nat;
                             k_t := Some 1%nat; k_remote := true;
                             k_remote_size := 4; k_sequence := 1 |});
      vm_compute; reflexivity].
Defined.

(** ** Size and area of a descriptor *)

Lemma kcov_settled_refl kc : kcov_settled kc kc.
Proof. by intros ?. Qed.

Lemma kcov_settled_trans kc1 kc2 kc3 :
  kcov_settled kc1 kc2 → kcov_settled kc2 kc3 → kcov_settled kc1 kc3.
Proof.
  intros H12 H23 Hm. destruct (H12 Hm) as (Hm2 & Hs2 & Ha2).
  destruct (H23 Hm2) as (Hm3 & Hs3 & Ha3). split_and!; [done | congruence |].
  intros Ha. rewrite <- (Ha2 Ha). apply Ha3. by rewrite (Ha2 Ha).
Qed.

Lemma kcovs_settled_refl m : kcovs_settled m m.
Proof. intros k kc' ?. eauto using kcov_settled_refl. Qed.

Lemma kcovs_settled_trans m1 m2 m3 :
  kcovs_settled m1 m2 → kcovs_settled m2 m3 → kcovs_settled m1 m3.
Proof.
  intros H12 H23 k kc3 (kc2 & H2 & Hs23)%H23.
  destruct (H12 _ _ H2) as (kc1 & H1 & Hs12).
  eauto using kcov_settled_trans.
Qed.

Lemma kcovs_settled_insert m k kc kc' :
  m !! k = Some kc → kcov_settled kc kc' → kcovs_settled m (<[k := kc']> m).
Proof.
  intros Hk Hs k0 kc0. rewrite lookup_insert. case_decide as E.
  - intros [= <-]. subst. eauto.
  - eauto using kcov_settled_refl.
Qed.

Lemma kcovs_settled_delete m k : kcovs_settled m (delete k m).
Proof.
  intros k0 kc0. rewrite lookup_delete. case_decide; [done|].
  eauto using kcov_settled_refl.
Qed.

Lemma kcov_get_settled k s s' :
  kcov_get k s = Some s' → kcovs_settled (kcovs s) (kcovs s').
Proof.
  unfold kcov_get. intros (kc & Hk & [= <-])%bind_Some.
  eapply kcovs_settled_insert; [done|]. by intros ?.
Qed.

Lemma kcov_reset_settled k s s' :
  kcov_reset k s = Some s' → kcovs_settled (kcovs s) (kcovs s').
Proof.
  unfold kcov_reset. intros (kc & Hk & [= <-])%bind_Some.
  eapply kcovs_settled_insert; [done|]. by intros ?.
Qed.

Lemma kcov_remote_reset_settled k s s' :
  kcov_remote_reset k s = Some s' → kcovs_settled (kcovs s) (kcovs s').
Proof. unfold kcov_remote_reset. by intros ?%kcov_reset_settled. Qed.

Lemma kcov_put_settled k s s' :
  kcov_put k s = Some s' → kcovs_settled (kcovs s) (kcovs s').
Proof.
  unfold kcov_put. intros (kc & Hk & H)%bind_Some.
  assert (kcovs_settled (kcovs s)
            (kcovs (set_kcovs
                      <[k := set_k_refcount (sint (k_refcount kc - 1)) kc]> s)))
    as H0 by (eapply kcovs_settled_insert; [done | by intros ?]).
  case_decide as Hz; [|by injection H as <-].
  apply bind_Some in H as (s1 & Hr%kcov_remote_reset_settled & H).
  apply bind_Some in H as (kc1 & _ & [= <-]).
  eapply kcovs_settled_trans; [exact H0|].
  eapply kcovs_settled_trans; [exact Hr|].
  destruct (k_area kc1); apply kcovs_settled_delete.
Qed.

Lemma owner_reset_settled k (remote : bool) s s' :
  (if remote then kcov_remote_reset k s else kcov_reset k s) = Some s' →
  kcovs_settled (kcovs s) (kcovs s').
Proof.
  destruct remote; eauto using kcov_remote_reset_settled, kcov_reset_settled.
Qed.

Lemma detach_settled t k (remote : bool) s s1 s2 s3 :
  kcov_task_init t s = Some s1 →
  (if remote then kcov_remote_reset k s1 else kcov_reset k s1) = Some s2 →
  kcov_put k s2 = Some s3 →
  kcovs_settled (kcovs s) (kcovs s3).
Proof.
  intros [Hi _]%kcov_task_init_kcovs Hr%owner_reset_settled Hp%kcov_put_settled.
  rewrite Hi in Hr. eauto using kcovs_settled_trans.
Qed.

Lemma kcov_task_exit_settled t s s' :
  kcov_task_exit t s = Some s' → kcovs_settled (kcovs s) (kcovs s').
Proof.
  unfold kcov_task_exit. intros (ts & Hts & H)%bind_Some.
  destruct (ts_kcov ts) as [k|];
    [|injection H as <-; apply kcovs_settled_refl].
  apply bind_Some in H as (kc & Hk & H).
  case_decide; [injection H as <-; apply kcovs_settled_refl|].
  apply bind_Some in H as (s1 & Hi & H).
  apply bind_Some in H as (s2 & Hr & Hp).
  eauto using detach_settled.
Qed.

Lemma kcov_mmap_settled cfg k pgoff len ok s r s' :
  kcov_mmap cfg k pgoff len ok s = Some (r, s') →
  kcovs_settled (kcovs s) (kcovs s').
Proof.
  unfold kcov_mmap. intros H.
  destruct ok; simpl in H; [|injection H as <- <-; apply kcovs_settled_refl].
  apply bind_Some in H as (kc & Hk & H).
  case_decide; [injection H as <- <-; apply kcovs_settled_refl|].
  destruct (k_area kc) eqn:Ha; injection H as <- <-;
    [apply kcovs_settled_refl|].
  simpl. eapply kcovs_settled_insert; [done|].
  intros ?. split_and!; [done | done |]. by rewrite Ha.
Qed.

Lemma remote_enable_loop_settled cfg k rarg ok n i s r s' :
  remote_enable_loop cfg k rarg ok n i s = Some (r, s') →
  kcovs_settled (kcovs s) (kcovs s').
Proof.
  revert i s. induction n as [|n IH]; intros i s H;
    cbn [remote_enable_loop] in H.
  - apply bind_Some in H as (s1 & Hg%kcov_get_settled & [= <- <-]). done.
  - apply bind_Some in H as (h & Hh & H).
    destruct (kcov_remote_find cfg s h).
    { by apply bind_Some in H as (s1 & ?%kcov_remote_reset_settled & [= <- <-]). }
    destruct (ok i); simpl in H.
    + by apply IH in H.
    + by apply bind_Some in H as (s1 & ?%kcov_remote_reset_settled & [= <- <-]).
Qed.

Lemma kcov_ioctl_locked_settled cfg cur k cmd arg rarg ok s r s' :
  kcov_ioctl_locked cfg cur k cmd arg rarg ok s = Some (r, s') →
  kcovs_settled (kcovs s) (kcovs s').
Proof.
  intros H. unfold kcov_ioctl_locked in H.
  apply bind_Some in H as (kc & Hk & H).
  destruct cmd.
  - case_decide as Hm; [injection H as <- <-; apply kcovs_settled_refl|].
    case_decide; [injection H as <- <-; apply kcovs_settled_refl|].
    injection H as <- <-. simpl. eapply kcovs_settled_insert; [done|].
    intros Hnd. by destruct Hnd.
  - case_decide as Hm; [injection H as <- <-; apply kcovs_settled_refl|].
    apply bind_Some in H as (ts & Hts & H).
    case_decide; [injection H as <- <-; apply kcovs_settled_refl|].
    case_decide as Hneg; [injection H as <- <-; apply kcovs_settled_refl|].
    apply bind_Some in H as (s1 & [Hs _]%kcov_start_kcovs & H).
    apply bind_Some in H as (ts1 & Hts1 & H).
    apply bind_Some in H as (s2 & Hg%kcov_get_settled & [= <- <-]).
    eapply kcovs_settled_trans; [|exact Hg]. simpl. rewrite Hs. simpl.
    rewrite insert_insert_eq. eapply kcovs_settled_insert; [done|].
    intros _. simpl. split_and!; [|done|done].
    pose proof (kcov_get_mode_traces cfg arg Hneg) as Ht.
    by apply traces_not_disabled in Ht.
  - apply bind_Some in H as (ts & Hts & H).
    case_decide; [injection H as <- <-; apply kcovs_settled_refl|].
    case_decide; [injection H as <- <-; apply kcovs_settled_refl|].
    apply bind_Some in H as (s1 & Hi & H).
    apply bind_Some in H as (s2 & Hr & H).
    apply bind_Some in H as (s3 & Hp & [= <- <-]).
    eauto using detach_settled.
  - case_decide as Hm; [injection H as <- <-; apply kcovs_settled_refl|].
    apply bind_Some in H as (ts & Hts & H).
    case_decide; [injection H as <- <-; apply kcovs_settled_refl|].
    case_decide as Hneg; [injection H as <- <-; apply kcovs_settled_refl|].
    apply remote_enable_loop_settled in H.
    eapply kcovs_settled_trans; [|exact H]. simpl.
    eapply kcovs_settled_insert; [done|].
    intros _. simpl. split_and!; [|done|done].
    pose proof (kcov_get_mode_traces cfg _ Hneg) as Ht.
    by apply traces_not_disabled in Ht.
  - injection H as <- <-. apply kcovs_settled_refl.
Qed.

Lemma kcov_remote_start_settled cfg in_task cur h res s s' :
  kcov_remote_start cfg in_task cur h res s = Some s' →
  kcovs_settled (kcovs s) (kcovs s').
Proof.
  intros H. unfold kcov_remote_start in H.
  destruct in_task; simpl in H; [|injection H as <-; apply kcovs_settled_refl].
  apply bind_Some in H as (ts & Hts & H).
  case_decide; [injection H as <-; apply kcovs_settled_refl|].
  destruct (kcov_remote_find cfg s h) as [r|];
    [|injection H as <-; apply kcovs_settled_refl].
  apply bind_Some in H as (s1 & Hg%kcov_get_settled & H).
  apply bind_Some in H as (kc & Hk & H).
  eapply kcovs_settled_trans; [exact Hg|].
  assert (∀ a s3 s4, kcovs s3 = kcovs s1 →
            (buf ← vmem s3 !! a; buf ← store sizeof_u64 buf 0 0;
             kcov_start cur (k_remote_size kc) (Some a) (k_mode kc)
               (k_sequence kc) (set_vmem <[a := buf]> s3)) = Some s4 →
            kcovs s4 = kcovs s1) as Hpub.
  { intros a s3 s4 H3 Hp.
    apply bind_Some in Hp as (b & _ & Hp).
    apply bind_Some in Hp as (b' & _ & [Hp _]%kcov_start_kcovs).
    by rewrite Hp. }
  destruct (kcov_remote_area_get _ _) as [[a rest]|].
  - assert (kcovs s' = kcovs s1) as -> by (eapply Hpub; [|exact H]; done).
    apply kcovs_settled_refl.
  - destruct res as [bytes|].
    + assert (kcovs s' = kcovs s1) as -> by (eapply Hpub; [|exact H]; done).
      apply kcovs_settled_refl.
    + by apply kcov_put_settled in H.
Qed.

Lemma kcov_remote_stop_settled cfg cur s s' :
  kcov_remote_stop cfg cur s = Some s' →
  kcovs_settled (kcovs s) (kcovs s').
Proof.
  intros H. unfold kcov_remote_stop in H.
  apply bind_Some in H as (ts & Hts & H).
  destruct (ts_kcov ts) as [k|];
    [|injection H as <-; apply kcovs_settled_refl].
  apply bind_Some in H as (s1 & [Hs _]%kcov_stop_kcovs & H).
  apply bind_Some in H as (ts1 & Hts1 & H).
  apply bind_Some in H as (kc & Hk & H).
  apply bind_Some in H as (s2 & Hm & H).
  apply bind_Some in H as (a & Ha & Hp%kcov_put_settled).
  assert (kcovs s2 = kcovs s) as E.
  { rewrite <- Hs.
    case_decide; [|by injection Hm as <-].
    destruct (k_remote kc); [|by injection Hm as <-].
    by destruct (kcov_move_area_at_frame _ _ _ _ _ _ _ Hm)
      as [-> | (d & b & _ & ->)]. }
  simpl in Hp. by rewrite E in Hp.
Qed.

(** One step: no descriptor appears except by [kcov_open], and every other
    one has evolved from itself. *)
Lemma step_settled cfg e s s' k kc kc' :
  step cfg e s = Some s' →
  kcovs s !! k = Some kc → kcovs s' !! k = Some kc' → kcov_settled kc kc'.
Proof.
  intros H Hk Hk'.
  assert (kcovs_settled (kcovs s) (kcovs s') → kcov_settled kc kc') as Hfin.
  { intros Hs. destruct (Hs _ _ Hk') as (kc0 & Hk0 & ?).
    rewrite Hk in Hk0. by injection Hk0 as <-. }
  destruct e; simpl in H.
  - destruct (tasks s !! t); [discriminate|]. injection H as <-.
    apply Hfin, kcovs_settled_refl.
  - by apply Hfin, (kcov_task_exit_settled t).
  - apply fmap_Some in H as ([r s1] & H & ->). unfold kcov_open in H.
    destruct kzalloc_ok; simpl in H; injection H as <- <-;
      [|apply Hfin, kcovs_settled_refl].
    simpl in Hk'. rewrite lookup_insert_ne in Hk'.
    + assert (kc' = kc) as -> by congruence. apply kcov_settled_refl.
    + intros <-. apply elem_of_dom_2 in Hk. by apply is_fresh in Hk.
  - apply fmap_Some in H as ([r s1] & H & ->). unfold kcov_close in H.
    apply bind_Some in H as (s2 & Hp%kcov_put_settled & [= <- <-]).
    by apply Hfin.
  - apply fmap_Some in H as ([r s1] & H & ->).
    by apply Hfin, (kcov_mmap_settled _ _ _ _ _ _ _ _ H).
  - apply fmap_Some in H as ([r s1] & H & ->). unfold kcov_ioctl in H.
    repeat case_decide;
      try (injection H as <- <-; apply Hfin, kcovs_settled_refl);
      by apply Hfin, (kcov_ioctl_locked_settled _ _ _ _ _ _ _ _ _ _ H).
  - apply run_sink_others in H as (E & _). apply Hfin. rewrite E.
    apply kcovs_settled_refl.
  - by apply Hfin, (kcov_remote_start_settled _ _ _ _ _ _ _ H).
  - by apply Hfin, (kcov_remote_stop_settled _ _ _ _ H).
  - unfold user_store in H.
    apply bind_Some in H as (kc0 & _ & H).
    apply bind_Some in H as (a & _ & H).
    apply bind_Some in H as (b & _ & H).
    apply bind_Some in H as (b' & _ & [= <-]).
    apply Hfin, kcovs_settled_refl.
Qed.

(** X23. What KCOV_INIT_TRACE and the first mapping fix stays fixed.
    Along any run of entry points during which the descriptor exists, a
    descriptor that has left DISABLED never returns to it, keeps its size,
    and keeps the area it has. *)
Theorem descriptor_size_and_area_are_stable cfg k es s s' kc kc' :
  stays_open cfg k es s → run cfg es s = Some s' →
  kcovs s !! k = Some kc → kcovs s' !! k = Some kc' →
  k_mode kc ≠ KCOV_MODE_DISABLED →
  k_mode kc' ≠ KCOV_MODE_DISABLED ∧ k_size kc' = k_size kc
  ∧ (k_area kc ≠ None → k_area kc' = k_area kc).
Proof.
  intros Hopen Hrun Hk Hk'. change (kcov_settled kc kc').
  revert s kc Hopen Hrun Hk.
  induction es as [|e es IH]; intros s kc Hopen Hrun Hk; simpl in Hrun.
  - injection Hrun as <-. assert (kc' = kc) as -> by congruence.
    apply kcov_settled_refl.
  - apply bind_Some in Hrun as (s1 & H1 & Hrun).
    destruct Hopen as [_ Hopen]. rewrite H1 in Hopen.
    pose proof Hopen as Hopen1.
    destruct es; destruct Hopen1 as [[kc1 Hk1] _];
      (eapply kcov_settled_trans;
       [eapply step_settled; eauto | eapply IH; eauto]).
Qed.

Lemma descriptor_size_and_area_are_stable_witness :
  ∃ kc', kcovs closed_window_state !! 0%nat = Some kc'
         ∧ k_mode kc' ≠ KCOV_MODE_DISABLED ∧ k_size kc' = 4
         ∧ k_area kc' = Some 0%nat.
Proof.
  destruct (kcovs closed_window_state !! 0%nat) as [kc'|] eqn:Hk';
    [|vm_compute in Hk'; discriminate].
  destruct (descriptor_size_and_area_are_stable lp64_config 0
              [ ev_ioctl 1 0 KCOV_REMOTE_ENABLE 0 (remote_arg_of 0 4 [7])
                  always_ok;
                ev_remote_start true 2 7 (Some []);
                ev_sink true 2 (trace_pc 5000); ev_sink true 2 (trace_pc 6000);
                ev_remote_stop 2 ]
              (mapped_state lp64_config 4) closed_window_state
              (mapped_kcov 4) kc')
    as (Hm & Hs & Ha);
    [vm_compute; repeat (split; [eexists; reflexivity|]); exact I
    | vm_compute; reflexivity | vm_compute; reflexivity | exact Hk'
    | discriminate |].
  exists kc'. split_and!; [done | exact Hm | exact Hs |].
  apply Ha. discriminate.
Defined.

(** ** Allocation of the area *)

Lemma areas_ok_ext cfg s s' :
  kcovs s' = kcovs s → vmem s' = vmem s → areas_ok cfg s → areas_ok cfg s'.
Proof. intros Ek Ev H k kc a. rewrite Ek, Ev. apply H. Qed.

Lemma areas_ok_insert cfg s k kc kc' :
  areas_ok cfg s → kcovs s !! k = Some kc → k_area kc' = k_area kc →
  (k_area kc ≠ None → k_mode kc ≠ KCOV_MODE_DISABLED →
   k_mode kc' ≠ KCOV_MODE_DISABLED ∧ k_size kc' = k_size kc) →
  areas_ok cfg (set_kcovs <[k := kc']> s).
Proof.
  intros H Hk Ha Hp k0 kc0 a. simpl. rewrite lookup_insert.
  case_decide as E.
  - subst k0. intros [= <-] Ha'. rewrite Ha in Ha'.
    destruct (H _ _ _ Hk Ha') as (Hm & (buf & Hb & Hl) & Hu).
    destruct Hp as [Hm' Hs']; [congruence | done |].
    split_and!; [done | exists buf; by rewrite Hs' |].
    intros k' kc1. rewrite lookup_insert. case_decide; [done|]. eauto.
  - intros Hk0 Ha0.
    destruct (H _ _ _ Hk0 Ha0) as (Hm & Hb & Hu).
    split_and!; [done | done |].
    intros k' kc1. rewrite lookup_insert. case_decide as E'; [|by eauto].
    subst k'. intros [= <-] Ha1. rewrite Ha in Ha1. destruct E. by apply (Hu k kc).
Qed.

Lemma areas_ok_vmem_insert cfg s a buf :
  areas_ok cfg s →
  (∀ buf0, vmem s !! a = Some buf0 → length buf = length buf0) →
  areas_ok cfg (set_vmem <[a := buf]> s).
Proof.
  intros H Hl k kc a0 Hk Ha0. simpl in Hk.
  destruct (H _ _ _ Hk Ha0) as (Hm & (buf0 & Hb & Hl0) & Hu).
  split_and!; [done | | done]. simpl.
  destruct (decide (a0 = a)) as [-> | Hne].
  - exists buf. rewrite lookup_insert_eq. split; [done|].
    by rewrite (Hl _ Hb).
  - exists buf0. by rewrite lookup_insert_ne.
Qed.

Lemma areas_ok_delete cfg s k kc :
  areas_ok cfg s → kcovs s !! k = Some kc →
  areas_ok cfg (set_kcovs (delete k) (vfree (k_area kc) s)).
Proof.
  intros H Hk k0 kc0 a0 Hk0 Ha0.
  assert (kcovs (set_kcovs (delete k) (vfree (k_area kc) s))
          = delete k (kcovs s)) as Ek by (by destruct (k_area kc)).
  rewrite Ek in Hk0. apply lookup_delete_Some in Hk0 as [Hne Hk0].
  destruct (H _ _ _ Hk0 Ha0) as (Hm & (buf & Hb & Hl) & Hu).
  split_and!; [done | |].
  - exists buf. split; [|done].
    destruct (k_area kc) as [a|] eqn:Ha; simpl; [|done].
    rewrite lookup_delete_ne; [done|]. intros ->. by apply Hne, (Hu _ kc).
  - intros k' kc'. rewrite Ek. intros [_ Hk']%lookup_delete_Some. eauto.
Qed.

Lemma areas_ok_boot cfg : areas_ok cfg boot.
Proof. intros k kc a. simpl. by rewrite lookup_empty. Qed.

Lemma kcov_get_areas cfg k s s' :
  areas_ok cfg s → kcov_get k s = Some s' → areas_ok cfg s'.
Proof.
  unfold kcov_get. intros H (kc & Hk & [= <-])%bind_Some.
  by eapply areas_ok_insert.
Qed.

Lemma kcov_reset_areas cfg k s s' :
  areas_ok cfg s → kcov_reset k s = Some s' → areas_ok cfg s'.
Proof.
  unfold kcov_reset. intros H (kc & Hk & [= <-])%bind_Some.
  by eapply areas_ok_insert.
Qed.

Lemma kcov_remote_reset_areas cfg k s s' :
  areas_ok cfg s → kcov_remote_reset k s = Some s' → areas_ok cfg s'.
Proof.
  unfold kcov_remote_reset. intros H. apply kcov_reset_areas.
  by eapply areas_ok_ext.
Qed.

Lemma kcov_put_areas cfg k s s' :
  areas_ok cfg s → kcov_put k s = Some s' → areas_ok cfg s'.
Proof.
  intros Hok H. unfold kcov_put in H.
  apply bind_Some in H as (kc & Hk & H).
  case_decide as Hz.
  - apply bind_Some in H as (s1 & H1 & H).
    apply bind_Some in H as (kc1 & Hk1 & [= <-]).
    unfold kcov_remote_reset, kcov_reset in H1.
    apply bind_Some in H1 as (kc2 & Hk2 & [= <-]).
    simpl in Hk1, Hk2. rewrite lookup_insert_eq in Hk2. injection Hk2 as <-.
    rewrite lookup_insert_eq in Hk1. injection Hk1 as <-.
    change (k_area (kcov_reset_k (set_k_refcount (sint (k_refcount kc - 1)) kc)))
      with (k_area kc).
    eapply (areas_ok_ext _ (set_kcovs (delete k) (vfree (k_area kc) s))).
    + destruct (k_area kc); simpl; by rewrite !delete_insert_eq.
    + by destruct (k_area kc).
    + by apply areas_ok_delete.
  - injection H as <-. by eapply areas_ok_insert.
Qed.

Lemma set_tasks_areas cfg f s : areas_ok cfg s → areas_ok cfg (set_tasks f s).
Proof. by apply areas_ok_ext. Qed.

Lemma kcov_task_init_areas cfg t s s' :
  areas_ok cfg s → kcov_task_init t s = Some s' → areas_ok cfg s'.
Proof.
  unfold kcov_task_init. intros H (ts & _ & [= <-])%bind_Some.
  by apply set_tasks_areas.
Qed.

Lemma kcov_start_areas cfg t size area mode seq s s' :
  areas_ok cfg s → kcov_start t size area mode seq s = Some s' →
  areas_ok cfg s'.
Proof.
  unfold kcov_start. intros H (ts & _ & [= <-])%bind_Some.
  by apply set_tasks_areas.
Qed.

Lemma kcov_stop_areas cfg t s s' :
  areas_ok cfg s → kcov_stop t s = Some s' → areas_ok cfg s'.
Proof.
  unfold kcov_stop. intros H (ts & _ & [= <-])%bind_Some.
  by apply set_tasks_areas.
Qed.

Lemma detach_areas cfg t k (remote : bool) s s1 s2 s3 :
  areas_ok cfg s →
  kcov_task_init t s = Some s1 →
  (if remote then kcov_remote_reset k s1 else kcov_reset k s1) = Some s2 →
  kcov_put k s2 = Some s3 →
  areas_ok cfg s3.
Proof.
  intros H Hi Hr Hp. eapply kcov_put_areas; [|exact Hp].
  destruct remote;
    eauto using kcov_remote_reset_areas, kcov_reset_areas, kcov_task_init_areas.
Qed.

Lemma kcov_task_exit_areas cfg t s s' :
  areas_ok cfg s → kcov_task_exit t s = Some s' → areas_ok cfg s'.
Proof.
  unfold kcov_task_exit. intros Hok (ts & Hts & H)%bind_Some.
  destruct (ts_kcov ts) as [k|]; [|by injection H as <-].
  apply bind_Some in H as (kc & Hk & H).
  case_decide; [by injection H as <-|].
  apply bind_Some in H as (s1 & Hi & H).
  apply bind_Some in H as (s2 & Hr & Hp).
  eauto using detach_areas.
Qed.

Lemma size_fits cfg kc :
  kcov_ok cfg kc → k_mode kc ≠ KCOV_MODE_DISABLED →
  ul cfg (k_size kc * word_size cfg) = k_size kc * word_size cfg.
Proof.
  intros (_ & _ & Hsz) Hm. specialize (Hsz Hm).
  fold (word_size cfg) in Hsz.
  pose proof (word_size_cases cfg) as Hw.
  pose proof (Z.mul_div_le INT_MAX (word_size cfg) ltac:(lia)) as Hd.
  apply ul_small. unfold INT_MAX in *. nia.
Qed.

Lemma kcov_mmap_areas cfg k pgoff len ok s r s' :
  state_ok cfg s → areas_ok cfg s →
  kcov_mmap cfg k pgoff len ok s = Some (r, s') → areas_ok cfg s'.
Proof.
  intros Hok H Hm. unfold kcov_mmap in Hm.
  destruct ok; cbn [negb] in Hm; [|by injection Hm as <- <-].
  apply bind_Some in Hm as (kc & Hk & Hm).
  change (kcovs (set_vmem _ s)) with (kcovs s) in Hk.
  case_decide as Hbad;
    [rewrite vfree_fresh in Hm; by injection Hm as <- <-|].
  destruct (k_area kc) eqn:Ha;
    [rewrite vfree_fresh in Hm; by injection Hm as <- <-|].
  injection Hm as <- <-.
  assert (k_mode kc = KCOV_MODE_INIT) as Hmode.
  { destruct (decide (k_mode kc = KCOV_MODE_INIT)); [done|].
    destruct Hbad. by left. }
  assert (len = k_size kc * word_size cfg) as Hlen.
  { destruct (decide (len = ul cfg (k_size kc * word_size cfg))) as [-> | Hne].
    - apply size_fits; [exact (ok_kcovs _ _ Hok _ _ Hk)|].
      rewrite Hmode. discriminate.
    - destruct Hbad. auto. }
  assert (∀ k0 kc0, kcovs s !! k0 = Some kc0 →
            k_area kc0 ≠ Some (fresh (dom (vmem s)))) as Hfresh.
  { intros k0 kc0 Hk0 Ha0.
    destruct (H _ _ _ Hk0 Ha0) as (_ & (buf & Hb & _) & _).
    apply elem_of_dom_2 in Hb. by apply is_fresh in Hb. }
  intros k0 kc0 a0. simpl. rewrite lookup_insert. case_decide as E.
  - subst k0. intros [= <-] [= <-]. split_and!.
    + simpl. rewrite Hmode. discriminate.
    + eexists. rewrite lookup_insert_eq. split; [done|].
      rewrite length_replicate. simpl. rewrite Hlen.
      pose proof (word_size_pos cfg).
      destruct (ok_kcovs _ _ Hok _ _ Hk) as (_ & _ & Hsz).
      assert (2 ≤ k_size kc) by (apply Hsz; rewrite Hmode; discriminate).
      nia.
    + intros k' kc'. rewrite lookup_insert. case_decide; [done|].
      intros Hk' Ha'. by destruct (Hfresh _ _ Hk').
  - intros Hk0 Ha0.
    destruct (H _ _ _ Hk0 Ha0) as (Hm0 & (buf & Hb & Hl) & Hu).
    split_and!; [done | |].
    + exists buf. split; [|done]. rewrite lookup_insert_ne; [done|].
      intros <-. by destruct (Hfresh _ _ Hk0).
    + intros k' kc'. rewrite lookup_insert. case_decide as E'; [|by eauto].
      subst k'. intros [= <-] [= <-]. by destruct (Hfresh _ _ Hk0).
Qed.

Lemma kcov_open_areas cfg ok s r s' :
  areas_ok cfg s → kcov_open ok s = Some (r, s') → areas_ok cfg s'.
Proof.
  unfold kcov_open. intros H Ho.
  destruct ok; simpl in Ho; injection Ho as <- <-; [|done].
  intros k kc a. simpl. rewrite lookup_insert. case_decide as E.
  - by intros [= <-].
  - intros Hk Ha. destruct (H _ _ _ Hk Ha) as (Hm & Hb & Hu).
    split_and!; [done | done |].
    intros k' kc'. rewrite lookup_insert. case_decide; [by intros [= <-]|].
    eauto.
Qed.

Lemma remote_enable_loop_areas cfg k rarg ok n i s r s' :
  areas_ok cfg s → remote_enable_loop cfg k rarg ok n i s = Some (r, s') →
  areas_ok cfg s'.
Proof.
  revert i s. induction n as [|n IH]; intros i s Hok H;
    cbn [remote_enable_loop] in H.
  - apply bind_Some in H as (s1 & Hg & [= <- <-]). eauto using kcov_get_areas.
  - apply bind_Some in H as (h & Hh & H).
    destruct (kcov_remote_find cfg s h).
    { apply bind_Some in H as (s1 & ? & [= <- <-]).
      eauto using kcov_remote_reset_areas. }
    destruct (ok i); simpl in H.
    + eapply IH; [|exact H]. by eapply areas_ok_ext.
    + apply bind_Some in H as (s1 & ? & [= <- <-]).
      eauto using kcov_remote_reset_areas.
Qed.

Lemma kcov_ioctl_locked_areas cfg cur k cmd arg rarg ok s r s' :
  areas_ok cfg s →
  kcov_ioctl_locked cfg cur k cmd arg rarg ok s = Some (r, s') →
  areas_ok cfg s'.
Proof.
  intros Hok H. unfold kcov_ioctl_locked in H.
  apply bind_Some in H as (kc & Hk & H).
  destruct cmd.
  - case_decide as Hm; [by injection H as <- <-|].
    case_decide; [by injection H as <- <-|].
    injection H as <- <-. eapply areas_ok_insert; [done | done | done |].
    intros _ Hnd. by destruct Hnd.
  - case_decide as Hm; [by injection H as <- <-|].
    apply bind_Some in H as (ts & Hts & H).
    case_decide; [by injection H as <- <-|].
    case_decide as Hneg; [by injection H as <- <-|].
    apply bind_Some in H as (s1 & Hs & H).
    apply bind_Some in H as (ts1 & Hts1 & H).
    apply bind_Some in H as (s2 & Hg & [= <- <-]).
    eapply kcov_get_areas; [|exact Hg].
    pose proof (traces_not_disabled _ (kcov_get_mode_traces cfg arg Hneg)).
    eapply (areas_ok_insert _ _ _ (set_k_size_mode (k_size kc)
                (kcov_mode_of_val (kcov_get_mode cfg arg)) kc));
      [ | | done | done].
    + apply set_tasks_areas. eapply kcov_start_areas; [|exact Hs].
      by eapply areas_ok_insert.
    + simpl. destruct (kcov_start_kcovs _ _ _ _ _ _ _ Hs) as [-> _].
      simpl. by rewrite lookup_insert_eq.
  - apply bind_Some in H as (ts & Hts & H).
    case_decide; [by injection H as <- <-|].
    case_decide; [by injection H as <- <-|].
    apply bind_Some in H as (s1 & Hi & H).
    apply bind_Some in H as (s2 & Hr & H).
    apply bind_Some in H as (s3 & Hp & [= <- <-]).
    eauto using detach_areas.
  - case_decide as Hm; [by injection H as <- <-|].
    apply bind_Some in H as (ts & Hts & H).
    case_decide; [by injection H as <- <-|].
    case_decide as Hneg; [by injection H as <- <-|].
    eapply remote_enable_loop_areas; [|exact H].
    pose proof (traces_not_disabled _ (kcov_get_mode_traces cfg _ Hneg)).
    eapply areas_ok_insert; [by apply set_tasks_areas | done | done | done].
  - by injection H as <- <-.
Qed.

Lemma kcov_ioctl_areas cfg cur k cmd arg uarg ok s r s' :
  areas_ok cfg s → kcov_ioctl cfg cur k cmd arg uarg ok s = Some (r, s') →
  areas_ok cfg s'.
Proof.
  intros Hok H. unfold kcov_ioctl in H.
  repeat case_decide; try (by injection H as <- <-);
    eauto using kcov_ioctl_locked_areas.
Qed.

Lemma run_sink_areas cfg in_task cur c s s' :
  areas_ok cfg s → run_sink cfg in_task cur c s = Some s' → areas_ok cfg s'.
Proof.
  intros Hok H. destruct (run_sink_others _ _ _ _ _ _ H) as (Ek & _).
  intros k kc a Hk Ha. rewrite Ek in Hk.
  destruct (Hok _ _ _ Hk Ha) as (Hm & (buf & Hb & Hl) & Hu).
  split_and!; [done | | by rewrite Ek].
  destruct (tasks s !! cur) as [ts|] eqn:Hts.
  - destruct (run_sink_frame_len _ _ _ _ _ _ _ Hts H)
      as [-> | (a' & b & b' & _ & Hb0 & Hlen & ->)]; [by exists buf|].
    simpl. destruct (decide (a = a')) as [-> | Hne].
    + exists b'. rewrite lookup_insert_eq. split; [done|].
      rewrite Hlen. congruence.
    + exists buf. by rewrite lookup_insert_ne.
  - assert (s' = s) as ->; [|by exists buf].
    destruct c; simpl in H;
      unfold __sanitizer_cov_trace_pc, write_comp_data,
        __sanitizer_cov_trace_switch in H;
      try (rewrite Hts in H; discriminate).
    apply bind_Some in H as (count & _ & H).
    apply bind_Some in H as (size & _ & H).
    assert (∀ type n i,
              trace_switch_loop cfg in_task cur type val cases ret_ip n i s
              = Some s' → s' = s) as Hloop.
    { intros type [|n] i Hlp; cbn [trace_switch_loop] in Hlp; [congruence|].
      apply bind_Some in Hlp as (c & _ & Hlp).
      apply bind_Some in Hlp as (s1 & H1 & _).
      unfold write_comp_data in H1. rewrite Hts in H1. discriminate. }
    repeat case_decide; try (by apply Hloop in H).
    by injection H as <-.
Qed.

Lemma length_memcpy dst doff src soff n dst' :
  memcpy dst doff src soff n = Some dst' → length dst' = length dst.
Proof.
  unfold memcpy. case_decide as Hb; [|done]. intros [= <-].
  apply length_splice. rewrite length_take, length_drop. lia.
Qed.

Lemma length_move_entries cfg width cs es dst c src dst' :
  0 < width →
  move_entries cfg width cs es dst c src = Some dst' →
  length dst' = length dst.
Proof.
  intros Hw H. unfold move_entries in H.
  apply bind_Some in H as (d & _ & H).
  apply bind_Some in H as (sn & _ & H).
  case_decide; [by injection H as <-|].
  apply bind_Some in H as (dst1 & H1%length_memcpy & H2%length_store);
    [congruence | done].
Qed.

Lemma length_kcov_move_area cfg mode dst c src dst' :
  kcov_move_area cfg mode dst c src = Some dst' → length dst' = length dst.
Proof.
  pose proof (word_size_pos cfg).
  destruct mode; simpl; try (by intros [= <-]);
    by apply length_move_entries.
Qed.

Lemma kcov_move_area_at_areas cfg mode dst size src s s' :
  areas_ok cfg s → kcov_move_area_at cfg mode dst size src s = Some s' →
  areas_ok cfg s'.
Proof.
  intros Hok H. unfold kcov_move_area_at in H.
  destruct mode; try (by injection H as <-);
    apply bind_Some in H as (d & _ & H);
    apply bind_Some in H as (b & Hb & H);
    apply bind_Some in H as (sb & _ & H);
    apply bind_Some in H as (b' & Hl%length_kcov_move_area & [= <-]);
    apply areas_ok_vmem_insert; [done | | done |];
    intros b0; rewrite Hb; by intros [= <-].
Qed.

Lemma kcov_remote_start_areas cfg in_task cur h res s s' :
  areas_ok cfg s → kcov_remote_start cfg in_task cur h res s = Some s' →
  areas_ok cfg s'.
Proof.
  intros Hok H. unfold kcov_remote_start in H.
  destruct in_task; simpl in H; [|by injection H as <-].
  apply bind_Some in H as (ts & Hts & H).
  case_decide; [by injection H as <-|].
  destruct (kcov_remote_find cfg s h) as [r|]; [|by injection H as <-].
  apply bind_Some in H as (s1 & H1 & H).
  apply bind_Some in H as (kc & Hk & H).
  apply (kcov_get_areas cfg) in H1; [|done].
  apply (set_tasks_areas cfg <[cur := set_ts_kcov (Some (r_kcov r)) ts]>) in H1.
  set (s2 := set_tasks _ s1) in *.
  assert (∀ a s3 s4, areas_ok cfg s3 →
            (buf ← vmem s3 !! a; buf ← store sizeof_u64 buf 0 0;
             kcov_start cur (k_remote_size kc) (Some a) (k_mode kc)
               (k_sequence kc) (set_vmem <[a := buf]> s3)) = Some s4 →
            areas_ok cfg s4) as Hpub.
  { intros a s3 s4 H3 Hp.
    apply bind_Some in Hp as (b & Hb & Hp).
    apply bind_Some in Hp as (b' & Hl%length_store & Hp); [|done].
    eapply kcov_start_areas; [|exact Hp].
    apply areas_ok_vmem_insert; [done|].
    intros b0. rewrite Hb. by intros [= <-]. }
  destruct (kcov_remote_area_get _ _) as [[a rest]|].
  - eapply Hpub; [|exact H]. by eapply areas_ok_ext.
  - destruct res as [bytes|].
    + eapply Hpub; [|exact H]. apply areas_ok_vmem_insert; [done|].
      intros b0 Hb0. apply elem_of_dom_2 in Hb0. by apply is_fresh in Hb0.
    + by eapply kcov_put_areas.
Qed.

Lemma kcov_remote_stop_areas cfg cur s s' :
  areas_ok cfg s → kcov_remote_stop cfg cur s = Some s' → areas_ok cfg s'.
Proof.
  intros Hok H. unfold kcov_remote_stop in H.
  apply bind_Some in H as (ts & Hts & H).
  destruct (ts_kcov ts) as [k|]; [|by injection H as <-].
  apply bind_Some in H as (s1 & H1 & H).
  apply bind_Some in H as (ts1 & Hts1 & H).
  apply bind_Some in H as (kc & Hk & H).
  apply bind_Some in H as (s2 & H2 & H).
  apply bind_Some in H as (a & Ha & Hp).
  eapply kcov_put_areas; [|exact Hp]. apply (areas_ok_ext cfg s2); [done | done |].
  assert (areas_ok cfg (set_tasks <[cur := set_ts_kcov None ts1]> s1)) as H3
    by (eapply set_tasks_areas, kcov_stop_areas; eauto).
  case_decide; [|by injection H2 as <-].
  destruct (k_remote kc); [|by injection H2 as <-].
  eauto using kcov_move_area_at_areas.
Qed.

Lemma user_store_areas cfg k idx v s s' :
  areas_ok cfg s → user_store k idx v s = Some s' → areas_ok cfg s'.
Proof.
  unfold user_store. intros Hok H.
  apply bind_Some in H as (kc & _ & H).
  apply bind_Some in H as (a & _ & H).
  apply bind_Some in H as (b & Hb & H).
  apply bind_Some in H as (b' & Hl%length_store & [= <-]); [|done].
  apply areas_ok_vmem_insert; [done|].
  intros b0. rewrite Hb. by intros [= <-].
Qed.

Lemma step_areas cfg e s s' :
  state_ok cfg s → areas_ok cfg s → step cfg e s = Some s' → areas_ok cfg s'.
Proof.
  intros Hst Hok H. destruct e; simpl in H.
  - destruct (tasks s !! t); [discriminate|]. injection H as <-.
    by apply set_tasks_areas.
  - eauto using kcov_task_exit_areas.
  - apply fmap_Some in H as ([r s1] & H & ->). eauto using kcov_open_areas.
  - apply fmap_Some in H as ([r s1] & H & ->). unfold kcov_close in H.
    apply bind_Some in H as (s2 & Hp & [= <- <-]). eauto using kcov_put_areas.
  - apply fmap_Some in H as ([r s1] & H & ->). eauto using kcov_mmap_areas.
  - apply fmap_Some in H as ([r s1] & H & ->). eauto using kcov_ioctl_areas.
  - eauto using run_sink_areas.
  - eauto using kcov_remote_start_areas.
  - eauto using kcov_remote_stop_areas.
  - eauto using user_store_areas.
Qed.

Lemma reachable_areas cfg s : reachable cfg s → areas_ok cfg s.
Proof.
  intros [es Hrun].
  assert (∀ s0, state_ok cfg s0 → areas_ok cfg s0 →
            run cfg es s0 = Some s → areas_ok cfg s) as Hgen.
  { clear Hrun. induction es as [|e es IH]; intros s0 Hst Hok Hrun;
      simpl in Hrun.
    - by injection Hrun as <-.
    - apply bind_Some in Hrun as (s1 & H1 & Hrun).
      eapply IH; [| |exact Hrun]; eauto using step_ok, step_areas. }
  eapply Hgen; [apply boot_ok | apply areas_ok_boot | exact Hrun].
Qed.

(** X24. In every reachable state the area a descriptor points to is
    allocated and holds exactly [size * sizeof(unsigned long)] bytes, for a
    size of at least 2 whose bytes fit [INT_MAX]; the descriptor has left
    DISABLED; and no other descriptor points to that area. *)
Theorem descriptor_area_is_allocated cfg s k kc a :
  reachable cfg s → kcovs s !! k = Some kc → k_area kc = Some a →
  k_mode kc ≠ KCOV_MODE_DISABLED
  ∧ 2 ≤ k_size kc ≤ INT_MAX / word_size cfg
  ∧ (∃ buf, vmem s !! a = Some buf
            ∧ Z.of_nat (length buf) = k_size kc * word_size cfg)
  ∧ ∀ k' kc', kcovs s !! k' = Some kc' → k_area kc' = Some a → k' = k.
Proof.
  intros Hr Hk Ha.
  destruct (reachable_areas _ _ Hr _ _ _ Hk Ha) as (Hm & Hb & Hu).
  destruct (ok_kcovs _ _ (reachable_ok _ _ Hr) _ _ Hk) as (_ & _ & Hsz).
  split_and!; [done | by apply Hsz | by apply Hsz | done | done].
Qed.

Lemma descriptor_area_is_allocated_witness :
  ∃ buf, vmem (two_descriptors_state lp64_config) !! 1%nat = Some buf
         ∧ Z.of_nat (length buf) = 32.
Proof.
  destruct (descriptor_area_is_allocated lp64_config
              (two_descriptors_state lp64_config) 1
              {| k_refcount := 1; k_mode := KCOV_MODE_INIT; k_size := 4;
                 k_area := Some 1%nat; k_t := None; k_remote := false;
                 k_remote_size := 0; k_sequence := 1 |} 1)
    as (_ & _ & (buf & Hb & Hl) & _).
  - exists (two_descriptors_run lp64_config). vm_compute. reflexivity.
  - vm_compute. reflexivity.
  - reflexivity.
  - exists buf. split; [exact Hb | exact Hl].
Defined.

(** ** A complete local session *)

Lemma enable_succeeds cfg cur k arg rarg ok s kc ts m :
  kcovs s !! k = Some kc → tasks s !! cur = Some ts →
  k_mode kc = KCOV_MODE_INIT → k_area kc ≠ None → k_t kc = None →
  ts_kcov ts = None →
  kcov_get_mode cfg arg = kcov_mode_val m → traces m →
  kcov_ioctl_locked cfg cur k KCOV_ENABLE arg rarg ok s
  = Some (0, set_kcovs <[k := enabled_kcov cur m kc]>
               (set_tasks <[cur := enabled_task k m kc]> s)).
Proof.
  intros Hk Hts Hmode Harea Hown Hatt Hget Htr.
  assert (kcov_mode_of_val (kcov_mode_val m) = m ∧ 0 ≤ kcov_mode_val m)
    as [Hval Hpos] by (by destruct Htr as [-> | ->]).
  unfold kcov_ioctl_locked. rewrite Hk. cbn [mbind option_bind].
  rewrite decide_False by (intros [?|?]; done).
  rewrite Hts. cbn [mbind option_bind].
  rewrite decide_False by (intros [?|?]; done).
  rewrite Hget, Hval. rewrite decide_False by lia.
  unfold kcov_start, kcov_get. cbn [kcovs tasks set_kcovs set_tasks].
  rewrite Hts. cbn [mbind option_bind].
  cbn [kcovs tasks set_kcovs set_tasks].
  rewrite !lookup_insert_eq. cbn [mbind option_bind].
  do 2 f_equal. destruct s. unfold set_kcovs, set_tasks. cbn. f_equal.
  - by rewrite !insert_insert_eq.
  - by rewrite !insert_insert_eq.
Qed.

(** KCOV_DISABLE by the task of a session whose sinks have left [buf'] in
    the area: only the area, the descriptor and the task differ from the
    state before the session. *)
Lemma session_disable cfg cur k m rarg ok s kc a buf' :
  1 ≤ k_refcount kc < INT_MAX → k_remote kc = false →
  kcov_ioctl_locked cfg cur k KCOV_DISABLE 0 rarg ok
    (set_vmem <[a := buf']>
       (set_kcovs <[k := enabled_kcov cur m kc]>
          (set_tasks <[cur := enabled_task k m kc]> s)))
  = Some (0, set_vmem <[a := buf']>
               (set_tasks <[cur := new_task]>
                  (set_kcovs <[k := kcov_reset_k kc]> s))).
Proof.
  intros Hrc Hrem. unfold INT_MAX in Hrc.
  unfold kcov_ioctl_locked. cbn [kcovs set_kcovs set_tasks set_vmem].
  rewrite lookup_insert_eq. cbn [mbind option_bind].
  cbn [tasks set_kcovs set_tasks set_vmem]. rewrite lookup_insert_eq.
  cbn [mbind option_bind ts_kcov enabled_task].
  rewrite decide_False by (intros [?|?]; done).
  unfold enabled_kcov at 1. cbn [k_t set_k_refcount set_k_t].
  rewrite decide_False by (intros ?; done).
  unfold kcov_task_init. cbn [tasks set_kcovs set_tasks set_vmem].
  rewrite lookup_insert_eq. cbn [mbind option_bind].
  unfold enabled_kcov at 1.
  cbn [k_remote set_k_refcount set_k_t set_k_size_mode]. rewrite Hrem.
  unfold kcov_reset. cbn [kcovs set_kcovs set_tasks set_vmem].
  rewrite lookup_insert_eq. cbn [mbind option_bind].
  unfold kcov_put. cbn [kcovs set_kcovs set_tasks set_vmem].
  rewrite lookup_insert_eq. cbn [mbind option_bind].
  unfold enabled_kcov. cbn [k_refcount kcov_reset_k set_k_refcount].
  rewrite (sint_small (k_refcount kc + 1)) by lia.
  replace (k_refcount kc + 1 - 1) with (k_refcount kc) by lia.
  rewrite sint_small by lia. rewrite decide_False by lia.
  cbn [mbind option_bind]. do 2 f_equal.
  destruct s as [ks tsk vm rm ra], kc as [rc md sz ar ow re rs sq].
  unfold set_kcovs, set_tasks, set_vmem, kcov_reset_k, set_k_refcount, set_k_t,
    set_k_size_mode, kcov_task_init_ts, kcov_stop_ts, new_task, enabled_task.
  cbn [kcovs tasks vmem kcov_remote_map kcov_remote_areas
       k_refcount k_size k_area k_sequence ts_kcov_mode ts_kcov_size
       ts_kcov_area ts_kcov ts_kcov_sequence].
  by rewrite !insert_insert_eq.
Qed.

(** What a reachable state gives for a descriptor that is mapped and in
    INIT: no owner, not remote, a size in range and an area of that size. *)
Lemma mapped_descriptor cfg s k kc a buf :
  reachable cfg s → kcovs s !! k = Some kc →
  k_mode kc = KCOV_MODE_INIT → k_area kc = Some a → vmem s !! a = Some buf →
  k_t kc = None ∧ k_remote kc = false
  ∧ 2 ≤ k_size kc ∧ k_size kc * word_size cfg ≤ INT_MAX
  ∧ Z.of_nat (length buf) = k_size kc * word_size cfg.
Proof.
  intros Hr Hk Hmode Ha Hbuf.
  destruct (ok_kcovs _ _ (reachable_ok _ _ Hr) _ _ Hk) as (Hown & Hrem & Hsz).
  destruct (reachable_areas _ _ Hr _ _ _ Hk Ha) as (_ & (b & Hb & Hl) & _).
  assert (b = buf) as -> by congruence.
  assert (k_t kc = None) as Ht.
  { destruct (k_t kc); [|done]. destruct Hown as [E | E]; [done|..];
      rewrite Hmode in E; discriminate. }
  assert (2 ≤ k_size kc ≤ INT_MAX / word_size cfg) as Hs
    by (apply Hsz; rewrite Hmode; discriminate).
  fold (word_size cfg) in Hs.
  pose proof (word_size_pos cfg) as Hw.
  pose proof (Z.mul_div_le INT_MAX (word_size cfg) Hw).
  split_and!; [done | | lia | nia | done].
  destruct (k_remote kc); [|done]. by destruct Hrem.
Qed.

(** X25. A complete local session for PCs. In a reachable state, on a
    mapped descriptor in INIT with a reference count of [1 .. INT_MAX - 1]
    whose area holds [n0 <= size - 1] records, a task attached to no
    descriptor calls KCOV_ENABLE with KCOV_TRACE_PC, then the PC sink for
    the addresses [ips], then KCOV_DISABLE. Both ioctls return 0 and the
    sinks succeed. The area then holds [min(n0 + |ips|, size - 1)] records:
    the old ones unchanged, followed by the canonical PCs in call order.
    The final state is the initial one with that area, the descriptor
    reset and the kcov fields of the task cleared. *)
Theorem enabled_task_collects_pcs
    cfg cur k rarg ok rarg' ok' ips s kc ts a buf n0 :
  reachable cfg s → kcovs s !! k = Some kc → tasks s !! cur = Some ts →
  k_mode kc = KCOV_MODE_INIT → k_area kc = Some a → ts_kcov ts = None →
  1 ≤ k_refcount kc < INT_MAX →
  vmem s !! a = Some buf →
  load (word_size cfg) buf 0 = Some n0 → 0 ≤ n0 ≤ k_size kc - 1 →
  ∃ s1 buf',
    kcov_ioctl_locked cfg cur k KCOV_ENABLE KCOV_TRACE_PC rarg ok s
    = Some (0, s1)
    ∧ run_sinks cfg true cur (trace_pc <$> ips) s1
      = Some (set_vmem <[a := buf']> s1)
    ∧ kcov_ioctl_locked cfg cur k KCOV_DISABLE 0 rarg' ok'
        (set_vmem <[a := buf']> s1)
      = Some (0, set_vmem <[a := buf']>
                   (set_tasks <[cur := new_task]>
                      (set_kcovs <[k := kcov_reset_k kc]> s)))
    ∧ length buf' = length buf
    ∧ load (word_size cfg) buf' 0
      = Some (Z.min (n0 + Z.of_nat (length ips)) (k_size kc - 1))
    ∧ (∀ i : nat, n0 + Z.of_nat i < k_size kc - 1 → (i < length ips)%nat →
         load (word_size cfg) buf' (n0 + 1 + Z.of_nat i)
         = canonicalize_ip cfg <$> ips !! i)
    ∧ (∀ j, 1 ≤ j ≤ n0 →
         load (word_size cfg) buf' j = load (word_size cfg) buf j).
Proof.
  intros Hr Hk Hts Hmode Ha Hatt Hrc Hbuf Hn Hn0.
  destruct (mapped_descriptor _ _ _ _ _ _ Hr Hk Hmode Ha Hbuf)
    as (Hown & Hrem & Hs2 & Hfit & Hlen).
  unfold INT_MAX in Hfit. pose proof (word_size_pos cfg) as Hw.
  set (s1 := set_kcovs <[k := enabled_kcov cur KCOV_MODE_TRACE_PC kc]>
               (set_tasks <[cur := enabled_task k KCOV_MODE_TRACE_PC kc]> s)).
  destruct (run_trace_pc cfg cur (enabled_task k KCOV_MODE_TRACE_PC kc) a ips)
    with (s := s1) (buf := buf) (n0 := n0)
    as (buf' & Hrun & Hl' & Hc' & Hp' & Hf');
    [done | done | simpl; nia | simpl; apply lookup_insert_eq | done | done
    | done | done |].
  exists s1, buf'. split_and!; [| done | | done | done | done | done].
  - apply (enable_succeeds _ _ _ _ _ _ _ kc ts);
      [done | done | done | congruence | done | done | done | by left].
  - by apply session_disable.
Qed.

Lemma enabled_task_collects_pcs_witness :
  ∃ s1 buf',
    kcov_ioctl_locked lp64_config 1 0 KCOV_ENABLE KCOV_TRACE_PC no_remote_arg
      always_ok (mapped_state lp64_config 4) = Some (0, s1)
    ∧ run_sinks lp64_config true 1 (trace_pc <$> [5000; 6000; 7000; 8000]) s1
      = Some (set_vmem <[0%nat := buf']> s1)
    ∧ load 8 buf' 0 = Some 3
    ∧ load 8 buf' 3 = Some (7000 - 4096).
Proof.
  destruct (enabled_task_collects_pcs lp64_config 1 0 no_remote_arg always_ok
              no_remote_arg always_ok [5000; 6000; 7000; 8000]
              (mapped_state lp64_config 4) (mapped_kcov 4) new_task 0%nat
              (replicate 32 0) 0)
    as (s1 & buf' & Hen & Hrun & _ & _ & Hc & Hp & _).
  - exists (mapped_run lp64_config 4). vm_compute. reflexivity.
  - vm_compute. reflexivity.
  - vm_compute. reflexivity.
  - reflexivity.
  - reflexivity.
  - reflexivity.
  - vm_compute. split; [discriminate | reflexivity].
  - vm_compute. reflexivity.
  - vm_compute. reflexivity.
  - vm_compute. split; discriminate.
  - exists s1, buf'. split_and!; [exact Hen | exact Hrun | exact Hc |].
    apply (Hp 2%nat); [reflexivity | simpl; lia].
Defined.

(** X26. The same session for comparisons, on a kernel built with
    CONFIG_KCOV_ENABLE_COMPARISONS: KCOV_ENABLE with KCOV_TRACE_CMP,
    comparison sinks [cs] that fit in the area behind the [n0] records it
    holds, KCOV_DISABLE. Both ioctls return 0 and the sinks succeed; the
    area then holds [n0 + |cs|] records: the old ones unchanged, followed
    by the records of the calls in call order (type, both operands,
    canonical return address). The final state is as in X25. *)
Theorem enabled_task_collects_cmps
    cfg cur k rarg ok rarg' ok' cs s kc ts a buf n0 :
  reachable cfg s → kcovs s !! k = Some kc → tasks s !! cur = Some ts →
  k_mode kc = KCOV_MODE_INIT → k_area kc = Some a → ts_kcov ts = None →
  1 ≤ k_refcount kc < INT_MAX →
  CONFIG_KCOV_ENABLE_COMPARISONS cfg = true →
  vmem s !! a = Some buf →
  load sizeof_u64 buf 0 = Some n0 → 0 ≤ n0 →
  (1 + (n0 + Z.of_nat (length cs)) * 4) * 8 ≤ k_size kc * word_size cfg →
  Forall (λ c, is_Some (cmp_record c)) cs →
  ∃ s1 buf',
    kcov_ioctl_locked cfg cur k KCOV_ENABLE KCOV_TRACE_CMP rarg ok s
    = Some (0, s1)
    ∧ run_sinks cfg true cur cs s1 = Some (set_vmem <[a := buf']> s1)
    ∧ kcov_ioctl_locked cfg cur k KCOV_DISABLE 0 rarg' ok'
        (set_vmem <[a := buf']> s1)
      = Some (0, set_vmem <[a := buf']>
                   (set_tasks <[cur := new_task]>
                      (set_kcovs <[k := kcov_reset_k kc]> s)))
    ∧ length buf' = length buf
    ∧ load sizeof_u64 buf' 0 = Some (n0 + Z.of_nat (length cs))
    ∧ (∀ (i : nat) c type arg1 arg2 ip,
         cs !! i = Some c → cmp_record c = Some (type, arg1, arg2, ip) →
         load sizeof_u64 buf' (1 + 4 * (n0 + Z.of_nat i)) = Some (u64 type)
         ∧ load sizeof_u64 buf' (1 + 4 * (n0 + Z.of_nat i) + 1)
           = Some (u64 arg1)
         ∧ load sizeof_u64 buf' (1 + 4 * (n0 + Z.of_nat i) + 2)
           = Some (u64 arg2)
         ∧ load sizeof_u64 buf' (1 + 4 * (n0 + Z.of_nat i) + 3)
           = Some (canonicalize_ip cfg ip))
    ∧ (∀ j, 1 ≤ j < 1 + 4 * n0 →
         load sizeof_u64 buf' j = load sizeof_u64 buf j).
Proof.
  intros Hr Hk Hts Hmode Ha Hatt Hrc Hcmp Hbuf Hn Hn0 Hroom Hcs.
  destruct (mapped_descriptor _ _ _ _ _ _ Hr Hk Hmode Ha Hbuf)
    as (Hown & Hrem & Hs2 & Hfit & Hlen).
  unfold INT_MAX in Hfit.
  set (s1 := set_kcovs <[k := enabled_kcov cur KCOV_MODE_TRACE_CMP kc]>
               (set_tasks <[cur := enabled_task k KCOV_MODE_TRACE_CMP kc]> s)).
  destruct (run_cmp_sinks cfg cur (enabled_task k KCOV_MODE_TRACE_CMP kc) a cs)
    with (s := s1) (buf := buf) (n0 := n0)
    as (buf' & Hrun & Hl' & Hc' & Hp' & Hf');
    [done | done | | simpl; apply lookup_insert_eq | done | done
    | done | done | done | done |].
  { cbn [ts_kcov_size enabled_task].
    destruct (word_size_cases cfg) as [E | E]; rewrite E in *; lia. }
  exists s1, buf'. split_and!; [| done | | done | done | | done].
  - apply (enable_succeeds _ _ _ _ _ _ _ kc ts);
      [done | done | done | congruence | done | done | | by right].
    unfold kcov_get_mode. rewrite decide_False by done.
    rewrite decide_True by done. by rewrite Hcmp.
  - by apply session_disable.
  - intros i c type arg1 arg2 ip Hi Hrec. exact (Hp' i c _ _ _ _ Hi Hrec).
Qed.

Lemma enabled_task_collects_cmps_witness :
  ∃ s1 buf',
    kcov_ioctl_locked lp64_config 1 0 KCOV_ENABLE KCOV_TRACE_CMP no_remote_arg
      always_ok (mapped_state lp64_config 16) = Some (0, s1)
    ∧ run_sinks lp64_config true 1
        [trace_cmp4 10 11 5000; trace_const_cmp1 3 300 6000] s1
      = Some (set_vmem <[0%nat := buf']> s1)
    ∧ load 8 buf' 0 = Some 2
    ∧ load 8 buf' 7 = Some 44.
Proof.
  destruct (enabled_task_collects_cmps lp64_config 1 0 no_remote_arg always_ok
              no_remote_arg always_ok
              [trace_cmp4 10 11 5000; trace_const_cmp1 3 300 6000]
              (mapped_state lp64_config 16) (mapped_kcov 16) new_task 0%nat
              (replicate 128 0) 0)
    as (s1 & buf' & Hen & Hrun & _ & _ & Hc & Hp & _).
  - exists (mapped_run lp64_config 16). vm_compute. reflexivity.
  - vm_compute. reflexivity.
  - vm_compute. reflexivity.
  - reflexivity.
  - reflexivity.
  - reflexivity.
  - vm_compute. split; [discriminate | reflexivity].
  - reflexivity.
  - vm_compute. reflexivity.
  - vm_compute. reflexivity.
  - done.
  - vm_compute. discriminate.
  - repeat constructor; eexists; reflexivity.
  - destruct (Hp 1%nat (trace_const_cmp1 3 300 6000) _ _ _ _ eq_refl eq_refl)
      as (_ & _ & Harg2 & _).
    exists s1, buf'. split_and!; [exact Hen | exact Hrun | exact Hc | exact Harg2].
Defined.

(** ** The sequence number of a descriptor *)
























(** ** What the other tasks leave of a task *)
















(** ** Windows invalidated by KCOV_DISABLE *)








(** ** The sequence number wraps *)






(** The case the statement of C5 leaves out: a shared area that is on the
    free list. Task 1 has called [kcov_remote_stop] while attached by
    KCOV_ENABLE, which [kcov_remote_start] refuses at [WARN_ON(t->kcov)]
    and [kcov_remote_stop] does not check; the window of task 2 then gets
    the shared area itself as its scratch area, and the PCs of the window
    are in the shared area although KCOV_DISABLE has returned 0 before the
    stop. *)
Lemma aliased_scratch_window :
  reachable lp64_config aliased_state
  ∧ kcov_remote_areas aliased_state = [ {| ra_area := 0; ra_size := 4 |} ]
  ∧ vmem aliased_state !! 0%nat = Some (replicate 32 0)
  ∧ ∃ s3 s4 s5 kc dst,
      kcovs aliased_state !! 0%nat = Some kc ∧ k_area kc = Some 0%nat
      ∧ run lp64_config
          [ ev_remote_start true 2 7 None;
            ev_sink true 2 (trace_pc 5000); ev_sink true 2 (trace_pc 6000);
            ev_sink true 2 (trace_pc 7000) ] aliased_state = Some s3
      ∧ kcov_ioctl_locked lp64_config 1 0 KCOV_DISABLE 0 no_remote_arg
          always_ok s3 = Some (0, s4)
      ∧ kcov_remote_stop lp64_config 2 s4 = Some s5
      ∧ vmem s5 !! 0%nat = Some dst
      ∧ load 8 dst 3 = Some (7000 - 4096).
Proof.
  split_and!.
  - exists aliased_run. vm_compute. reflexivity.
  - vm_compute. reflexivity.
  - vm_compute. reflexivity.
  - exists (state_after lp64_config
              (aliased_run
               ++ [ ev_remote_start true 2 7 None;
                    ev_sink true 2 (trace_pc 5000);
                    ev_sink true 2 (trace_pc 6000);
                    ev_sink true 2 (trace_pc 7000) ])),
      (state_after lp64_config
         (aliased_run
          ++ [ ev_remote_start true 2 7 None;
               ev_sink true 2 (trace_pc 5000); ev_sink true 2 (trace_pc 6000);
               ev_sink true 2 (trace_pc 7000);
               ev_ioctl 1 0 KCOV_DISABLE 0 no_remote_arg always_ok ])),
      (state_after lp64_config
         (aliased_run
          ++ [ ev_remote_start true 2 7 None;
               ev_sink true 2 (trace_pc 5000); ev_sink true 2 (trace_pc 6000);
               ev_sink true 2 (trace_pc 7000);
               ev_ioctl 1 0 KCOV_DISABLE 0 no_remote_arg always_ok;
               ev_remote_stop 2 ])),
      {| k_refcount := 2; k_mode := KCOV_MODE_TRACE_PC; k_size := 4;
         k_area := Some 0%nat; k_t := Some 1%nat; k_remote := true;
         k_remote_size := 4; k_sequence := 1 |},
      [3; 0; 0; 0; 0; 0; 0; 0; 136; 3; 0; 0; 0; 0; 0; 0;
       112; 7; 0; 0; 0; 0; 0; 0; 88; 11; 0; 0; 0; 0; 0; 0].
    split_and!; vm_compute; reflexivity.
Qed.
